(** * The ce5d8cdd crawler: a shallow embedding of [site_ce5d8cdd.py] and
    [crawl_ce5d8cdd.py], and the properties of its extractors, pagination
    resolver, fetch layer and book pipeline.

    Conventions.
    - A Python [str] is the list of its code points ([list N]); [len] is
      [length], slicing is [firstn]/[skipn].
    - A call that can raise returns a [result]; [Raise] carries the exception
      class.  [try: ... except Exception:] is a [match] on the result.
    - The libraries the program imports but does not define (parsel, urllib,
      datetime, the float parser, [crawl.common]) are the fields of [PyEnv];
      every theorem quantified over an environment holds whatever these
      libraries answer.  [re], [hashlib.md5] and the [str] methods are modelled
      in full below, on the constructs the program uses. *)

From Stdlib Require Import ZArith NArith List Bool Lia Lqa String Ascii QArith Permutation.
From stdpp Require Import base gmap.
Import ListNotations.

Local Open Scope N_scope.
Local Open Scope list_scope.

(** ** Text *)

Abbreviation str := (list N).

(** UTF-8 decoding of a literal of this file, so that patterns and marker
    phrases are written as they stand in the source. *)
Fixpoint utf8_dec (bs : list N) : str :=
  match bs with
  | [] => []
  | b0 :: t0 =>
      if b0 <? 128 then b0 :: utf8_dec t0
      else
        match t0 with
        | [] => []
        | b1 :: t1 =>
            if b0 <? 224 then
              N.lor (N.shiftl (N.land b0 31) 6) (N.land b1 63) :: utf8_dec t1
            else
              match t1 with
              | [] => []
              | b2 :: t2 =>
                  if b0 <? 240 then
                    N.lor (N.shiftl (N.land b0 15) 12)
                      (N.lor (N.shiftl (N.land b1 63) 6) (N.land b2 63))
                      :: utf8_dec t2
                  else
                    match t2 with
                    | [] => []
                    | b3 :: t3 =>
                        N.lor (N.shiftl (N.land b0 7) 18)
                          (N.lor (N.shiftl (N.land b1 63) 12)
                             (N.lor (N.shiftl (N.land b2 63) 6) (N.land b3 63)))
                          :: utf8_dec t3
                    end
              end
        end
  end.

Definition lit (s : string) : str :=
  utf8_dec (List.map N_of_ascii (list_ascii_of_string s)).

(** [dq s]: the literal [s] with every apostrophe read as a double quote, for
    source literals that contain double quotes. *)
Definition dq (s : string) : str :=
  List.map (fun c => if c =? 39 then 34 else c) (lit s).

Definition str_eqb (a b : str) : bool := bool_decide (a = b).

(** [bool(s)] of a string. *)
Definition truthy (s : str) : bool :=
  match s with [] => false | _ => true end.

(** [a or b] on strings; [b] is only used when [a] is empty. *)
Definition or_else (a b : str) : str := if truthy a then a else b.

(** *** Character classes of the interpreter (CPython 3.11, Unicode 14.0) *)

(** [str.isspace] on one code point; also the class [\s] of [re]. *)
Definition is_space (c : N) : bool :=
  ((9 <=? c) && (c <=? 13)) || ((28 <=? c) && (c <=? 32))
  || (c =? 133) || (c =? 160) || (c =? 5760)
  || ((8192 <=? c) && (c <=? 8202))
  || (c =? 8232) || (c =? 8233) || (c =? 8239) || (c =? 8287) || (c =? 12288).

(** The first code point of each run of decimal digits (category Nd); every
    run holds the digits 0..9 in order, the run at 120782 five times. *)
Definition decimal_runs : list (N * N) :=
  [ (48, 57); (1632, 1641); (1776, 1785); (1984, 1993); (2406, 2415);
    (2534, 2543); (2662, 2671); (2790, 2799); (2918, 2927); (3046, 3055);
    (3174, 3183); (3302, 3311); (3430, 3439); (3558, 3567); (3664, 3673);
    (3792, 3801); (3872, 3881); (4160, 4169); (4240, 4249); (6112, 6121);
    (6160, 6169); (6470, 6479); (6608, 6617); (6784, 6793); (6800, 6809);
    (6992, 7001); (7088, 7097); (7232, 7241); (7248, 7257); (42528, 42537);
    (43216, 43225); (43264, 43273); (43472, 43481); (43504, 43513);
    (43600, 43609); (44016, 44025); (65296, 65305); (66720, 66729);
    (68912, 68921); (69734, 69743); (69872, 69881); (69942, 69951);
    (70096, 70105); (70384, 70393); (70736, 70745); (70864, 70873);
    (71248, 71257); (71360, 71369); (71472, 71481); (71904, 71913);
    (72016, 72025); (72784, 72793); (73040, 73049); (73120, 73129);
    (92768, 92777); (92864, 92873); (93008, 93017); (120782, 120831);
    (123200, 123209); (123632, 123641); (125264, 125273); (130032, 130041) ].

(** The class [\d] of [re] on [str] patterns. *)
Definition is_decimal (c : N) : bool :=
  existsb (fun r => (fst r <=? c) && (c <=? snd r)) decimal_runs.

(** The digit a decimal code point stands for, as [int()] reads it. *)
Definition decimal_value (c : N) : option N :=
  match List.find (fun r => (fst r <=? c) && (c <=? snd r)) decimal_runs with
  | Some r => Some ((c - fst r) mod 10)
  | None => None
  end.

(** The lower-casing [re] applies under IGNORECASE, exact wherever the result
    or the argument is an ASCII letter (the only cased characters in this
    program's patterns): A..Z, U+0130 and U+212A map into ASCII, nothing else
    does. *)
Definition sre_lower (c : N) : N :=
  if (65 <=? c) && (c <=? 90) then c + 32
  else if c =? 304 then 105
  else if c =? 8490 then 107
  else c.

(** A pattern literal [p] under IGNORECASE: [re] also accepts U+0131 for i and
    U+017F for s. *)
Definition ci (p c : N) : bool :=
  let lo := sre_lower p in
  (sre_lower c =? lo) || ((lo =? 105) && (c =? 305)) || ((lo =? 115) && (c =? 383)).

Definition is_chr (p c : N) : bool := c =? p.
Definition one_of (ps : str) (c : N) : bool := existsb (N.eqb c) ps.
Definition none_of (ps : str) (c : N) : bool := negb (one_of ps c).

(** *** [str] methods *)

Fixpoint lstrip_by (f : N -> bool) (s : str) : str :=
  match s with
  | c :: t => if f c then lstrip_by f t else s
  | [] => []
  end.

Definition rstrip_by (f : N -> bool) (s : str) : str :=
  rev (lstrip_by f (rev s)).

(** [s.strip()], [s.rstrip(chars)], [s.strip(chars)]. *)
Definition strip (s : str) : str := rstrip_by is_space (lstrip_by is_space s).
Definition rstrip_chars (cs s : str) : str := rstrip_by (one_of cs) s.

(** [s.startswith(p)]: [Some rest] when [s = p ++ rest]. *)
Fixpoint strip_prefix (p s : str) : option str :=
  match p, s with
  | [], _ => Some s
  | a :: p', b :: s' => if a =? b then strip_prefix p' s' else None
  | _ :: _, [] => None
  end.

Definition startswith (p s : str) : bool :=
  match strip_prefix p s with Some _ => true | None => false end.

(** [s.endswith(p)]. *)
Definition endswith (p s : str) : bool := startswith (rev p) (rev s).

(** [p in s]. *)
Fixpoint contains (p s : str) : bool :=
  startswith p s || match s with [] => false | _ :: t => contains p t end.

(** [s.find(p)], [None] for -1. *)
Fixpoint find_sub (p s : str) : option nat :=
  if startswith p s then Some O
  else match s with
       | [] => None
       | _ :: t => option_map S (find_sub p t)
       end.

(** [s.replace(p, r)] for a one-character [p]. *)
Definition replace_chr (p : N) (r s : str) : str :=
  flat_map (fun c => if c =? p then r else [c]) s.

(** [s.split(sep)] for a one-character separator. *)
Fixpoint split_chr (sep : N) (s : str) : list str :=
  match s with
  | [] => [[]]
  | c :: t =>
      if c =? sep then [] :: split_chr sep t
      else match split_chr sep t with
           | w :: ws => (c :: w) :: ws
           | [] => [[c]]
           end
  end.

(** [s.split(sep, 1)[0]] for a one-character separator. *)
Fixpoint before_chr (sep : N) (s : str) : str :=
  match s with
  | [] => []
  | c :: t => if c =? sep then [] else c :: before_chr sep t
  end.

(** [sep.join(parts)]. *)
Fixpoint join (sep : str) (parts : list str) : str :=
  match parts with
  | [] => []
  | [p] => p
  | p :: ps => p ++ sep ++ join sep ps
  end.

Definition slice (a b : nat) (s : str) : str := firstn (b - a) (skipn a s).

(** [t] occurs in [s] at offset [i]. *)
Definition occurs_at (t s : str) (i : nat) : Prop :=
  exists pre post, s = pre ++ t ++ post /\ length pre = i.

(** The longest prefix of [s] whose characters are all of class [f]. *)
Fixpoint take_by (f : N -> bool) (s : str) : str :=
  match s with
  | c :: t => if f c then c :: take_by f t else []
  | [] => []
  end.


(** The run of decimal digits after the first [/book/] that a decimal digit
    follows; empty when there is none. *)
Fixpoint first_book_id (s : str) : str :=
  let here := match strip_prefix (utf8_dec [47; 98; 111; 111; 107; 47]) s with
              | Some rest => take_by is_decimal rest
              | None => []
              end in
  match here with
  | [] => match s with [] => [] | _ :: t => first_book_id t end
  | d => d
  end.

(** ** Exceptions *)

Inductive exn : Type :=
| ValueError
| UnicodeEncodeError
| OverflowError
| OtherError.

Inductive result (A : Type) : Type :=
| Return (a : A)
| Raise (e : exn).
Arguments Return {A} a.
Arguments Raise {A} e.

Definition bind {A B : Type} (m : result A) (f : A -> result B) : result B :=
  match m with
  | Return a => f a
  | Raise e => Raise e
  end.

Notation "'do' x <- m ; k" := (bind m (fun x => k))
  (at level 10, x name, m at level 100, k at level 200).

Definition returns {A : Type} (m : result A) : bool :=
  match m with Return _ => true | Raise _ => false end.

(** ** Regular expressions

    The backtracking matcher of [re], on the constructs this program's
    patterns use.  A pattern is a term of [re]; each is written next to the
    source text it stands for.  Alternatives are tried left to right, a greedy
    repeat tries one more iteration before it stops, a lazy one the other way
    round, and the first complete match is the answer, as in [re]. *)

Inductive re : Type :=
| Chr (f : N -> bool)                 (* one code point of a class *)
| Eps
| Seq (a b : re)
| Alt (a b : re)
| Rep (greedy : bool) (lo : nat) (hi : option nat) (a : re)
| Grp (g : nat) (a : re)              (* capturing group number g *)
| Ref (icase : bool) (g : nat)        (* backreference \g *)
| Bol                                 (* ^ *)
| Eol                                 (* $ : at the end, or before a final newline *)
| Behind (f : N -> bool).             (* (?<=[class]) *)

Definition captures := list (nat * (nat * nat)).

Fixpoint group_span (g : nat) (caps : captures) : option (nat * nat) :=
  match caps with
  | [] => None
  | (g', sp) :: t => if Nat.eqb g g' then Some sp else group_span g t
  end.

Fixpoint strip_prefix_by (eqc : N -> N -> bool) (p s : str) : option str :=
  match p, s with
  | [], _ => Some s
  | a :: p', b :: s' => if eqc a b then strip_prefix_by eqc p' s' else None
  | _ :: _, [] => None
  end.

Definition below (hi : option nat) (n : nat) : bool :=
  match hi with None => true | Some h => Nat.ltb n h end.

Section Matcher.
Variable s : str.       (* the subject *)
Context {R : Type}.

(** [rmatch r i rest caps k]: match [r] at offset [i] of [s], where [rest]
    is [s] from [i] on, then continue with [k]. *)
Fixpoint rmatch (r : re) (i : nat) (rest : str) (caps : captures)
    (k : nat -> str -> captures -> option R) {struct r} : option R :=
  match r with
  | Chr f =>
      match rest with
      | c :: rest' => if f c then k (S i) rest' caps else None
      | [] => None
      end
  | Eps => k i rest caps
  | Seq a b =>
      rmatch a i rest caps (fun i' rest' caps' => rmatch b i' rest' caps' k)
  | Alt a b =>
      match rmatch a i rest caps k with
      | Some x => Some x
      | None => rmatch b i rest caps k
      end
  | Rep greedy lo hi a =>
      (fix loop (fuel n i : nat) (rest : str) (caps : captures) {struct fuel}
         : option R :=
         if greedy then
           match
             match fuel with
             | O => None
             | S fuel' =>
                 if below hi n then
                   rmatch a i rest caps (fun i' rest' caps' =>
                     if Nat.eqb i' i then None
                     else loop fuel' (S n) i' rest' caps')
                 else None
             end
           with
           | Some x => Some x
           | None => if Nat.leb lo n then k i rest caps else None
           end
         else
           match (if Nat.leb lo n then k i rest caps else None) with
           | Some x => Some x
           | None =>
               match fuel with
               | O => None
               | S fuel' =>
                   if below hi n then
                     rmatch a i rest caps (fun i' rest' caps' =>
                       if Nat.eqb i' i then None
                       else loop fuel' (S n) i' rest' caps')
                   else None
               end
           end)
        (S (length rest)) O i rest caps
  | Grp g a =>
      rmatch a i rest caps (fun i' rest' caps' => k i' rest' ((g, (i, i')) :: caps'))
  | Ref icase g =>
      match group_span g caps with
      | None => None
      | Some (a, b) =>
          let eqc := if icase then (fun x y => sre_lower x =? sre_lower y)
                     else N.eqb in
          match strip_prefix_by eqc (slice a b s) rest with
          | Some rest' => k (i + (b - a))%nat rest' caps
          | None => None
          end
      end
  | Bol => if Nat.eqb i 0 then k i rest caps else None
  | Eol =>
      match rest with
      | [] => k i rest caps
      | [10] => k i rest caps
      | _ => None
      end
  | Behind f =>
      match i with
      | O => None
      | S j =>
          match nth_error s j with
          | Some c => if f c then k i rest caps else None
          | None => None
          end
      end
  end.
End Matcher.

(** A match: where it starts, where it ends, and the groups. *)
Record rematch : Type := MkMatch { m_start : nat; m_end : nat; m_caps : captures }.

(** One attempt at offset [start]; with [must_advance] an empty match there is
    refused (the rule [re] applies right after an empty match). *)
Definition match_at (r : re) (s : str) (must_advance : bool) (start : nat)
  : option rematch :=
  rmatch s r start (skipn start s) []
    (fun j _ caps =>
       if must_advance && Nat.eqb j start then None
       else Some (MkMatch start j caps)).

(** Leftmost match at or after [start]; [fuel] is the number of later offsets
    still to try. *)
Fixpoint search_from (r : re) (s : str) (fuel : nat) (must_advance : bool)
    (start : nat) : option rematch :=
  match match_at r s must_advance start with
  | Some m => Some m
  | None =>
      match fuel with
      | O => None
      | S fuel' => search_from r s fuel' false (S start)
      end
  end.

(** [re.search(r, s)] and [re.match(r, s)]. *)
Definition re_search (r : re) (s : str) : option rematch :=
  search_from r s (length s) false O.

Definition re_match (r : re) (s : str) : option rematch :=
  match_at r s false O.

(** [m.group(g)] of a group that took part in the match. *)
Definition group (s : str) (m : rematch) (g : nat) : str :=
  match group_span g (m_caps m) with
  | Some (a, b) => slice a b s
  | None => []
  end.

(** [re.sub(r, repl, s)] for a replacement without group references. *)
Fixpoint sub_loop (r : re) (repl s : str) (fuel : nat) (pos : nat)
    (must_advance : bool) : str :=
  match fuel with
  | O => skipn pos s
  | S fuel' =>
      match search_from r s (length s - pos) must_advance pos with
      | None => skipn pos s
      | Some m =>
          slice pos (m_start m) s ++ repl
            ++ sub_loop r repl s fuel' (m_end m) (Nat.eqb (m_end m) (m_start m))
      end
  end.

Definition re_sub (r : re) (repl s : str) : str :=
  sub_loop r repl s (2 * length s + 2) O false.

(** [re.split(r, s)] for a pattern without capturing groups. *)
Fixpoint split_loop (r : re) (s : str) (fuel : nat) (last pos : nat)
    (must_advance : bool) : list str :=
  match fuel with
  | O => [skipn last s]
  | S fuel' =>
      match search_from r s (length s - pos) must_advance pos with
      | None => [skipn last s]
      | Some m =>
          slice last (m_start m) s
            :: split_loop r s fuel' (m_end m) (m_end m)
                 (Nat.eqb (m_end m) (m_start m))
      end
  end.

Definition re_split (r : re) (s : str) : list str :=
  split_loop r s (2 * length s + 2) O O false.

(** Pattern combinators. *)
Fixpoint chars (f : N -> N -> bool) (p : str) : re :=
  match p with
  | [] => Eps
  | [c] => Chr (f c)
  | c :: t => Seq (Chr (f c)) (chars f t)
  end.

Definition lits (p : string) : re := chars is_chr (lit p).     (* literal text *)
Definition ilits (p : string) : re := chars ci (lit p).        (* under (?i) *)
Definition plus (a : re) : re := Rep true 1 None a.            (* a+ *)
Definition star (a : re) : re := Rep true 0 None a.            (* a* *)
Definition lazy_star (a : re) : re := Rep false 0 None a.      (* a*? *)
Definition opt (a : re) : re := Rep true 0 (Some 1%nat) a.     (* a? *)
Definition between (lo hi : nat) (a : re) : re := Rep true lo (Some hi) a.
Definition at_least (lo : nat) (a : re) : re := Rep true lo None a.
Definition digit : re := Chr is_decimal.                       (* \d *)
Definition space : re := Chr is_space.                         (* \s *)
Definition any_chr : re := Chr (fun _ => true).                (* . under (?s) *)

Fixpoint seqs (rs : list re) : re :=
  match rs with
  | [] => Eps
  | [a] => a
  | a :: t => Seq a (seqs t)
  end.

Fixpoint alts (rs : list re) : re :=
  match rs with
  | [] => Eps
  | [a] => a
  | a :: t => Alt a (alts t)
  end.

(** *** The language of a pattern *)

Fixpoint no_ref (r : re) : bool :=
  match r with
  | Seq a b | Alt a b => no_ref a && no_ref b
  | Rep _ _ _ a | Grp _ a => no_ref a
  | Ref _ _ => false
  | _ => true
  end.

Inductive iter (A : nat -> captures -> nat -> captures -> Prop) (lo : nat)
    (hi : option nat) : nat -> nat -> captures -> nat -> captures -> Prop :=
| iter_stop (n i : nat) (c : captures) :
    (lo <= n)%nat -> iter A lo hi n i c i c
| iter_step (n i : nat) (c : captures) (i' : nat) (c' : captures) (j : nat)
    (c'' : captures) :
    below hi n = true -> A i c i' c' -> i' <> i ->
    iter A lo hi (S n) i' c' j c'' -> iter A lo hi n i c j c''.

Fixpoint sem (s : str) (r : re) (i : nat) (c : captures) (j : nat) (c' : captures)
  : Prop :=
  match r with
  | Chr f => exists ch, nth_error s i = Some ch /\ f ch = true /\ j = S i /\ c' = c
  | Eps => j = i /\ c' = c
  | Seq a b => exists m cm, sem s a i c m cm /\ sem s b m cm j c'
  | Alt a b => sem s a i c j c' \/ sem s b i c j c'
  | Rep _ lo hi a => iter (sem s a) lo hi 0 i c j c'
  | Grp g a => exists c0, sem s a i c j c0 /\ c' = (g, (i, j)) :: c0
  | Ref _ _ => False
  | Bol => i = O /\ j = i /\ c' = c
  | Eol => (skipn i s = [] \/ skipn i s = [10]) /\ j = i /\ c' = c
  | Behind f =>
      exists p ch, i = S p /\ nth_error s p = Some ch /\ f ch = true /\ j = i /\ c' = c
  end.

Definition rep_loop {R : Type}
    (M : nat -> str -> captures -> (nat -> str -> captures -> option R) -> option R)
    (greedy : bool) (lo : nat) (hi : option nat)
    (k : nat -> str -> captures -> option R)
  : nat -> nat -> nat -> str -> captures -> option R :=
  fix loop (fuel n i : nat) (rest : str) (caps : captures) {struct fuel}
    : option R :=
    if greedy then
      match
        match fuel with
        | O => None
        | S fuel' =>
            if below hi n then
              M i rest caps (fun i' rest' caps' =>
                if Nat.eqb i' i then None
                else loop fuel' (S n) i' rest' caps')
            else None
        end
      with
      | Some x => Some x
      | None => if Nat.leb lo n then k i rest caps else None
      end
    else
      match (if Nat.leb lo n then k i rest caps else None) with
      | Some x => Some x
      | None =>
          match fuel with
          | O => None
          | S fuel' =>
              if below hi n then
                M i rest caps (fun i' rest' caps' =>
                  if Nat.eqb i' i then None
                  else loop fuel' (S n) i' rest' caps')
              else None
          end
      end.

(** [re.findall(r, s)] for a pattern with one capturing group that takes part
    in every match: the text of the group, match by match. *)
Fixpoint findall_loop (r : re) (s : str) (fuel : nat) (pos : nat)
    (must_advance : bool) : list str :=
  match fuel with
  | O => []
  | S fuel' =>
      match search_from r s (length s - pos) must_advance pos with
      | None => []
      | Some m =>
          group s m 1
            :: findall_loop r s fuel' (m_end m) (Nat.eqb (m_end m) (m_start m))
      end
  end.

Definition re_findall (r : re) (s : str) : list str :=
  findall_loop r s (2 * length s + 2) O false.

Fixpoint no_grp (r : re) : bool :=
  match r with
  | Seq a b | Alt a b => no_grp a && no_grp b
  | Rep _ _ _ a => no_grp a
  | Grp _ _ => false
  | _ => true
  end.

(** ** [str.encode("utf-8")] and [hashlib.md5] *)

Module Hash.

(** One code point in UTF-8; a surrogate (or a number that is no code point)
    has no encoding: Python raises [UnicodeEncodeError]. *)
Definition utf8_char (c : N) : option (list N) :=
  if c <? 128 then Some [c]
  else if c <? 2048 then
    Some [N.lor 192 (N.shiftr c 6); N.lor 128 (N.land c 63)]
  else if c <? 65536 then
    if (55296 <=? c) && (c <=? 57343) then None
    else Some [N.lor 224 (N.shiftr c 12);
               N.lor 128 (N.land (N.shiftr c 6) 63);
               N.lor 128 (N.land c 63)]
  else if c <? 1114112 then
    Some [N.lor 240 (N.shiftr c 18);
          N.lor 128 (N.land (N.shiftr c 12) 63);
          N.lor 128 (N.land (N.shiftr c 6) 63);
          N.lor 128 (N.land c 63)]
  else None.

(** Decoded text: every code point is a Unicode scalar value. *)
Definition scalar (c : N) : bool :=
  (c <? 55296) || ((57343 <? c) && (c <? 1114112)).
Definition is_text (s : str) : bool := forallb scalar s.

Fixpoint encode_utf8 (s : str) : result (list N) :=
  match s with
  | [] => Return []
  | c :: t =>
      match utf8_char c with
      | None => Raise UnicodeEncodeError
      | Some bs => do r <- encode_utf8 t; Return (bs ++ r)
      end
  end.

(** 32-bit words as [N] with the wrap-around written out. *)
Definition w32 (x : N) : N := x mod 4294967296.
Definition not32 (x : N) : N := N.lxor (w32 x) 4294967295.
Definition rotl32 (x c : N) : N :=
  w32 (N.lor (N.shiftl (w32 x) c) (N.shiftr (w32 x) (32 - c))).

Definition md5_S : list N :=
  [ 7; 12; 17; 22; 7; 12; 17; 22; 7; 12; 17; 22; 7; 12; 17; 22;
    5; 9; 14; 20; 5; 9; 14; 20; 5; 9; 14; 20; 5; 9; 14; 20;
    4; 11; 16; 23; 4; 11; 16; 23; 4; 11; 16; 23; 4; 11; 16; 23;
    6; 10; 15; 21; 6; 10; 15; 21; 6; 10; 15; 21; 6; 10; 15; 21 ].

Definition md5_K : list N :=
  [ 3614090360; 3905402710; 606105819; 3250441966; 4118548399; 1200080426;
    2821735955; 4249261313; 1770035416; 2336552879; 4294925233; 2304563134;
    1804603682; 4254626195; 2792965006; 1236535329; 4129170786; 3225465664;
    643717713; 3921069994; 3593408605; 38016083; 3634488961; 3889429448;
    568446438; 3275163606; 4107603335; 1163531501; 2850285829; 4243563512;
    1735328473; 2368359562; 4294588738; 2272392833; 1839030562; 4259657740;
    2763975236; 1272893353; 4139469664; 3200236656; 681279174; 3936430074;
    3572445317; 76029189; 3654602809; 3873151461; 530742520; 3299628645;
    4096336452; 1126891415; 2878612391; 4237533241; 1700485571; 2399980690;
    4293915773; 2240044497; 1873313359; 4264355552; 2734768916; 1309151649;
    4149444226; 3174756917; 718787259; 3951481745 ].

Definition md5_state : Type := (N * N * N * N)%type.

Definition md5_init : md5_state := (1732584193, 4023233417, 2562383102, 271733878).

(** The 64-bit little-endian length and the padding of a message of [len]
    bytes. *)
Fixpoint le_bytes (n : nat) (x : N) : list N :=
  match n with
  | O => []
  | S n' => (x mod 256) :: le_bytes n' (x / 256)
  end.

Definition md5_pad (msg : list N) : list N :=
  let len := N.of_nat (length msg) in
  msg ++ [128] ++ repeat 0 (N.to_nat ((119 - len mod 64) mod 64))
      ++ le_bytes 8 ((8 * len) mod 18446744073709551616).

Fixpoint le_words (n : nat) (bs : list N) : list N :=
  match n with
  | O => []
  | S n' =>
      match bs with
      | b0 :: b1 :: b2 :: b3 :: t =>
          (b0 + 256 * b1 + 65536 * b2 + 16777216 * b3) :: le_words n' t
      | _ => []
      end
  end.

Definition md5_round (M : list N) (st : md5_state) (i : N) : md5_state :=
  let '(A, B, C, D) := st in
  let F :=
    if i <? 16 then N.lor (N.land B C) (N.land (not32 B) D)
    else if i <? 32 then N.lor (N.land D B) (N.land (not32 D) C)
    else if i <? 48 then N.lxor (N.lxor B C) D
    else N.lxor C (N.lor B (not32 D)) in
  let g :=
    if i <? 16 then i
    else if i <? 32 then (5 * i + 1) mod 16
    else if i <? 48 then (3 * i + 5) mod 16
    else (7 * i) mod 16 in
  let F := w32 (F + A + nth (N.to_nat i) md5_K 0 + nth (N.to_nat g) M 0) in
  (D, w32 (B + rotl32 F (nth (N.to_nat i) md5_S 0)), B, C).

Definition md5_block (st : md5_state) (block : list N) : md5_state :=
  let M := le_words 16 block in
  let '(A, B, C, D) :=
    fold_left (md5_round M) (List.map N.of_nat (seq 0 64)) st in
  let '(a0, b0, c0, d0) := st in
  (w32 (a0 + A), w32 (b0 + B), w32 (c0 + C), w32 (d0 + D)).

Fixpoint md5_blocks (n : nat) (st : md5_state) (bs : list N) : md5_state :=
  match n with
  | O => st
  | S n' => md5_blocks n' (md5_block st (firstn 64 bs)) (skipn 64 bs)
  end.

(** [hashlib.md5(bs).digest()]: sixteen bytes. *)
Definition md5 (msg : list N) : list N :=
  let p := md5_pad msg in
  let '(A, B, C, D) := md5_blocks (Nat.div (length p) 64) md5_init p in
  le_bytes 4 A ++ le_bytes 4 B ++ le_bytes 4 C ++ le_bytes 4 D.

Definition hex_digit (x : N) : N := if x <? 10 then 48 + x else 87 + x.

(** [.hexdigest()]. *)
Definition hexdigest (digest : list N) : str :=
  flat_map (fun b => [hex_digit (b / 16); hex_digit (b mod 16)]) digest.

Definition hex_value (c : N) : option N :=
  if (48 <=? c) && (c <=? 57) then Some (c - 48)
  else if (97 <=? c) && (c <=? 102) then Some (c - 87)
  else if (65 <=? c) && (c <=? 70) then Some (c - 55)
  else None.

(** [int(h, 16)] of a string of hexadecimal digits; anything else raises. *)
Fixpoint int16_from (acc : N) (h : str) : result N :=
  match h with
  | [] => Return acc
  | c :: t =>
      match hex_value c with
      | Some v => int16_from (16 * acc + v) t
      | None => Raise ValueError
      end
  end.

Definition int16 (h : str) : result N :=
  match h with
  | [] => Raise ValueError
  | _ => int16_from 0 h
  end.

End Hash.

(** ** The libraries around the program *)

(** A parsel [Selector]: what [.css(q)] and [.xpath(q)] select below it,
    what [.get()] serialises it to (a node's markup, or the text of a text
    or attribute node), and its [.attrib] dictionary.  A [SelectorList] is a
    list of them. *)
#[local] Unset Elimination Schemes.
Inductive Selector : Type := MkSelector {
  sel_css : str -> list Selector;
  sel_xpath : str -> list Selector;
  sel_get : str;
  sel_attrib : str -> option str
}.
#[local] Set Elimination Schemes.

(** [SelectorList.css(q)], [.xpath(q)] and [.get()] ([None] when empty). *)
Definition list_css (l : list Selector) (q : str) : list Selector :=
  flat_map (fun x => sel_css x q) l.
Definition list_xpath (l : list Selector) (q : str) : list Selector :=
  flat_map (fun x => sel_xpath x q) l.
Definition list_get (l : list Selector) : option str :=
  match l with
  | [] => None
  | x :: _ => Some (sel_get x)
  end.

(** The fields of [urlparse(u)] the program reads. *)
Record ParseResult : Type := MkParseResult {
  url_netloc : str;
  url_path : str
}.

Record PyEnv : Type := MkPyEnv {
  (* parsel *)
  Selector_text : str -> Selector;            (* Selector(text=html) *)
  (* urllib.parse; both raise ValueError on a malformed authority *)
  urljoin : str -> str -> result str;
  urlparse : str -> result ParseResult;
  (* str.lower() *)
  str_lower : str -> str;
  (* int(float(t)); None when either conversion raises *)
  int_of_float : str -> option Z;
  (* sys.get_int_max_str_digits(): 0 is no limit, 4300 the default *)
  int_max_str_digits : nat;
  (* datetime.strptime(x, "%Y-%m-%d %H:%M:%S") then .isoformat();
     None when strptime raises *)
  strptime_iso : str -> option str;
  (* datetime.utcnow() without microseconds, .isoformat() *)
  utcnow_iso : str;
  (* crawl.common *)
  map_category_name : str -> str;
  match_category_by_keywords : str -> str;
  get_default_category_id : str;
  (* localize_cover(session, cover, slug, referer, title, author, category_id):
     the local path, or an exception *)
  localize_cover : str -> str -> str -> str -> str -> str -> result str;
  (* generate_cover_image(slug, title, author, category_id) *)
  generate_cover_image : str -> str -> str -> str -> str
}.

(** [int(ds)] of a run of decimal digits: the interpreter refuses a run
    longer than its digit limit. *)
Definition int_digits (ds : str) : Z :=
  Z.of_N (fold_left (fun acc c => 10 * acc + default 0 (decimal_value c)) ds 0).

Definition py_int (E : PyEnv) (ds : str) : result Z :=
  if Nat.ltb 0 (int_max_str_digits E) && Nat.ltb (int_max_str_digits E) (length ds)
  then Raise ValueError
  else Return (int_digits ds).

(** [str(n)] of a natural number. *)
Fixpoint digits_of (fuel : nat) (n : N) (acc : str) : str :=
  match fuel with
  | O => acc
  | S fuel' =>
      let acc := (48 + n mod 10) :: acc in
      if n <? 10 then acc else digits_of fuel' (n / 10) acc
  end.

Definition str_of_N (n : N) : str := digits_of (S (N.to_nat (N.log2 n))) n [].

(** [f"{n:04d}"] of a non-negative [n]. *)
Definition pad4 (n : N) : str :=
  let d := str_of_N n in
  repeat 48 (4 - length d) ++ d.

(** ** HTML extractor ([site_ce5d8cdd.py]) *)

Module Site.

(** [r"<[^>]+>"], [r"&nbsp;?"], [r"\s+"]. *)
Definition re_tag : re := seqs [lits "<"; plus (Chr (none_of (lit ">"))); lits ">"].
Definition re_nbsp : re := seqs [lits "&nbsp"; opt (lits ";")].
Definition re_spaces : re := plus space.

Definition _clean_text (x : str) : str :=
  if negb (truthy x) then []
  else
    let x := re_sub re_tag [] x in
    let x := re_sub re_nbsp (lit " ") x in
    let x := re_sub re_spaces (lit " ") x in
    strip x.

Definition _first (sel : Selector) (css : str) (default : str) : str :=
  match list_get (sel_css sel css) with
  | Some v => v
  | None => default
  end.

Definition _first_txt (sel : Selector) (css : str) : str :=
  _clean_text (_first sel css []).

(** The pattern of [_find_number], one group: a [\d], then [\d], comma or
    dot any number of times. *)
Definition re_number : re :=
  Grp 1 (Seq digit (star (Chr (fun c => is_decimal c || one_of (lit ",.") c)))).

Definition _find_number (E : PyEnv) (text : str) (default : Z) : Z :=
  if negb (truthy text) then default
  else
    match re_search re_number text with
    | None => default
    | Some m =>
        let t := replace_chr 44 [] (group text m 1) in
        match int_of_float E t with
        | Some v => v
        | None => default
        end
    end.

Definition alphabet : str := lit "abcdefghijklmnopqrstuvwxyz0123456789".

(** The loop of [_stable_slug]: [n] characters, least significant first. *)
Fixpoint slug_chars (n : nat) (num : N) : str :=
  match n with
  | O => []
  | S n' =>
      nth (N.to_nat (num mod N.of_nat (length alphabet))) alphabet 0
        :: slug_chars n' (num / N.of_nat (length alphabet))
  end.

Definition _stable_slug (seed : str) (n : nat) : result str :=
  do bs <- Hash.encode_utf8 seed;
  let h := Hash.hexdigest (Hash.md5 bs) in
  do num <- Hash.int16 (firstn 10 h);
  Return (slug_chars n num).

(** [r"/book/(\d+)(?:/|\.html)?"]. *)
Definition re_book_id : re :=
  seqs [lits "/book/"; Grp 1 (plus digit); opt (Alt (lits "/") (lits ".html"))].

Definition _extract_site_book_id (book_url : str) : str :=
  match re_search re_book_id book_url with
  | Some m => group book_url m 1
  | None => []
  end.

(** [a or b or ...] over strings. *)
Fixpoint or_chain (xs : list str) : str :=
  match xs with
  | [] => []
  | x :: t => if truthy x then x else or_chain t
  end.

Definition _norm_status (s : str) : str :=
  let s := strip s in
  if negb (truthy s) then []
  else if contains (lit "完") s then lit "已完结"
  else if contains (lit "连载") s then lit "连载中"
  else s.

Record Source : Type := MkSource {
  site : str;
  book_url_of : str;
  site_book_id_of : str
}.

Record BookMeta : Type := MkBookMeta {
  id : str;
  slug : str;
  title : str;
  author : str;
  category_id : str;
  status : str;
  cover : str;
  intro : str;
  words : Z;
  update_time : str;
  source : Source;
  tags : list str;
  rating : Z
}.


(** [r"作者[:：]\s*([^\s/|]+)"]. *)
Definition re_author : re :=
  seqs [lits "作者"; Chr (one_of (lit ":：")); star space;
        Grp 1 (plus (Chr (fun c => negb (is_space c || one_of (lit "/|") c))))].

(** [r"(\d{4}-\d{1,2}-\d{1,2})(?:\s+(\d{1,2}:\d{2}(?::\d{2})?))?"]. *)
Definition re_update_time : re :=
  seqs [Grp 1 (seqs [between 4 4 digit; lits "-"; between 1 2 digit; lits "-";
                     between 1 2 digit]);
        opt (seqs [plus space;
                   Grp 2 (seqs [between 1 2 digit; lits ":"; between 2 2 digit;
                                opt (seqs [lits ":"; between 2 2 digit])])])].

(** [r"[，,/\s]+"]. *)
Definition re_tag_sep : re :=
  plus (Chr (fun c => one_of (lit "，,/") c || is_space c)).

(** The title chain of [parse_book_meta]. *)
Definition meta_title (sel : Selector) : str :=
  or_chain
    [ _first_txt sel (dq "meta[property='og:novel:book_name']::attr(content)");
      _first_txt sel (dq "meta[property='og:title']::attr(content)");
      _first_txt sel (lit "h1::text");
      _first_txt sel (lit ".book .info h1::text");
      _first_txt sel (lit ".book-info h1::text");
      _first_txt sel (lit ".bookname h1::text");
      _first_txt sel (lit "title::text") ].

Definition meta_author (sel : Selector) : str :=
  let author := or_chain
    [ _first_txt sel (dq "meta[property='og:novel:author']::attr(content)");
      _first_txt sel (lit ".book .info .author::text");
      _first_txt sel (lit ".book-info .author::text");
      _first_txt sel (dq "a[rel='author']::text");
      _first_txt sel (lit ".author a::text");
      _first_txt sel (lit ".author::text") ] in
  if negb (truthy author) then
    let t := _first_txt sel (lit "body::text") in
    match re_search re_author t with
    | Some m => group t m 1
    | None => author
    end
  else author.

(** The cover before it is resolved against the book URL. *)
Definition meta_cover_raw (sel : Selector) : str :=
  or_chain
    [ _first sel (dq "meta[property='og:image']::attr(content)") [];
      _first sel (lit ".book .info .cover img::attr(src)") [];
      _first sel (lit ".book .cover img::attr(src)") [];
      _first sel (lit ".book-info .cover img::attr(src)") [] ].

(** [cover and not cover.startswith(("http://", "https://", "/"))]. *)
Definition cover_is_relative (cover : str) : bool :=
  truthy cover
  && negb (startswith (lit "http://") cover || startswith (lit "https://") cover
           || startswith (lit "/") cover).

Definition meta_cover (E : PyEnv) (sel : Selector) (book_url : str) : result str :=
  let cover := meta_cover_raw sel in
  if cover_is_relative cover then urljoin E book_url cover else Return cover.

Definition meta_intro (sel : Selector) : str :=
  or_chain
    [ _first_txt sel (dq "meta[property='og:description']::attr(content)");
      _first_txt sel (lit "#intro");
      _first_txt sel (lit ".intro");
      _first_txt sel (lit "#bookintro");
      _first_txt sel (lit ".book-intro");
      _first_txt sel (dq "meta[name='description']::attr(content)") ].

Definition meta_cat_name (sel : Selector) : str :=
  let cat_name := _first_txt sel (dq "meta[property='og:novel:category']::attr(content)") in
  if negb (truthy cat_name) then
    or_chain
      [ _first_txt sel (lit ".breadcrumb a:nth-last-child(2)::text");
        _first_txt sel (lit ".book .info .sort a::text");
        _first_txt sel (lit ".book-info .sort a::text");
        _first_txt sel (lit ".bookdata .sort a::text");
        _first_txt sel (lit ".book .info .category a::text");
        _first_txt sel (lit ".book-info .category a::text") ]
  else cat_name.

Definition meta_category_id (E : PyEnv) (sel : Selector) (category_hint : str) : str :=
  let cat_name := meta_cat_name sel in
  let category_id := map_category_name E cat_name in
  let category_id :=
    if str_eqb category_id (get_default_category_id E) then
      let kw_blob := join (lit " ") (List.filter truthy
        [ cat_name;
          _first_txt sel (dq "meta[name='keywords']::attr(content)");
          _first_txt sel (dq "meta[property='og:description']::attr(content)");
          _first_txt sel (dq "meta[name='description']::attr(content)") ]) in
      let hit := match_category_by_keywords E kw_blob in
      if truthy hit then hit else category_id
    else category_id in
  if str_eqb category_id (get_default_category_id E) && truthy category_hint
  then category_hint else category_id.

Definition meta_status (sel : Selector) : str :=
  or_chain
    [ _norm_status (_first_txt sel (dq "meta[property='og:novel:status']::attr(content)"));
      _norm_status (_first_txt sel (lit ".book .info .status::text"));
      _norm_status (_first_txt sel (lit ".book-info .status::text")) ].

Definition meta_words (E : PyEnv) (sel : Selector) : Z :=
  let words_text := or_chain
    [ _first_txt sel (lit ".book .info .words::text");
      _first_txt sel (lit ".book-info .words::text");
      _first_txt sel (lit ".bookdata .words::text") ] in
  _find_number E words_text 0.

Definition meta_update_time (E : PyEnv) (sel : Selector) : str :=
  let up_text := or_chain
    [ _first_txt sel (dq "meta[property='og:novel:update_time']::attr(content)");
      _first_txt sel (lit ".book .info .update::text");
      _first_txt sel (lit ".book-info .update::text");
      _first_txt sel (lit ".bookdata .update::text") ] in
  let update_time :=
    match re_search re_update_time up_text with
    | Some m =>
        let d := group up_text m 1 in
        let t := or_else (group up_text m 2) (lit "00:00:00") in
        let t := if Nat.eqb (length t) 5 then t ++ lit ":00" else t in
        match strptime_iso E (d ++ lit " " ++ t) with
        | Some iso => iso ++ lit "Z"
        | None => []
        end
    | None => []
    end in
  if negb (truthy update_time) then utcnow_iso E ++ lit "Z" else update_time.

Definition meta_site_book_id (sel : Selector) (book_url : str) : str :=
  let site_book_id := _extract_site_book_id book_url in
  if negb (truthy site_book_id) then
    let og_read := _first_txt sel (dq "meta[property='og:novel:read_url']::attr(content)") in
    if truthy og_read then _extract_site_book_id og_read else site_book_id
  else site_book_id.

(** [site_book_id or (urlparse(book_url).netloc + '/' + (title or ''))]:
    the URL is parsed only when there is no book id. *)
Definition slug_seed (E : PyEnv) (site_book_id book_url title : str) : result str :=
  if truthy site_book_id then Return site_book_id
  else do p <- urlparse E book_url; Return (url_netloc p ++ lit "/" ++ title).

Definition meta_tags (E : PyEnv) (html : str) : list str :=
  let meta_keywords :=
    _first_txt (Selector_text E html) (dq "meta[name='keywords']::attr(content)") in
  if truthy meta_keywords then
    List.map strip (List.filter (fun t => truthy (strip t)) (re_split re_tag_sep meta_keywords))
  else [].

Definition parse_book_meta (E : PyEnv) (html book_url category_hint : str)
  : result BookMeta :=
  let sel := Selector_text E html in
  let title := meta_title sel in
  let author := meta_author sel in
  do cover <- meta_cover E sel book_url;
  let intro := meta_intro sel in
  let category_id := meta_category_id E sel category_hint in
  let status := meta_status sel in
  let words := meta_words E sel in
  let update_time := meta_update_time E sel in
  let site_book_id := meta_site_book_id sel book_url in
  do seed <- slug_seed E site_book_id book_url title;
  do slug <- _stable_slug seed 5;
  let tags := meta_tags E html in
  Return
    {| id := or_chain [title; site_book_id; slug];
       slug := slug;
       title := or_else title slug;
       author := author;
       category_id := category_id;
       status := status;
       cover := cover;
       intro := intro;
       words := words;
       update_time := update_time;
       source := {| site := lit "ce5d8cdd"; book_url_of := book_url;
                    site_book_id_of := site_book_id |};
       tags := tags;
       rating := 0 |}.

(** *** Table of contents *)

Definition _is_bad_href (E : PyEnv) (h : str) : bool :=
  if negb (truthy h) then true
  else
    let h := str_lower E (strip h) in
    startswith (lit "javascript:") h
    || startswith (lit "#") h
    || startswith (lit "mailto:") h
    || startswith (lit "tel:") h
    || contains (lit "void(0") h.

(** The path patterns of [_looks_like_chapter], flags [re.I]:
    [/book/\d+/\d+\.html], [/\d+/\d+\.html], [/\d+_\d+\.html],
    [/read/\d+(?:_\d+)?\.html], [/book/\d+/\d+/?$]. *)
Definition chapter_patterns : list re :=
  [ seqs [ilits "/book/"; plus digit; ilits "/"; plus digit; ilits ".html"];
    seqs [ilits "/"; plus digit; ilits "/"; plus digit; ilits ".html"];
    seqs [ilits "/"; plus digit; ilits "_"; plus digit; ilits ".html"];
    seqs [ilits "/read/"; plus digit; opt (seqs [ilits "_"; plus digit]); ilits ".html"];
    seqs [ilits "/book/"; plus digit; ilits "/"; plus digit; opt (ilits "/"); Eol] ].

(** [(第\s*\d+\s*[章节回节部卷])] and [^\d{1,4}\s*$]. *)
Definition re_heading : re :=
  Grp 1 (seqs [lits "第"; star space; plus digit; star space;
               Chr (one_of (lit "章节回节部卷"))]).
Definition re_bare_number : re :=
  seqs [Bol; between 1 4 digit; star space; Eol].

Definition is_match (m : option rematch) : bool :=
  match m with Some _ => true | None => false end.

Definition _looks_like_chapter (E : PyEnv) (u text : str) : result bool :=
  do p <- urlparse E u;
  let path := str_lower E (url_path p) in
  if existsb (fun pat => is_match (re_search pat path)) chapter_patterns then
    Return true
  else
    let t := strip text in
    if truthy t && Nat.leb (length t) 20 then
      if is_match (re_search re_heading t) then Return true
      else if is_match (re_match re_bare_number t) then Return true
      else Return false
    else Return false.

(** [/(\d+)\.html$] and [/book/\d+/(\d+)/?$]. *)
Definition re_site_id_html : re :=
  seqs [lits "/"; Grp 1 (plus digit); lits ".html"; Eol].
Definition re_site_id_dir : re :=
  seqs [lits "/book/"; plus digit; lits "/"; Grp 1 (plus digit); opt (lits "/"); Eol].

Definition anchor_site_id (E : PyEnv) (u : str) : result Z :=
  match re_search re_site_id_html u with
  | Some m => py_int E (group u m 1)
  | None =>
      match re_search re_site_id_dir u with
      | Some m => py_int E (group u m 1)
      | None => Return 0%Z
      end
  end.

(** A row of [prelim]. *)
Record Row : Type := MkRow {
  row_href : str;
  row_title : str;
  row_site_id : Z
}.

Record ChapterRef : Type := MkChapterRef {
  no : N;
  ch_title : str;
  href : str;
  site_id : Z
}.

Definition attrib_or_empty (a : Selector) (name : str) : str :=
  default [] (sel_attrib a name).

Definition anchor_href (a : Selector) : str :=
  strip (or_chain [ attrib_or_empty a (lit "href");
                    attrib_or_empty a (lit "data-href");
                    attrib_or_empty a (lit "data-url") ]).

Definition anchor_text (a : Selector) : str :=
  _clean_text (default [] (list_get (sel_css a (lit "::text")))).

(** An anchor the first loop keeps: its href is not inert, resolves, and
    looks like a chapter. *)
Definition anchor_survives (E : PyEnv) (book_url : str) (a : Selector) : bool :=
  negb (_is_bad_href E (anchor_href a))
  && match urljoin E book_url (anchor_href a) with
     | Return u =>
         match _looks_like_chapter E u (anchor_text a) with
         | Return chapter => chapter
         | Raise _ => false
         end
     | Raise _ => false
     end.

(** The first loop of [parse_toc]. *)
Fixpoint toc_prelim (E : PyEnv) (book_url : str) (anchors : list Selector)
  : result (list Row) :=
  match anchors with
  | [] => Return []
  | a :: rest =>
      let href := anchor_href a in
      if _is_bad_href E href then toc_prelim E book_url rest
      else
        do u <- urljoin E book_url href;
        let t := anchor_text a in
        do chapter <- _looks_like_chapter E u t;
        if negb chapter then toc_prelim E book_url rest
        else
          do sid <- anchor_site_id E u;
          do more <- toc_prelim E book_url rest;
          Return (MkRow u t sid :: more)
  end.

(** The second loop: [for i, row in enumerate(prelim, 1)]. *)
Fixpoint number_rows (i : N) (prelim : list Row) : list ChapterRef :=
  match prelim with
  | [] => []
  | row :: rest =>
      {| no := i;
         ch_title := or_else (row_title row) (lit "第" ++ str_of_N i ++ lit "章");
         href := row_href row;
         site_id := row_site_id row |} :: number_rows (i + 1) rest
  end.

Definition toc_anchors (E : PyEnv) (html : str) : list Selector :=
  sel_css (Selector_text E html)
    (lit "#list a, #list-chapterAll a, .listmain a, .chapterlist a, .reader-list a, .dirlist a, .chapter a").

Definition parse_toc (E : PyEnv) (html book_url : str) : result (list ChapterRef) :=
  do prelim <- toc_prelim E book_url (toc_anchors E html);
  Return (number_rows 1 prelim).

(** *** Chapter text *)

Definition containers : list str :=
  List.map lit
    [ "#htmlContent"; ".htmlContent"; "#chaptercontent"; ".ReadAjax_content";
      ".Readarea"; "#content"; ".content"; ".read-content"; ".chapter_content";
      "#chaptercontent1"; "#chapterContent"; "article" ]%string.

Definition not_gt : re := Chr (none_of (lit ">")).
Definition quote : re := Chr (one_of (dq "'" ++ lit "'")).
Definition not_quote : re := Chr (none_of (dq "'" ++ lit "'")).

(** The six substitutions of [parse_chapter_content], in order; the first
    four and the last under [(?is)], the fifth under [(?i)]:
    script blocks, style blocks, the anchors with id pb_prev, pb_mulu or
    pb_next, the div, p or section whose class holds Readpage or link (closed
    by the same tag, a backreference), [<br\s*/?>], and any tag. *)
Definition re_script : re :=
  seqs [ilits "<script"; star not_gt; ilits ">"; lazy_star any_chr; ilits "</script>"].
Definition re_style : re :=
  seqs [ilits "<style"; star not_gt; ilits ">"; lazy_star any_chr; ilits "</style>"].
Definition re_nav_anchor : re :=
  seqs [ilits "<a"; plus not_gt; ilits "id="; quote;
        Grp 1 (alts [ilits "pb_prev"; ilits "pb_mulu"; ilits "pb_next"]);
        quote; star not_gt; ilits ">"; lazy_star any_chr; ilits "</a>"].
Definition re_link_block : re :=
  seqs [ilits "<"; Grp 1 (alts [ilits "div"; ilits "p"; ilits "section"]);
        plus not_gt; ilits "class="; quote; star not_quote;
        Grp 2 (alts [ilits "Readpage"; ilits "link"]); star not_quote; quote;
        star not_gt; ilits ">"; lazy_star any_chr; ilits "</"; Ref true 1; ilits ">"].
Definition re_br : re :=
  seqs [ilits "<br"; star space; opt (ilits "/"); ilits ">"].
Definition re_any_tag : re := seqs [ilits "<"; plus not_gt; ilits ">"].

Definition strip_markup (node_html : str) : str :=
  let node_html := re_sub re_script [] node_html in
  let node_html := re_sub re_style [] node_html in
  let node_html := re_sub re_nav_anchor [] node_html in
  let node_html := re_sub re_link_block [] node_html in
  let node_html := re_sub re_br [10] node_html in
  let node_html := re_sub re_any_tag [] node_html in
  node_html.

Definition _noise_line (ln : str) : bool :=
  if existsb (str_eqb ln) [lit "上一章"; lit "下一章"; lit "目录"] then true
  else if startswith (lit "新书推荐") ln then true
  else if contains (lit "加入书签") ln || contains (lit "点此报错") ln then true
  else if contains (lit "请收藏本站") ln
          && (contains (lit "www.") ln || contains (lit "https://") ln
              || contains (lit "http://") ln) then true
  else if contains (lit "手机版：") ln
          && (contains (lit "https://") ln || contains (lit "http://") ln) then true
  else false.

(** [\r?\n], [\u00a0+], [[ \t]{2,}]. *)
Definition re_newline : re := seqs [opt (Chr (is_chr 13)); Chr (is_chr 10)].
Definition re_nbsp_run : re := plus (Chr (is_chr 160)).
Definition re_blank_run : re := at_least 2 (Chr (one_of [32; 9])).

(** The loop that appends a line unless it is a blank one after a blank one
    or at the head, then the two loops that pop blank ends. *)
Definition is_blank (ln : str) : bool := negb (truthy ln).

Definition append_para (paras : list str) (ln : str) : list str :=
  if is_blank ln && (match paras with [] => true | _ => is_blank (List.last paras [0]) end)
  then paras else paras ++ [ln].

Fixpoint drop_blank (paras : list str) : list str :=
  match paras with
  | p :: t => if is_blank p then drop_blank t else paras
  | [] => []
  end.

Definition collapse (lines : list str) : list str :=
  let paras := fold_left append_para lines [] in
  let paras := drop_blank paras in
  rev (drop_blank (rev paras)).

(** The filter both extraction paths apply: [ln and not _noise_line(ln)]. *)
Definition keep (ln : str) : bool := truthy ln && negb (_noise_line ln).

Definition structured_paras (node_html : str) : list str :=
  let lines := List.map (fun ln => re_sub re_nbsp_run (lit " ") (strip ln))
                        (re_split re_newline node_html) in
  let cleaned := List.map (re_sub re_blank_run (lit " ")) (List.filter keep lines) in
  collapse cleaned.

(** [for css in containers: v = sel.css(css).get(); if v: ...; break]. *)
Fixpoint first_container (sel : Selector) (cs : list str) : str :=
  match cs with
  | [] => []
  | css :: rest =>
      let v := default [] (list_get (sel_css sel css)) in
      if truthy v then v else first_container sel rest
  end.

Definition node_html_of (sel : Selector) (html : str) : str :=
  let node_html := first_container sel containers in
  if negb (truthy node_html) then
    or_else (default [] (list_get (sel_css sel (lit "body")))) html
  else node_html.

(** The body of the fallback's loop over the containers: a container that
    matches replaces [txt] when its whitespace-normalised text is longer. *)
Definition longest_step (sel : Selector) (txt css : str) : str :=
  match sel_css sel css with
  | [] => txt
  | n =>
      let v := default [] (list_get (list_xpath n (lit "normalize-space(string())"))) in
      if truthy v && Nat.ltb (length txt) (length v) then v else txt
  end.

(** The fallback's text: the longest whitespace-normalised text among the
    containers that match, the first of them on a tie. *)
Definition longest_text (sel : Selector) (cs : list str) : str :=
  fold_left (longest_step sel) cs [].

(** The whitespace-normalised texts of the containers that match, in the
    order of [cs]. *)
Definition container_texts (sel : Selector) (cs : list str) : list str :=
  flat_map
    (fun css =>
       match sel_css sel css with
       | [] => []
       | n => [default [] (list_get (list_xpath n (lit "normalize-space(string())")))]
       end)
    cs.

Definition body_text (sel : Selector) : str :=
  default [] (list_get (sel_xpath sel (lit "normalize-space(string(//body))"))).

Definition fallback_text (sel : Selector) : str :=
  let txt := longest_text sel containers in
  if negb (truthy txt) then body_text sel else txt.

(** [[\n\r]+|(?<=[。！？!?\.;])\s+]. *)
Definition re_sentence_break : re :=
  Alt (plus (Chr (one_of [10; 13])))
      (Seq (Behind (one_of (lit "。！？!?.;"))) (plus space)).

Definition fallback_paras (txt : str) : list str :=
  let parts := List.filter keep (List.map strip (re_split re_sentence_break txt)) in
  collapse parts.

Definition MIN_LEN : nat := 80.

Definition parse_chapter_content (E : PyEnv) (html : str) : list str :=
  let sel := Selector_text E html in
  let paras := structured_paras (strip_markup (node_html_of sel html)) in
  if Nat.ltb (length (concat paras)) MIN_LEN then
    fallback_paras (fallback_text sel)
  else paras.

End Site.

(** ** Pagination resolver: the category root ([crawl_ce5d8cdd.py]) *)

Module Crawl.

(** [r"/index_\d+\.html$"], flags [re.I]. *)
Definition re_index_page : re :=
  seqs [ilits "/index_"; plus digit; ilits ".html"; Eol].

(** [r"/(?:page/)?\d+(?:\.html)?$"], flags [re.I]. *)
Definition re_page_segment : re :=
  seqs [ilits "/"; opt (ilits "page/"); plus digit; opt (ilits ".html"); Eol].

Definition _category_root (cat_url : str) : str :=
  let u := rstrip_chars (lit "/") cat_url in
  let u := re_sub re_index_page [] u in
  let u := re_sub re_page_segment [] u in
  u.

(** ** Fetch resilience layer *)

(** The marker phrases of [_looks_like_error_page], flags [re.I]:
    [(出现错误|出错|错误|访问过于频繁|频繁|验证|安全|禁止访问|Access Denied|Just a moment)]. *)
Definition error_markers : list string :=
  [ "出现错误"; "出错"; "错误"; "访问过于频繁"; "频繁"; "验证"; "安全";
    "禁止访问"; "Access Denied"; "Just a moment" ]%string.

Definition re_error_page : re := Grp 1 (alts (List.map ilits error_markers)).

Definition _looks_like_error_page (html : str) : bool :=
  if negb (truthy html) then true
  else match re_search re_error_page html with
       | Some _ => true
       | None => false
       end.

(** What one call of [fetch_text] does: it returns the decoded body or raises
    (an [Exception]; the transport's errors). *)
Inductive outcome : Type :=
| Body (html : str)
| Failed.

(** The network and the random source, as one call of [_fetch_with_retry]
    sees them: the outcome of its [i]-th fetch, the value of its [i]-th
    [random.uniform(0.2, 0.9)], and the index its [i]-th [random.choice]
    draws. *)
Record Net : Type := MkNet {
  fetch_text : nat -> outcome;
  uniform : nat -> Q;
  choice : nat -> nat
}.

Inductive event : Type :=
| EvFetch (url : str)
| EvSleep (secs : Q)
| EvSetUA (ua : str).

(** [time.sleep(secs)]: a negative length raises [ValueError], and a length
    that does not fit the interpreter's signed 64-bit count of nanoseconds
    raises [OverflowError].  Lengths are exact rationals here; the rounding of
    the float arithmetic that produces them is not modelled. *)
Definition sleep_limit : Q := 9223372036854775807 # 1000000000.

Definition time_sleep (secs : Q) : result unit :=
  if Qle_bool 0 secs then
    if Qle_bool secs sleep_limit then Return tt else Raise OverflowError
  else Raise ValueError.

(** [random.choice(pool)] of a non-empty pool. *)
Definition random_choice (w : Net) (i : nat) (pool : list str) : str :=
  nth (choice w i mod length pool)%nat pool [].

(** The body of [for i in range(tries)], with [n] iterations to go.  The
    value is the returned html with the effects in order. *)
Fixpoint retry_loop (w : Net) (url : str) (ua_pool : list str) (base_sleep : Q)
    (n i : nat) (last_html : str) (tr : list event)
  : result (str * list event) :=
  match n with
  | O => Return (last_html, tr)
  | S n' =>
      let r := fetch_text w i in
      let tr := tr ++ [EvFetch url] in
      let html := match r with Body h => h | Failed => [] end in
      let last_html := match r with Body h => h | Failed => last_html end in
      if truthy html && negb (_looks_like_error_page html) then
        Return (html, tr)
      else
        let secs := (base_sleep * inject_Z (Z.of_nat i + 1) + uniform w i)%Q in
        do _ <- time_sleep secs;
        let tr := tr ++ [EvSleep secs] in
        let tr := match ua_pool with
                  | [] => tr
                  | _ => tr ++ [EvSetUA (random_choice w i ua_pool)]
                  end in
        retry_loop w url ua_pool base_sleep n' (S i) last_html tr
  end.

Definition _fetch_with_retry (w : Net) (url : str) (ua_pool : list str)
    (tries : Z) (base_sleep : Q) : result (str * list event) :=
  retry_loop w url ua_pool base_sleep (Z.to_nat tries) O [] [].

(** Vocabulary of the statements about the fetch layer. *)

(** The attempt ends the loop: a non-empty body that is not an error page. *)
Definition accepted (o : outcome) : bool :=
  match o with
  | Body h => truthy h && negb (_looks_like_error_page h)
  | Failed => false
  end.

(** The body of the last attempt below [n] that returned one, else empty. *)
Fixpoint last_body (fetch : nat -> outcome) (n : nat) : str :=
  match n with
  | O => []
  | S m => match fetch m with Body h => h | Failed => last_body fetch m end
  end.

(** The same, over the attempts [i .. i+n-1] and starting from [last]: the
    value of [last_html] after them. *)
Fixpoint last_from (w : Net) (i n : nat) (last : str) : str :=
  match n with
  | O => last
  | S n' =>
      last_from w (S i) n'
        match fetch_text w i with Body h => h | Failed => last end
  end.

Definition fetches (tr : list event) : nat :=
  length (List.filter (fun e => match e with EvFetch _ => true | _ => false end) tr).

(** The same network with every raised fetch replaced by an empty body. *)
Definition raised_as_empty (w : Net) : Net :=
  MkNet (fun i => match fetch_text w i with Body h => Body h | Failed => Body [] end)
        (uniform w) (choice w).

(** ** Pagination resolver: the next page *)




(** ** Book pipeline *)

(** A directory: file name to content (bytes). *)
Abbreviation dir := (gmap (list N) (list N)).

(** [chapters.json]: the list of (no, title, slug) and the source map. *)
Record ChapterIndex : Type := MkChapterIndex {
  chap_list : list (N * str * str);
  source_map : gmap (list N) (str * Z)
}.

(** What one book directory holds. *)
Record BookDir : Type := MkBookDir {
  meta_json : option Site.BookMeta;
  toc_json : option (list Site.ChapterRef);
  chapters_json : option ChapterIndex;
  chapters : gmap (list N) (list N)
}.

Definition empty_book_dir : BookDir := MkBookDir None None None ∅.

Definition save_chapter_text (chap : dir) (no : N) (slug_part : str)
    (paras : list str) : result (str * dir) :=
  let pad := pad4 no in
  let out := pad ++ lit "-" ++ or_else slug_part pad ++ lit ".txt" in
  do bytes <- Hash.encode_utf8 (join [10] paras);
  Return (out, <[out := bytes]> chap).

Definition chapter_label (no : N) : str := lit "第" ++ str_of_N no ++ lit "章".

(** The loop of [write_chapters_index]; [idx] counts from 1. *)
Fixpoint chapters_index (idx : N) (toc : list Site.ChapterRef) (acc : ChapterIndex)
  : ChapterIndex :=
  match toc with
  | [] => acc
  | ch :: rest =>
      let no := if Site.no ch =? 0 then idx else Site.no ch in
      let title := or_else (strip (or_else (Site.ch_title ch) (chapter_label no)))
                           (chapter_label no) in
      let slug4 := pad4 no in
      let acc := MkChapterIndex (chap_list acc ++ [(no, title, slug4)])
                   (if truthy (Site.href ch)
                    then <[slug4 := (Site.href ch, Site.site_id ch)]> (source_map acc)
                    else source_map acc) in
      chapters_index (idx + 1) rest acc
  end.

Definition write_chapters_index (d : BookDir) (toc : list Site.ChapterRef) : BookDir :=
  match toc with
  | [] => d
  | _ => MkBookDir (meta_json d) (toc_json d)
           (Some (chapters_index 1 toc (MkChapterIndex [] ∅))) (chapters d)
  end.




(** The command-line arguments [process_book] reads ([rate] and [pool] only
    shape the session and are left out). *)
Record Args : Type := MkArgs {
  category : str;            (* empty when absent *)
  local_covers : Z;
  fetch_chapters : bool;
  overwrite : Z;
  threads : Z;
  retry_rounds : Z;
  retry_sleep : Q
}.

(** The outside of one run of [process_book]: the network as each call of
    [_fetch_with_retry] sees it (the detail page, the alternate index page,
    and task [i] of pass [p], where pass 0 is the first sweep over the TOC
    and pass [r + 1] is retry round [r]), the [random.uniform(0, 1.5)] of
    each retry round, and the order in which [as_completed] hands back the
    futures of a pass. *)
Record World : Type := MkWorld {
  detail_net : Net;
  index_net : Net;
  chapter_net : nat -> nat -> Net;
  retry_uniform : nat -> Q;
  as_completed : nat -> forall A : Type, list A -> list A
}.

Inductive logline : Type :=
| LogCoverWarning
| LogChaptersSkipped
| LogSaved (out : str)
| LogRetry (round size : nat)
| LogRetrySaved (out : str)
| LogStillFailed (size : nat).

(** The names in the chapters directory that [glob("*.txt")] yields with a
    size over 10 bytes, cut at the first dash. *)
Definition existing_prefixes (chap : dir) : gset (list N) :=
  list_to_set
    (List.map (fun kv => before_chr 45 (fst kv))
       (List.filter (fun kv => endswith (lit ".txt") (fst kv)
                               && Nat.ltb 10 (length (snd kv)))
          (map_to_list chap))).

(** The hrefs [fetch_one] refuses to fetch. *)
Definition inert_href (href : str) : bool :=
  negb (truthy href)
  || startswith (lit "javascript:") href
  || startswith (lit "#") href
  || startswith (lit "mailto:") href
  || startswith (lit "tel:") href
  || contains (lit "void(0") href.

(** [fetch_one(ch)]: the chapter number, the paragraphs ([None] when the href
    is inert or anything raised) and the href reported back. *)
Definition fetch_one (E : PyEnv) (w : Net) (book_url : str) (ua_pool : list str)
    (ch : N * str) : N * option (list str) * str :=
  let href := str_lower E (strip (snd ch)) in
  if inert_href href then (fst ch, None, href)
  else
    match (do url <- urljoin E book_url href;
           do r <- _fetch_with_retry w url ua_pool 3 (8 # 10);
           Return (Site.parse_chapter_content E (fst r))) with
    | Return paras => (fst ch, Some paras, href)
    | Raise _ => (fst ch, None, snd ch)
    end.

(** [bool(paras)]. *)
Definition has_paras (paras : option (list str)) : bool :=
  match paras with
  | Some (_ :: _) => true
  | _ => false
  end.

(** The tasks of a pass, each on its own network, in completion order. *)
Definition run_pass (E : PyEnv) (w : World) (pass : nat) (book_url : str)
    (ua_pool : list str) (tasks : list (N * str))
  : list (N * option (list str) * str) :=
  as_completed w pass _
    (imap (fun i ch => fetch_one E (chapter_net w pass i) book_url ua_pool ch) tasks).

(** The state the chapter loops thread: the chapters directory, the failure
    list and the log. *)
Record Progress : Type := MkProgress {
  chap_dir : gmap (list N) (list N);
  fails : list (N * str);
  log : list logline
}.

(** Every chapter of the TOC has, by its zero-padded number, an output file
    of more than 10 bytes in the chapters directory. *)
Definition all_saved (toc : list Site.ChapterRef) (chap : dir) : Prop :=
  forall ch, In ch toc -> pad4 (Site.no ch) ∈ existing_prefixes chap.

(** What the chapter loops leave alone: the files whose prefix is in [X],
    while no chapter number in the failure list pads to a member of [X]. *)
Definition untouched (X : gset (list N)) (chap : dir) (st : Progress) : Prop :=
  (forall name, before_chr 45 name ∈ X -> chap_dir st !! name = chap !! name)
  /\ (forall e, In e (fails st) -> pad4 (fst e) ∉ X).

(** The completion order is a reordering of the submitted futures. *)
Definition fair (w : World) : Prop :=
  forall (p : nat) (A : Type) (l : list A), Permutation (as_completed w p A l) l.


(** The chapters the first pass submits. *)
Definition to_fetch (overwrite : Z) (existing_prefix : gset (list N))
    (toc : list Site.ChapterRef) : list Site.ChapterRef :=
  List.filter
    (fun ch => negb ((overwrite =? 0)%Z
                     && bool_decide (pad4 (Site.no ch) ∈ existing_prefix)))
    toc.

(** The body of the first [for fu in as_completed(futs)]. *)
Definition first_step (st : Progress) (r : N * option (list str) * str)
  : result Progress :=
  let '(no, paras, href) := r in
  if (no =? 0) || negb (has_paras paras) then
    Return (if truthy href
            then MkProgress (chap_dir st) (fails st ++ [(no, href)]) (log st)
            else st)
  else
    do saved <- save_chapter_text (chap_dir st) no (pad4 no) (default [] paras);
    Return (MkProgress (snd saved) (fails st) (log st ++ [LogSaved (fst saved)])).

(** The body of the retry round's [for fu in as_completed(futs)]; [fails]
    of the state is [f2]. *)
Definition retry_step (st : Progress) (r : N * option (list str) * str)
  : result Progress :=
  let '(no, paras, href) := r in
  if has_paras paras then
    do saved <- save_chapter_text (chap_dir st) no (pad4 no) (default [] paras);
    Return (MkProgress (snd saved) (fails st) (log st ++ [LogRetrySaved (fst saved)]))
  else
    Return (MkProgress (chap_dir st) (fails st ++ [(no, href)]) (log st)).

Fixpoint foldM {A B : Type} (f : A -> B -> result A) (l : list B) (a : A) : result A :=
  match l with
  | [] => Return a
  | b :: t => do a' <- f a b; foldM f t a'
  end.

(** One retry round over the failure list of [st]. *)
Definition retry_round (E : PyEnv) (w : World) (rd : nat) (book_url : str)
    (ua_pool : list str) (st : Progress) : result Progress :=
  foldM retry_step (run_pass E w (S rd) book_url ua_pool (fails st))
        (MkProgress (chap_dir st) [] (log st)).

(** [for rd in range(max(0, args.retry_rounds))], with [n] rounds to go. *)
Fixpoint retry_loop_rounds (E : PyEnv) (w : World) (args : Args) (book_url : str)
    (ua_pool : list str) (n rd : nat) (st : Progress) : result Progress :=
  match n with
  | O => Return st
  | S n' =>
      match fails st with
      | [] => Return st
      | _ =>
          let wait := (retry_sleep args * Qpower (3 # 2) (Z.of_nat rd)
                       + retry_uniform w rd)%Q in
          let st := MkProgress (chap_dir st) (fails st)
                      (log st ++ [LogRetry (S rd) (length (fails st))]) in
          do _ <- time_sleep wait;
          do st' <- retry_round E w rd book_url ua_pool st;
          retry_loop_rounds E w args book_url ua_pool n' (S rd) st'
      end
  end.


(** The chapter part of [process_book], from the scan of the chapters
    directory to the final warning. *)
Definition scan_existing (args : Args) (chap : dir) : gset (list N) :=
  if (overwrite args =? 0)%Z then existing_prefixes chap else ∅.

(** The futures of the first pass: the (no, href) of every chapter that is not
    skipped. *)
Definition first_pass_tasks (args : Args) (chap : dir) (toc : list Site.ChapterRef)
  : list (N * str) :=
  List.map (fun ch => (Site.no ch, Site.href ch))
    (to_fetch (overwrite args) (scan_existing args chap) toc).

(** [if fails: print("[warn] still failed chapters: ...")]. *)
Definition warn_residual (st : Progress) : Progress :=
  match fails st with
  | [] => st
  | _ => MkProgress (chap_dir st) (fails st)
           (log st ++ [LogStillFailed (length (fails st))])
  end.

Definition fetch_chapters_of (E : PyEnv) (w : World) (args : Args) (book_url : str)
    (ua_pool : list str) (toc : list Site.ChapterRef) (chap : dir)
  : result Progress :=
  do st <- foldM first_step
             (run_pass E w 0 book_url ua_pool (first_pass_tasks args chap toc))
             (MkProgress chap [] []);
  do st <- retry_loop_rounds E w args book_url ua_pool
             (Z.to_nat (Z.max 0 (retry_rounds args))) 0 st;
  Return (warn_residual st).


(** ** Category listing *)

Definition _same_site (base_netloc target_netloc : str) : bool :=
  if negb (truthy target_netloc) then true
  else if str_eqb target_netloc base_netloc then true
  else
    let base_host := before_chr 58 base_netloc in
    let host := before_chr 58 target_netloc in
    str_eqb host base_host || endswith (lit "." ++ base_host) host.

(** [r"^/book/\d+(?:/|/index\.html|\.html)$"], flags [re.I]. *)
Definition re_book_path : re :=
  seqs [Bol; ilits "/book/"; plus digit;
        alts [ilits "/"; ilits "/index.html"; ilits ".html"]; Eol].

Definition _looks_like_book (E : PyEnv) (u base_netloc : str) : bool :=
  match urlparse E u with
  | Return p =>
      if negb (_same_site base_netloc (url_netloc p)) then false
      else Site.is_match (re_search re_book_path (url_path p))
  | Raise _ => false
  end.

Definition book_selectors : list str :=
  [ dq "a[href*='/book/']::attr(href)";
    lit ".booklist a::attr(href)";
    lit ".novellist a::attr(href)";
    lit "#newscontent a::attr(href)";
    lit ".ranklist a::attr(href)";
    lit ".toplist a::attr(href)";
    lit ".topbox a::attr(href)";
    lit ".list a::attr(href)";
    lit "ul li a::attr(href)" ].

(** [SelectorList.getall()]. *)
Definition getall (l : list Selector) : list str := List.map sel_get l.

(** The two patterns of the fallback, flags [re.I]: an [href=] attribute in
    either kind of quotes whose value holds [/book/\d+], the value being the
    group; and, as one group, [/book/\d+/] with the run of [\S] after it. *)
Definition re_href_book : re :=
  seqs [ilits "href="; Site.quote;
        Grp 1 (seqs [star Site.not_quote; ilits "/book/"; plus digit;
                     star Site.not_quote]);
        Site.quote].
Definition re_book_dir : re :=
  Grp 1 (seqs [ilits "/book/"; plus digit; ilits "/";
               star (Chr (fun c => negb (is_space c)))]).

(** The hrefs of a category page: what the selectors give, all of them
    together; only when they give nothing, what the first pattern finds in the
    markup, else what the second finds. *)
Definition category_hrefs (E : PyEnv) (html : str) : list str :=
  let sel := Selector_text E html in
  match flat_map (fun css => getall (sel_css sel css)) book_selectors with
  | [] =>
      match re_findall re_href_book html with
      | [] => re_findall re_book_dir html
      | found => found
      end
  | hrefs => hrefs
  end.

(** [for h in hrefs]: [out] and [seen] as the loop threads them. *)
Fixpoint collect_books (E : PyEnv) (base_url base_netloc : str) (hrefs : list str)
    (out : list str) (seen : gset (list N)) : result (list str) :=
  match hrefs with
  | [] => Return out
  | h :: rest =>
      do u <- urljoin E base_url h;
      if _looks_like_book E u base_netloc && negb (bool_decide (u ∈ seen)) then
        collect_books E base_url base_netloc rest (out ++ [u]) ({[u]} ∪ seen)
      else collect_books E base_url base_netloc rest out seen
  end.

Definition list_books_in_category (E : PyEnv) (html base_url : str)
  : result (list str) :=
  let hrefs := category_hrefs E html in
  do p <- urlparse E base_url;
  collect_books E base_url (url_netloc p) hrefs [] ∅.

(** ** Paged categories by URL template *)

(** What one call of [try_paged_category] meets: the outcome of its [i]-th
    [fetch_text], and [fmt.format(n=n)] for a template whose root has braces of
    its own (a root without braces is copied as it stands). *)
Record Pager : Type := MkPager {
  page_fetch : nat -> str -> outcome;
  str_format : str -> N -> result str
}.

(** The four templates, as the text before and after [{n}]. *)
Definition page_templates : list (str * str) :=
  [ (lit "/", lit ".html"); (lit "/index_", lit ".html");
    (lit "/page/", []); (lit "?page=", []) ].

Definition format_n (P : Pager) (base_root : str) (t : str * str) (n : N)
  : result str :=
  if existsb (one_of (lit "{}")) base_root then
    str_format P (base_root ++ fst t ++ lit "{n}" ++ snd t) n
  else Return (base_root ++ fst t ++ str_of_N n ++ snd t).

(** [l[:k]]. *)
Definition slice_to (k : Z) (l : list str) : list str :=
  if (0 <=? k)%Z then firstn (Z.to_nat k) l
  else firstn (length l - Z.to_nat (- k)) l.

(** The state of the loops: [found], [seen], [hit], and the URLs fetched so
    far. *)
Record Paging : Type := MkPaging {
  pg_found : list str;
  pg_seen : gset (list N);
  pg_hit : nat;
  pg_fetched : list str
}.

(** [for it in items]: [inl] is the early [return found[:max_books]]. *)
Fixpoint take_items (max_books : Z) (items : list str) (st : Paging)
  : list str + Paging :=
  match items with
  | [] => inr st
  | it :: rest =>
      if bool_decide (it ∈ pg_seen st) then take_items max_books rest st
      else
        let st := MkPaging (pg_found st ++ [it]) ({[it]} ∪ pg_seen st)
                    (S (pg_hit st)) (pg_fetched st) in
        if negb (max_books =? 0)%Z
           && (max_books <=? Z.of_nat (length (pg_found st)))%Z
        then inl (slice_to max_books (pg_found st))
        else take_items max_books rest st
  end.

(** [for fmt in patterns], for page [n]. *)
Fixpoint try_templates (E : PyEnv) (P : Pager) (cat_url base_root : str)
    (max_books : Z) (n : N) (ts : list (str * str)) (st : Paging)
  : result (list str * list str + Paging) :=
  match ts with
  | [] => Return (inr st)
  | t :: rest =>
      do url <- format_n P base_root t n;
      let i := length (pg_fetched st) in
      let st := MkPaging (pg_found st) (pg_seen st) (pg_hit st)
                  (pg_fetched st ++ [url]) in
      match page_fetch P i url with
      | Failed => try_templates E P cat_url base_root max_books n rest st
      | Body html =>
          do items <- list_books_in_category E html cat_url;
          match take_items max_books items st with
          | inl found => Return (inl (found, pg_fetched st))
          | inr st => try_templates E P cat_url base_root max_books n rest st
          end
      end
  end.

(** [while True], with [rounds] rounds to go; [None] is a loop that has not
    returned within them.  The value is the list returned, with the URLs
    fetched on the way. *)
Fixpoint paged_loop (E : PyEnv) (P : Pager) (cat_url base_root : str)
    (max_books : Z) (rounds : nat) (n : N) (found : list str)
    (seen : gset (list N)) (fetched : list str)
  : option (result (list str * list str)) :=
  match rounds with
  | O => None
  | S rounds' =>
      let n := n + 1 in
      match try_templates E P cat_url base_root max_books n page_templates
              (MkPaging found seen O fetched) with
      | Raise e => Some (Raise e)
      | Return (inl r) => Some (Return r)
      | Return (inr st) =>
          match pg_hit st with
          | O => Some (Return (pg_found st, pg_fetched st))
          | _ =>
              paged_loop E P cat_url base_root max_books rounds' n
                (pg_found st) (pg_seen st) (pg_fetched st)
          end
      end
  end.

Definition try_paged_category (E : PyEnv) (P : Pager) (rounds : nat)
    (cat_url : str) (max_books : Z) : option (result (list str * list str)) :=
  paged_loop E P cat_url (_category_root cat_url) max_books rounds 1 [] ∅ [].

(** Vocabulary of the statements about [try_paged_category]. *)

(** A book URL of the category's site. *)
Definition category_book (E : PyEnv) (cat_url u : str) : Prop :=
  exists p, urlparse E cat_url = Return p
            /\ _looks_like_book E u (url_netloc p) = true.

(** What the loops keep: [seen] is the set of [found]; [found] has no
    duplicates and holds book URLs only; it is shorter than a positive
    [max_books], and empty under a negative one. *)
Definition paging_inv (E : PyEnv) (cat_url : str) (max_books : Z) (st : Paging) : Prop :=
  (forall u, u ∈ pg_seen st <-> In u (pg_found st))
  /\ List.NoDup (pg_found st)
  /\ (forall u, In u (pg_found st) -> category_book E cat_url u)
  /\ ((0 < max_books)%Z -> (Z.of_nat (length (pg_found st)) < max_books)%Z)
  /\ ((max_books < 0)%Z -> pg_found st = []).

(** What a returned list is like. *)
Definition paged_result (E : PyEnv) (cat_url : str) (max_books : Z) (r : list str)
  : Prop :=
  List.NoDup r
  /\ (forall u, In u r -> category_book E cat_url u)
  /\ ((0 < max_books)%Z -> (Z.of_nat (length r) <= max_books)%Z)
  /\ ((max_books < 0)%Z -> r = []).

(** The URL of template [t] for page [n], for a root without braces, and the
    requests for the pages 2, 3, ..., [pages + 1], in order. *)
Definition page_url (root : str) (n : N) (t : str * str) : str :=
  root ++ fst t ++ str_of_N n ++ snd t.

Definition page_requests (root : str) (pages : nat) : list str :=
  flat_map (fun n => List.map (page_url root n) page_templates)
    (List.map (fun i => N.of_nat (2 + i)) (seq 0 pages)).

(** ** The books of a category ([main]) *)











(** ** Lists from a file or from the command line *)

(** The line boundaries of [str.splitlines]. *)
Definition is_line_end (c : N) : bool :=
  one_of [10; 11; 12; 13; 28; 29; 30; 133; 8232; 8233] c.

(** [s.splitlines()]: [cur] is the line being read; [after_cr] says that the
    last character was a carriage return, which takes a line feed with it. *)
Fixpoint splitlines_from (s cur : str) (after_cr : bool) : list str :=
  match s with
  | [] => match cur with [] => [] | _ => [cur] end
  | c :: t =>
      if after_cr && (c =? 10) then splitlines_from t cur false
      else if is_line_end c then cur :: splitlines_from t [] (c =? 13)
      else splitlines_from t (cur ++ [c]) false
  end.

Definition splitlines (s : str) : list str := splitlines_from s [] false.

(** [[x.strip() for x in xs if x.strip()]]. *)
Definition stripped_items (xs : list str) : list str :=
  List.map strip (List.filter (fun x => truthy (strip x)) xs).

(** The file system as [_load_lines_or_csv] meets it: [Path(val).exists()],
    which raises for some names (under CPython 3.11, one that is too long),
    and [Path(val).read_text(encoding="utf-8")]. *)
Record Files : Type := MkFiles {
  path_exists : str -> result bool;
  read_text : str -> result str
}.

Definition _load_lines_or_csv (F : Files) (val : str) : result (list str) :=
  do e <- path_exists F val;
  if e then do txt <- read_text F val; Return (stripped_items (splitlines txt))
  else Return (stripped_items (split_chr 44 val)).

End Crawl.

(** ** An instance of the libraries for the examples

    [urllib.parse] of CPython 3.11, transcribed for URLs whose authority is
    ASCII and holds no pair of brackets: outside that domain the interpreter
    consults the Unicode normaliser or the IP address parser, and this
    instance answers [OtherError].  An authority with an opening bracket and
    no closing one, or the reverse, raises [ValueError] as in the library. *)

Module Urllib.

Record SplitResult : Type := MkSplit {
  scheme : str;
  netloc : str;
  path : str;
  query : str;
  fragment : str
}.

Definition uses_relative : list str :=
  List.map lit [ ""; "ftp"; "http"; "gopher"; "nntp"; "imap"; "wais"; "file";
                 "https"; "shttp"; "mms"; "prospero"; "rtsp"; "rtspu"; "sftp";
                 "svn"; "svn+ssh"; "ws"; "wss" ]%string.

Definition uses_netloc : list str :=
  List.map lit [ ""; "ftp"; "http"; "gopher"; "nntp"; "telnet"; "imap"; "wais";
                 "file"; "mms"; "https"; "shttp"; "snews"; "prospero"; "rtsp";
                 "rtspu"; "rsync"; "svn"; "svn+ssh"; "sftp"; "nfs"; "git";
                 "git+ssh"; "ws"; "wss" ]%string.

Definition uses_params : list str :=
  List.map lit [ ""; "ftp"; "hdl"; "prospero"; "http"; "imap"; "https"; "shttp";
                 "rtsp"; "rtspu"; "sip"; "sips"; "mms"; "sftp"; "tel" ]%string.

Definition mem (x : str) (l : list str) : bool := existsb (str_eqb x) l.

Definition ascii_letter (c : N) : bool :=
  ((65 <=? c) && (c <=? 90)) || ((97 <=? c) && (c <=? 122)).

Definition scheme_char (c : N) : bool :=
  ascii_letter c || ((48 <=? c) && (c <=? 57)) || one_of (lit "+-.") c.

Definition ascii_lower (s : str) : str :=
  List.map (fun c => if (65 <=? c) && (c <=? 90) then c + 32 else c) s.

(** [s.find(c)] and [s.rfind(c)] of one character. *)
Fixpoint find_chr (c : N) (s : str) : option nat :=
  match s with
  | [] => None
  | x :: t => if x =? c then Some O else option_map S (find_chr c t)
  end.

Fixpoint rfind_chr (c : N) (s : str) : option nat :=
  match s with
  | [] => None
  | x :: t =>
      match rfind_chr c t with
      | Some i => Some (S i)
      | None => if x =? c then Some O else None
      end
  end.

(** [s.split(c, 1)] when [c] occurs at [i]. *)
Definition cut_at (i : nat) (s : str) : str * str := (firstn i s, skipn (S i) s).

Definition c0_or_space (c : N) : bool := c <=? 32.
Definition unsafe_byte (c : N) : bool := one_of [9; 13; 10] c.

Definition _splitnetloc (url : str) : str * str :=
  let rest := skipn 2 url in
  let delim :=
    fold_left (fun d c => match find_chr c rest with
                          | Some i => Nat.min d i
                          | None => d
                          end)
              (lit "/?#") (length rest) in
  (firstn delim rest, skipn delim rest).

Definition urlsplit (url scheme : str) : result SplitResult :=
  let url := lstrip_by c0_or_space url in
  let scheme := rstrip_by c0_or_space (lstrip_by c0_or_space scheme) in
  let url := List.filter (fun c => negb (unsafe_byte c)) url in
  let scheme := List.filter (fun c => negb (unsafe_byte c)) scheme in
  let su :=
    match find_chr 58 url with
    | Some (S i) =>
        if ascii_letter (List.hd 0 url) && forallb scheme_char (firstn (S i) url)
        then (ascii_lower (firstn (S i) url), skipn (S (S i)) url)
        else (scheme, url)
    | _ => (scheme, url)
    end in
  let scheme := fst su in
  let url := snd su in
  let nu := if startswith (lit "//") url then _splitnetloc url else ([], url) in
  let netloc := fst nu in
  let url := snd nu in
  let has_open := one_of netloc 91 in
  let has_close := one_of netloc 93 in
  if (has_open && negb has_close) || (has_close && negb has_open) then
    Raise ValueError
  else if has_open && has_close then Raise OtherError
  else
    let uf := match find_chr 35 url with
              | Some i => cut_at i url
              | None => (url, [])
              end in
    let uq := match find_chr 63 (fst uf) with
              | Some i => cut_at i (fst uf)
              | None => (fst uf, [])
              end in
    if forallb (fun c => c <? 128) netloc then
      Return (MkSplit scheme netloc (fst uq) (snd uq) (snd uf))
    else Raise OtherError.

Definition _splitparams (url : str) : str * str :=
  match rfind_chr 47 url with
  | Some j =>
      match find_chr 59 (skipn j url) with
      | Some i => cut_at (j + i) url
      | None => (url, [])
      end
  | None =>
      match find_chr 59 url with
      | Some i => cut_at i url
      | None => (firstn (length url - 1) url, url)   (* i = -1 *)
      end
  end.

Record Parsed : Type := MkParsed {
  p_scheme : str;
  p_netloc : str;
  p_path : str;
  p_params : str;
  p_query : str;
  p_fragment : str
}.

Definition urlparse (url scheme : str) : result Parsed :=
  do r <- urlsplit url scheme;
  let up := if mem (Urllib.scheme r) uses_params && one_of (path r) 59
            then _splitparams (path r) else (path r, []) in
  Return (MkParsed (Urllib.scheme r) (netloc r) (fst up) (snd up) (query r) (fragment r)).

Definition urlunsplit (scheme netloc url query fragment : str) : str :=
  let url :=
    if truthy netloc
       || (truthy scheme && mem scheme uses_netloc && negb (startswith (lit "//") url))
    then
      let url := if truthy url && negb (startswith (lit "/") url)
                 then lit "/" ++ url else url in
      lit "//" ++ netloc ++ url
    else url in
  let url := if truthy scheme then scheme ++ lit ":" ++ url else url in
  let url := if truthy query then url ++ lit "?" ++ query else url in
  if truthy fragment then url ++ lit "#" ++ fragment else url.

Definition urlunparse (p : Parsed) : str :=
  let url := if truthy (p_params p) then p_path p ++ lit ";" ++ p_params p
             else p_path p in
  urlunsplit (p_scheme p) (p_netloc p) url (p_query p) (p_fragment p).

(** [segments[1:-1] = filter(None, segments[1:-1])]. *)
Definition drop_inner_empty (segments : list str) : list str :=
  match segments with
  | [] => []
  | first :: rest =>
      match rev rest with
      | [] => [first]
      | last :: inner => first :: List.filter truthy (rev inner) ++ [last]
      end
  end.

Definition resolve_step (resolved : list str) (seg : str) : list str :=
  if str_eqb seg (lit "..") then removelast resolved
  else if str_eqb seg (lit ".") then resolved
  else resolved ++ [seg].

Definition urljoin (base url : str) : result str :=
  if negb (truthy base) then Return url
  else if negb (truthy url) then Return base
  else
    do b <- urlparse base [];
    do u <- urlparse url (p_scheme b);
    if negb (str_eqb (p_scheme u) (p_scheme b)) || negb (mem (p_scheme u) uses_relative)
    then Return url
    else if mem (p_scheme u) uses_netloc && truthy (p_netloc u)
    then Return (urlunparse u)
    else
      let netloc := if mem (p_scheme u) uses_netloc then p_netloc b else p_netloc u in
      if negb (truthy (p_path u)) && negb (truthy (p_params u)) then
        Return (urlunparse
                  (MkParsed (p_scheme u) netloc (p_path b) (p_params b)
                     (if truthy (p_query u) then p_query u else p_query b)
                     (p_fragment u)))
      else
        let base_parts := split_chr 47 (p_path b) in
        let base_parts := if truthy (List.last base_parts [])
                          then removelast base_parts else base_parts in
        let segments :=
          if startswith (lit "/") (p_path u) then split_chr 47 (p_path u)
          else drop_inner_empty (base_parts ++ split_chr 47 (p_path u)) in
        let resolved := fold_left resolve_step segments [] in
        let resolved :=
          if mem (List.last segments []) [lit "."; lit ".."]
          then resolved ++ [[]] else resolved in
        let joined := join (lit "/") resolved in
        Return (urlunparse
                  (MkParsed (p_scheme u) netloc
                     (if truthy joined then joined else lit "/")
                     (p_params u) (p_query u) (p_fragment u))).

End Urllib.

(** ** Concrete inputs of the examples *)

Module Examples.
Import Crawl.

(** *** Pages, with the selector parsel builds for each

    A page is given by its markup and by the answers of its selector to the
    queries the program makes; every other query selects nothing. *)

Definition table : Type := list (str * list Selector).

Fixpoint answers (t : table) (q : str) : list Selector :=
  match t with
  | [] => []
  | (q', r) :: rest => if str_eqb q q' then r else answers rest q
  end.

Fixpoint attribute (attrs : list (str * str)) (name : str) : option str :=
  match attrs with
  | [] => None
  | (k, v) :: rest => if str_eqb name k then Some v else attribute rest name
  end.

Definition node (markup : str) (attrs : list (str * str)) (css xpath : table)
  : Selector :=
  MkSelector (answers css) (answers xpath) markup (attribute attrs).

(** A text or attribute node. *)
Definition leaf (text : str) : Selector := node text [] [] [].

(** The document of the empty string. *)
Definition blank_doc : Selector := node (lit "<html></html>") [] [] [].

(** A chapter page: one container holding [text] as its only markup. *)
Definition chapter_doc (inner text : str) : Selector :=
  let markup := dq "<div id='content'>" ++ inner ++ lit "</div>" in
  let div := node markup [(lit "id", lit "content")] []
               [(lit "normalize-space(string())", [leaf text])] in
  node (lit "<html><body>" ++ markup ++ lit "</body></html>") []
       [ (lit "#content", [div]);
         (lit "body", [node (lit "<body>" ++ markup ++ lit "</body>") [] [] []]) ]
       [ (lit "normalize-space(string(//body))", [leaf text]) ].

(** A container whose two lines are [hello] and a bookmark notice. *)
Definition gate_inner : str := lit "hello<br>加入书签".
Definition gate_page : str := dq "<div id='content'>" ++ gate_inner ++ lit "</div>".
Definition gate_doc : Selector := chapter_doc gate_inner (lit "hello加入书签").

(** A chapter of two characters. *)
Definition tiny_page : str := dq "<div id='content'>ok</div>".
Definition tiny_doc : Selector := chapter_doc (lit "ok") (lit "ok").

(** A chapter of two lines, 134 characters. *)
Definition full_line1 : str :=
  lit "It was a bright cold day in April, and the clocks were striking thirteen.".
Definition full_line2 : str :=
  lit "Winston Smith slipped quickly through the glass doors of the mansion.".
Definition full_inner : str := full_line1 ++ lit "<br>" ++ full_line2.
Definition full_page : str := dq "<div id='content'>" ++ full_inner ++ lit "</div>".
Definition full_doc : Selector := chapter_doc full_inner (full_line1 ++ full_line2).

(** A detail page that names its book only through [og:novel:read_url]. *)
Definition read_url_page : str :=
  dq "<html><head><title>Title</title><meta property='og:novel:read_url' content='https://h.example/book/42/'></head><body></body></html>".
Definition read_url_doc : Selector :=
  node read_url_page []
    [ (lit "title::text", [leaf (lit "Title")]);
      (dq "meta[property='og:novel:read_url']::attr(content)",
       [leaf (lit "https://h.example/book/42/")]) ]
    [].

(** A detail page with a table of contents: two chapter links, one inert
    link, one link that is no chapter. *)
Definition toc_selector : str :=
  lit "#list a, #list-chapterAll a, .listmain a, .chapterlist a, .reader-list a, .dirlist a, .chapter a".

Definition anchor (href_attr : str) (text : str) : Selector :=
  node (dq "<a href='" ++ href_attr ++ dq "'>" ++ text ++ lit "</a>")
       [(lit "href", href_attr)]
       [(lit "::text", match text with [] => [] | _ => [leaf text] end)] [].

Definition toc_anchors_ex : list Selector :=
  [ anchor (lit "/book/7/1.html") (lit "第1章 开始");
    anchor (lit "javascript:void(0)") (lit "展开");
    anchor (lit "/book/7/2.html") [];
    anchor (lit "/about.html") (lit "关于我们的网站和更多信息的介绍文字说明") ].

Definition toc_page : str :=
  dq "<html><head><title>Book One</title></head><body><h1>Book One</h1><div id='list'>"
  ++ concat (List.map sel_get toc_anchors_ex) ++ lit "</div></body></html>".
Definition toc_doc : Selector :=
  node toc_page []
    [ (lit "h1::text", [leaf (lit "Book One")]);
      (lit "title::text", [leaf (lit "Book One")]);
      (toc_selector, toc_anchors_ex) ]
    [].

(** A table of contents whose only link has a malformed authority. *)
Definition bad_toc_page : str := dq "<div id='list'><a href='//['>1</a></div>".
Definition bad_toc_doc : Selector :=
  node bad_toc_page [] [(toc_selector, [anchor (lit "//[") (lit "1")])] [].

(** A detail page whose cover has a malformed authority. *)
Definition bad_cover_page : str :=
  dq "<html><head><meta property='og:image' content='x://['></head></html>".
Definition bad_cover_doc : Selector :=
  node bad_cover_page []
    [(dq "meta[property='og:image']::attr(content)", [leaf (lit "x://[")])] [].

(** A category page with a pager and a [rel=next] link that disagree. *)
Definition pager_page : str :=
  dq "<ul class='pagination' id='pagelink'><li class='active'><a href='/list/1/1.html'>1</a></li><li><a href='/list/1/2.html'>2</a></li><li><a class='next' href='/list/1/2.html'>&gt;</a></li></ul><a rel='next' href='/list/1/9.html'>more</a>".
Definition pager_doc : Selector :=
  node pager_page []
    [ (lit "ul.pagination#pagelink a.next::attr(href)", [leaf (lit "/list/1/2.html")]);
      (dq "a[rel='next']::attr(href)", [leaf (lit "/list/1/9.html")]);
      (lit "ul.pagination#pagelink li.active + li a::attr(href)",
       [leaf (lit "/list/1/2.html")]) ]
    [ (lit "//ul[contains(@class,'pagination')][@id='pagelink']//a[normalize-space(text())='>']/@href",
       [leaf (lit "/list/1/2.html")]);
      (lit "//ul[contains(@class,'pagination')]//a[normalize-space(text())='>']/@href",
       [leaf (lit "/list/1/2.html")]) ].

Definition pages : list (str * Selector) :=
  [ (gate_page, gate_doc); (tiny_page, tiny_doc); (full_page, full_doc);
    (read_url_page, read_url_doc); (toc_page, toc_doc);
    (bad_toc_page, bad_toc_doc); (bad_cover_page, bad_cover_doc);
    (pager_page, pager_doc) ].

Fixpoint page_selector (ps : list (str * Selector)) (html : str) : Selector :=
  match ps with
  | [] => blank_doc
  | (h, d) :: rest => if str_eqb html h then d else page_selector rest html
  end.

(** *** The libraries

    parsel on the pages above, [urllib.parse] as transcribed, ASCII
    lower-casing (the example URLs are ASCII), no category rules, no cover
    download.  The pages carry no word count and no date, so the number and
    date parsers are never consulted. *)
Definition env0 : PyEnv :=
  {| Selector_text := page_selector pages;
     urljoin := Urllib.urljoin;
     urlparse := fun u =>
       do p <- Urllib.urlparse u [];
       Return (MkParseResult (Urllib.p_netloc p) (Urllib.p_path p));
     str_lower := Urllib.ascii_lower;
     int_of_float := fun _ => None;
     int_max_str_digits := 4300;
     strptime_iso := fun _ => None;
     utcnow_iso := lit "2025-01-01T00:00:00";
     map_category_name := fun _ => lit "other";
     match_category_by_keywords := fun _ => [];
     get_default_category_id := lit "other";
     localize_cover := fun _ _ _ _ _ _ => Raise OtherError;
     generate_cover_image := fun slug _ _ _ => lit "/covers/" ++ slug ++ lit ".png" |}.

(** *** Networks and worlds *)

(** Every fetch raises; the jitter is 0.5. *)
Definition net_down : Net := MkNet (fun _ => Failed) (fun _ => 1 # 2) (fun _ => O).

(** A block page, then a raised fetch, then the page. *)
Definition net_flaky : Net :=
  MkNet (fun i => match i with
                  | O => Body (lit "Access Denied")
                  | S O => Failed
                  | _ => Body toc_page
                  end)
        (fun _ => 1 # 2) (fun _ => O).

(** The first fetch serves [page]. *)
Definition net_serving (page : str) : Net :=
  MkNet (fun _ => Body page) (fun _ => 1 # 2) (fun _ => O).

(** The detail page is [detail]; every chapter fetch of pass [p] goes through
    [chapter p]; futures complete in submission order. *)
Definition world_of (detail : str) (chapter : nat -> Net) : World :=
  MkWorld (net_serving detail) net_down (fun p _ => chapter p) (fun _ => 1 # 2)
          (fun _ _ l => l).

Definition args0 : Args :=
  {| category := lit "/xuanhuan/"; local_covers := 0; fetch_chapters := true;
     overwrite := 0; threads := 24; retry_rounds := 2; retry_sleep := 4 |}.

Definition book_url_7 : str := lit "http://h.example/book/7/".

(** The table of contents of [toc_page]. *)
Definition toc_7 : list Site.ChapterRef :=
  [ Site.MkChapterRef 1 (lit "第1章 开始") (lit "http://h.example/book/7/1.html") 1;
    Site.MkChapterRef 2 (lit "第2章") (lit "http://h.example/book/7/2.html") 2 ].

(** The chapters directory after both chapters of [toc_7] were saved from
    [full_page]. *)
Definition full_text : list N := full_line1 ++ [10] ++ full_line2.
Definition chap_full : gmap (list N) (list N) :=
  <[lit "0001-0001.txt" := full_text]> (<[lit "0002-0002.txt" := full_text]> ∅).


(** A book URL without a [/book/N] segment. *)
Definition plain_book_url : str := lit "https://h.example/novel/some-book.html".

(** A category page with three book links, two of them to the same book, and
    a pager that serves it to the first request and fails every other one. *)
Definition listing_page : str :=
  dq "<a href='/book/1/'>A</a> <a href='/book/2.html'>B</a> <a href='/book/1/'>A</a>".
Definition pager_once : Pager :=
  MkPager (fun i _ => match i with O => Body listing_page | _ => Failed end)
          (fun _ _ => Raise OtherError).
Definition category_url : str := lit "http://h.example/xuanhuan/".


End Examples.

(** * Properties *)

Import Crawl.

(** ** The fetch layer *)

Section FetchLayer.
Variables (w : Net) (url : str) (ua_pool : list str) (base_sleep : Q) (total : nat).

(** Every back-off of the first [total] attempts has a length [time.sleep]
    accepts. *)
Hypothesis sleeps_accepted :
  forall i, (i < total)%nat ->
    time_sleep (base_sleep * inject_Z (Z.of_nat i + 1) + uniform w i) = Return tt.

Lemma fetches_app (a b : list event) : fetches (a ++ b) = (fetches a + fetches b)%nat.
Proof. unfold fetches. now rewrite List.filter_app, List.length_app. Qed.

Lemma retry_loop_spec (n : nat) :
  forall (i : nat) (last : str) (tr : list event),
  (i + n <= total)%nat ->
  exists html tr',
    retry_loop w url ua_pool base_sleep n i last tr = Return (html, tr')
    /\ ((exists k, (k < n)%nat
                   /\ fetch_text w (i + k) = Body html
                   /\ accepted (Body html) = true
                   /\ (forall j, (j < k)%nat -> accepted (fetch_text w (i + j)) = false)
                   /\ fetches tr' = (fetches tr + k + 1)%nat)
        \/ ((forall j, (j < n)%nat -> accepted (fetch_text w (i + j)) = false)
            /\ html = last_from w i n last
            /\ fetches tr' = (fetches tr + n)%nat)).
Proof using sleeps_accepted.
  induction n as [|n IH]; intros i last tr Hbound.
  - exists last, tr. split; [reflexivity|]. right.
    split; [intros j Hj; lia|]. split; [reflexivity|lia].
  - cbn [retry_loop].
    destruct (truthy match fetch_text w i with Body h => h | Failed => [] end
              && negb (_looks_like_error_page
                         match fetch_text w i with Body h => h | Failed => [] end))
      eqn:Hacc.
    + destruct (fetch_text w i) as [h|] eqn:Hf; [|discriminate Hacc].
      exists h, (tr ++ [EvFetch url]). split; [reflexivity|]. left.
      exists O. rewrite Nat.add_0_r.
      repeat split; [lia|exact Hf|exact Hacc|intros j Hj; lia|].
      rewrite fetches_app. cbn. lia.
    + rewrite sleeps_accepted by lia. cbn [bind].
      match goal with
      | |- context [retry_loop w url ua_pool base_sleep n (S i) ?l ?t] =>
          destruct (IH (S i) l t) as (html & tr' & Hrun & Hcase); [lia|];
          assert (Hfet : fetches t = (fetches tr + 1)%nat)
      end.
      { destruct ua_pool; rewrite !fetches_app; cbn; lia. }
      exists html, tr'. split; [exact Hrun|].
      assert (Hi : accepted (fetch_text w i) = false).
      { destruct (fetch_text w i); [exact Hacc|reflexivity]. }
      destruct Hcase as [(k & Hk & Hbody & Hok & Hbefore & Hcount)|(Hnone & Hlast & Hcount)].
      * left. exists (S k).
        replace (i + S k)%nat with (S i + k)%nat by lia.
        repeat split; [lia|exact Hbody|exact Hok| |lia].
        intros [|j] Hj; [now rewrite Nat.add_0_r|].
        replace (i + S j)%nat with (S i + j)%nat by lia. apply Hbefore. lia.
      * right. repeat split; [|exact Hlast|lia].
        intros [|j] Hj; [now rewrite Nat.add_0_r|].
        replace (i + S j)%nat with (S i + j)%nat by lia. apply Hnone. lia.
Qed.

Lemma last_from_snoc (n : nat) :
  forall i last,
    last_from w i (S n) last
    = match fetch_text w (i + n) with
      | Body h => h
      | Failed => last_from w i n last
      end.
Proof.
  induction n as [|n IH]; intros i last.
  - cbn. now rewrite Nat.add_0_r.
  - change (last_from w i (S (S n)) last)
      with (last_from w (S i) (S n)
              match fetch_text w i with Body h => h | Failed => last end).
    rewrite IH. replace (S i + n)%nat with (i + S n)%nat by lia. reflexivity.
Qed.

Lemma last_from_last_body (n : nat) :
  last_from w 0 n [] = last_body (fetch_text w) n.
Proof.
  induction n as [|n IH]; [reflexivity|].
  rewrite last_from_snoc. cbn [last_body Nat.add]. now rewrite IH.
Qed.

(** Raised fetches and empty bodies drive the loop alike: same attempts,
    same sleeps, same rotation of the user agent. *)
Lemma retry_loop_raised_as_empty (n : nat) :
  forall i last last' tr html tr',
    retry_loop w url ua_pool base_sleep n i last tr = Return (html, tr') ->
    exists html',
      retry_loop (raised_as_empty w) url ua_pool base_sleep n i last' tr
      = Return (html', tr').
Proof.
  induction n as [|n IH]; intros i last last' tr html tr' Hrun.
  - cbn in *. injection Hrun as <- <-. now exists last'.
  - cbn [retry_loop raised_as_empty fetch_text uniform] in *.
    destruct (fetch_text w i) as [h|] eqn:Hf.
    + destruct (truthy h && negb (_looks_like_error_page h)).
      * injection Hrun as <- <-. now exists h.
      * destruct (time_sleep _); [|discriminate]. cbn [bind] in *.
        eapply IH. exact Hrun.
    + cbn [truthy andb] in *.
      destruct (time_sleep _); [|discriminate]. cbn [bind] in *.
      eapply IH. exact Hrun.
Qed.
End FetchLayer.

(** A back-off is accepted when the base sleep is not negative, the jitter
    is in its range and the longest back-off stays under the limit. *)
Lemma backoff_accepted (w : Net) (base_sleep : Q) (tries : Z) (i : nat) :
  (0 <= base_sleep)%Q ->
  (base_sleep * inject_Z tries + (9 # 10) <= sleep_limit)%Q ->
  (2 # 10 <= uniform w i)%Q /\ (uniform w i <= 9 # 10)%Q ->
  (Z.of_nat i + 1 <= tries)%Z ->
  time_sleep (base_sleep * inject_Z (Z.of_nat i + 1) + uniform w i) = Return tt.
Proof.
  intros Hbase Hlimit [Hlo Hhi] Hi.
  assert (Ha : (0 <= inject_Z (Z.of_nat i + 1))%Q).
  { change 0%Q with (inject_Z 0). rewrite <- Zle_Qle. lia. }
  assert (Hab : (inject_Z (Z.of_nat i + 1) <= inject_Z tries)%Q).
  { rewrite <- Zle_Qle. exact Hi. }
  revert Ha Hab Hlimit. generalize (inject_Z (Z.of_nat i + 1)), (inject_Z tries).
  intros a b Ha Hab Hlimit.
  assert (H0 : (0 <= base_sleep * a + uniform w i)%Q) by nra.
  assert (H1 : (base_sleep * a + uniform w i <= sleep_limit)%Q) by nra.
  unfold time_sleep. apply Qle_bool_iff in H0, H1. now rewrite H0, H1.
Qed.

(** C1, as the code has it: with at least one try, a base sleep that is not
    negative and keeps the longest back-off under the limit of [time.sleep],
    and the jitter [random.uniform(0.2, 0.9)] in its range,
    [_fetch_with_retry] returns.  Either some attempt [k] fetched a non-empty
    body that is not an error page, no earlier attempt did, that body is the
    value and exactly [k + 1] fetches were made; or no attempt within [tries]
    did, all [tries] fetches were made and the value is the body of the last
    attempt that returned one (empty when every attempt raised).  A raised
    fetch is handled like an empty body: replacing each by an empty body
    leaves the sequence of fetches, sleeps and user-agent changes the same. *)
Theorem fetch_with_retry_returns (w : Net) (url : str) (ua_pool : list str)
    (tries : Z) (base_sleep : Q) :
  (1 <= tries)%Z ->
  (0 <= base_sleep)%Q ->
  (base_sleep * inject_Z tries + (9 # 10) <= sleep_limit)%Q ->
  (forall i, (2 # 10 <= uniform w i)%Q /\ (uniform w i <= 9 # 10)%Q) ->
  exists html tr,
    _fetch_with_retry w url ua_pool tries base_sleep = Return (html, tr)
    /\ ((exists k, (Z.of_nat k < tries)%Z
                   /\ fetch_text w k = Body html
                   /\ accepted (Body html) = true
                   /\ (forall j, (j < k)%nat -> accepted (fetch_text w j) = false)
                   /\ fetches tr = (k + 1)%nat)
        \/ ((forall j, (Z.of_nat j < tries)%Z -> accepted (fetch_text w j) = false)
            /\ html = last_body (fetch_text w) (Z.to_nat tries)
            /\ fetches tr = Z.to_nat tries))
    /\ (exists html',
          _fetch_with_retry (raised_as_empty w) url ua_pool tries base_sleep
          = Return (html', tr)).
Proof.
  intros Htries Hbase Hlimit Hjit.
  assert (Hsleeps : forall i, (i < Z.to_nat tries)%nat ->
            time_sleep (base_sleep * inject_Z (Z.of_nat i + 1) + uniform w i)
            = Return tt).
  { intros i Hi. apply (backoff_accepted w base_sleep tries i); auto. lia. }
  unfold _fetch_with_retry.
  destruct (retry_loop_spec w url ua_pool base_sleep (Z.to_nat tries) Hsleeps
              (Z.to_nat tries) O [] []) as (html & tr & Hrun & Hcase); [lia|].
  exists html, tr. split; [exact Hrun|]. split.
  - destruct Hcase as [(k & Hk & Hbody & Hok & Hbefore & Hcount)|(Hnone & Hlast & Hcount)].
    + left. exists k. repeat split; [lia|exact Hbody|exact Hok|exact Hbefore|exact Hcount].
    + right. repeat split.
      * intros j Hj. apply (Hnone j). lia.
      * now rewrite Hlast, last_from_last_body.
      * exact Hcount.
  - eapply retry_loop_raised_as_empty. exact Hrun.
Qed.

Lemma fetch_with_retry_returns_witness :
  exists html tr,
    _fetch_with_retry Examples.net_flaky (lit "http://h.example/book/7/") [] 3 (12 # 10)
    = Return (html, tr)
    /\ ((exists k, (Z.of_nat k < 3)%Z
                   /\ fetch_text Examples.net_flaky k = Body html
                   /\ accepted (Body html) = true
                   /\ (forall j, (j < k)%nat
                                 -> accepted (fetch_text Examples.net_flaky j) = false)
                   /\ fetches tr = (k + 1)%nat)
        \/ ((forall j, (Z.of_nat j < 3)%Z
                       -> accepted (fetch_text Examples.net_flaky j) = false)
            /\ html = last_body (fetch_text Examples.net_flaky) (Z.to_nat 3)
            /\ fetches tr = Z.to_nat 3))
    /\ (exists html',
          _fetch_with_retry (raised_as_empty Examples.net_flaky)
            (lit "http://h.example/book/7/") [] 3 (12 # 10)
          = Return (html', tr)).
Proof.
  apply (fetch_with_retry_returns Examples.net_flaky (lit "http://h.example/book/7/")
           [] 3 (12 # 10)).
  - lia.
  - discriminate.
  - discriminate.
  - intros i. split; discriminate.
Defined.

(** The run of the example: a block page, a raised fetch, then the page. *)
Example fetch_with_retry_flaky :
  exists tr,
    _fetch_with_retry Examples.net_flaky Examples.book_url_7 [] 3 (12 # 10)
    = Return (Examples.toc_page, tr)
    /\ fetches tr = 3%nat.
Proof. eexists. split; vm_compute; reflexivity. Qed.

(** C1 as stated fails for a negative base sleep: one try on a network that
    is down sleeps for [-1 * 1 + 0.5] seconds, and [time.sleep] raises. *)
Lemma fetch_with_retry_raises_on_negative_sleep :
  (1 <= 1)%Z
  /\ _fetch_with_retry Examples.net_down (lit "http://h.example/book/7/") [] 1 (-1 # 1)
     = Raise ValueError.
Proof. split; [lia|reflexivity]. Qed.
(** ** The category root *)

(** C8 on the docstring's own URLs: the docstring of [_category_root] maps
    [/list/10/index_2.html] and [/list/10/2.html] to [/list/10]; the code
    takes two segments off the first, and applied to the root [/list/10] it
    takes another, so it is not idempotent on the second. *)
Theorem category_root_strips_the_root :
  _category_root (lit "/list/10/index_2.html") = lit "/list"
  /\ _category_root (lit "/list/10/2.html") = lit "/list/10"
  /\ _category_root (_category_root (lit "/list/10/2.html")) = lit "/list"
  /\ _category_root (lit "https://h.example/list/10/") = lit "https://h.example/list".
Proof. vm_compute. repeat split. Qed.

(** ** The next page *)

Import Site.


(** ** The table of contents *)

Lemma number_rows_length (prelim : list Row) :
  forall i, length (number_rows i prelim) = length prelim.
Proof. induction prelim as [|r t IH]; intros i; cbn; [reflexivity|now rewrite IH]. Qed.

Lemma number_rows_no (prelim : list Row) :
  forall i : nat,
    List.map no (number_rows (N.of_nat i) prelim)
    = List.map N.of_nat (seq i (length prelim)).
Proof.
  induction prelim as [|r t IH]; intros i; cbn [number_rows List.map length seq no];
    [reflexivity|].
  f_equal. replace (N.of_nat i + 1) with (N.of_nat (S i)) by lia. apply IH.
Qed.

Lemma number_rows_from_one (prelim : list Row) :
  List.map no (number_rows 1 prelim) = List.map N.of_nat (seq 1 (length prelim)).
Proof. exact (number_rows_no prelim 1). Qed.

Lemma number_rows_href (prelim : list Row) :
  forall i, List.map href (number_rows i prelim) = List.map row_href prelim.
Proof. induction prelim as [|r t IH]; intros i; cbn; [reflexivity|now rewrite IH]. Qed.

Lemma number_rows_site_id (prelim : list Row) :
  forall i, List.map site_id (number_rows i prelim) = List.map row_site_id prelim.
Proof. induction prelim as [|r t IH]; intros i; cbn; [reflexivity|now rewrite IH]. Qed.

(** The rows of the first loop are the surviving anchors, in order. *)
Lemma toc_prelim_survivors (E : PyEnv) (book_url : str) (anchors : list Selector) :
  forall rows,
    toc_prelim E book_url anchors = Return rows ->
    Forall2 (fun a row =>
               urljoin E book_url (anchor_href a) = Return (row_href row)
               /\ row_title row = anchor_text a
               /\ anchor_site_id E (row_href row) = Return (row_site_id row))
            (List.filter (anchor_survives E book_url) anchors) rows.
Proof.
  induction anchors as [|a rest IH]; intros rows Hrun; cbn [toc_prelim] in Hrun.
  - injection Hrun as <-. constructor.
  - cbn [List.filter]. unfold anchor_survives at 1.
    destruct (_is_bad_href E (anchor_href a)); cbn [negb andb]; [now apply IH|].
    destruct (urljoin E book_url (anchor_href a)) as [u|e] eqn:Hu; [|discriminate].
    cbn [bind] in Hrun.
    destruct (_looks_like_chapter E u (anchor_text a)) as [[|]|e] eqn:Hc;
      cbn [bind negb] in Hrun; [|now apply IH|discriminate].
    destruct (anchor_site_id E u) as [sid|e] eqn:Hs; [|discriminate].
    cbn [bind] in Hrun.
    destruct (toc_prelim E book_url rest) as [more|e]; [|discriminate].
    cbn [bind] in Hrun. injection Hrun as <-.
    constructor; [|now apply IH]. cbn. auto.
Qed.

Lemma py_int_unlimited (E : PyEnv) (ds : str) :
  int_max_str_digits E = O -> py_int E ds = Return (int_digits ds).
Proof. intros H. unfold py_int. now rewrite H. Qed.

Lemma toc_prelim_returns (E : PyEnv) (book_url : str) (anchors : list Selector) :
  (forall u, returns (urljoin E book_url u) = true) ->
  (forall u, returns (urlparse E u) = true) ->
  int_max_str_digits E = O ->
  returns (toc_prelim E book_url anchors) = true.
Proof.
  intros Hjoin Hparse Hint.
  induction anchors as [|a rest IH]; cbn [toc_prelim]; [reflexivity|].
  destruct (_is_bad_href E (anchor_href a)); [exact IH|].
  specialize (Hjoin (anchor_href a)).
  destruct (urljoin E book_url (anchor_href a)) as [u|e]; [|discriminate]. cbn [bind].
  unfold _looks_like_chapter. specialize (Hparse u).
  destruct (urlparse E u) as [p|e]; [|discriminate]. cbn [bind].
  assert (Hsid : exists sid, anchor_site_id E u = Return sid).
  { unfold anchor_site_id.
    destruct (re_search re_site_id_html u);
      [rewrite py_int_unlimited by exact Hint; eauto|].
    destruct (re_search re_site_id_dir u);
      [rewrite py_int_unlimited by exact Hint; eauto|eauto]. }
  destruct Hsid as (sid & Hsid).
  repeat match goal with
         | |- context [if ?b then _ else _] => destruct b; cbn [bind negb]
         end;
    try exact IH;
    (rewrite Hsid; cbn [bind];
     destruct (toc_prelim E book_url rest); [reflexivity|discriminate]).
Qed.

(** C2: the chapter records [parse_toc] returns carry the numbers 1, 2, ...,
    N; they are the anchors that survive the href and pattern filters, in
    document order (the k-th record holds the resolved href, the text and the
    site id of the k-th surviving anchor); the numbers depend on the position
    alone, so rows that differ in their site ids get the same numbers.
    [parse_toc] returns whenever urllib resolves every href and the
    interpreter sets no limit on integer digits. *)
Theorem parse_toc_numbering (E : PyEnv) (html book_url : str) :
  (forall items,
      parse_toc E html book_url = Return items ->
      List.map no items = List.map N.of_nat (seq 1 (length items))
      /\ Forall2 (fun a item =>
                    urljoin E book_url (anchor_href a) = Return (href item)
                    /\ anchor_site_id E (href item) = Return (site_id item))
                 (List.filter (anchor_survives E book_url) (toc_anchors E html)) items)
  /\ (forall rows rows' : list Row,
        length rows = length rows' ->
        List.map no (number_rows 1 rows) = List.map no (number_rows 1 rows'))
  /\ ((forall u, returns (urljoin E book_url u) = true) ->
      (forall u, returns (urlparse E u) = true) ->
      int_max_str_digits E = O ->
      returns (parse_toc E html book_url) = true).
Proof.
  split; [|split].
  - intros items Hrun. unfold parse_toc in Hrun.
    destruct (toc_prelim E book_url (toc_anchors E html)) as [prelim|e] eqn:Hp;
      [|discriminate].
    cbn [bind] in Hrun. injection Hrun as <-. split.
    + rewrite number_rows_length. apply number_rows_from_one.
    + apply toc_prelim_survivors in Hp.
      revert Hp. generalize (List.filter (anchor_survives E book_url) (toc_anchors E html)).
      generalize 1. induction prelim as [|r t IH]; intros i kept Hp.
      * inversion Hp. constructor.
      * inversion Hp as [|a r' kept' t' (Hu & _ & Hs) Hrest]; subst.
        cbn [number_rows]. constructor; [cbn; auto|]. now apply IH.
  - intros rows rows' Hlen.
    rewrite !number_rows_from_one. now rewrite Hlen.
  - intros Hjoin Hparse Hint. unfold parse_toc.
    pose proof (toc_prelim_returns E book_url (toc_anchors E html) Hjoin Hparse Hint) as H.
    destruct (toc_prelim E book_url (toc_anchors E html)); [reflexivity|discriminate].
Qed.

(** ** The slug *)

Lemma slug_chars_length (n : nat) : forall num, length (slug_chars n num) = n.
Proof.
  induction n as [|n IH]; intros num; cbn [slug_chars length]; [reflexivity|].
  now rewrite IH.
Qed.

Lemma alphabet_length : length alphabet = 36%nat.
Proof. vm_compute. reflexivity. Qed.

Lemma slug_chars_alphabet (n : nat) :
  forall num, Forall (fun c => In c alphabet) (slug_chars n num).
Proof.
  induction n as [|n IH]; intros num; cbn [slug_chars]; constructor; [|apply IH].
  apply nth_In. rewrite alphabet_length.
  assert (H : num mod N.of_nat 36 < N.of_nat 36) by (apply N.mod_lt; discriminate).
  lia.
Qed.

(** The alphabet is a-z then 0-9. *)
Lemma alphabet_chars (c : N) :
  In c alphabet -> (97 <= c <= 122) \/ (48 <= c <= 57).
Proof.
  intros H.
  assert (Hall : forallb (fun c => ((97 <=? c) && (c <=? 122))
                                   || ((48 <=? c) && (c <=? 57))) alphabet = true)
    by (vm_compute; reflexivity).
  apply (proj1 (List.forallb_forall _ _) Hall) in H.
  apply orb_prop in H as [H|H]; apply andb_prop in H as [H1 H2];
    apply N.leb_le in H1, H2; [left|right]; split; assumption.
Qed.

Lemma encode_utf8_text (s : str) :
  Hash.is_text s = true -> exists bs, Hash.encode_utf8 s = Return bs.
Proof.
  induction s as [|c t IH]; cbn [Hash.is_text forallb Hash.encode_utf8]; [eauto|].
  intros H. apply andb_prop in H as [Hc Ht]. destruct (IH Ht) as (bs & Hbs).
  rewrite Hbs.
  assert (Hs : c < 55296 \/ (57343 < c /\ c < 1114112)).
  { unfold Hash.scalar in Hc. apply orb_prop in Hc as [Hc|Hc].
    - left. now apply N.ltb_lt.
    - right. apply andb_prop in Hc as [H1 H2]. split; now apply N.ltb_lt. }
  unfold Hash.utf8_char.
  destruct (N.ltb_spec c 128); [cbn [bind]; eauto|].
  destruct (N.ltb_spec c 2048); [cbn [bind]; eauto|].
  destruct (N.ltb_spec c 65536).
  - destruct (N.leb_spec 55296 c); destruct (N.leb_spec c 57343); cbn [andb bind];
      eauto.
    exfalso. lia.
  - destruct (N.ltb_spec c 1114112); [cbn [bind]; eauto|exfalso; lia].
Qed.

Lemma le_bytes_bound (n : nat) : forall x, Forall (fun b => b < 256) (Hash.le_bytes n x).
Proof.
  induction n as [|n IH]; intros x; cbn [Hash.le_bytes]; constructor; [|apply IH].
  apply N.mod_lt. discriminate.
Qed.

Lemma le_bytes_length (n : nat) : forall x, length (Hash.le_bytes n x) = n.
Proof.
  induction n as [|n IH]; intros x; cbn [Hash.le_bytes length]; [reflexivity|].
  now rewrite IH.
Qed.

Lemma md5_digest_shape (msg : list N) :
  length (Hash.md5 msg) = 16%nat /\ Forall (fun b => b < 256) (Hash.md5 msg).
Proof.
  unfold Hash.md5.
  destruct (Hash.md5_blocks _ _ _) as [[[A B] C] D].
  split.
  - rewrite !List.length_app, !le_bytes_length. reflexivity.
  - repeat (apply List.Forall_app; split); apply le_bytes_bound.
Qed.

Lemma hex_digit_value (x : N) : x < 16 -> Hash.hex_value (Hash.hex_digit x) <> None.
Proof.
  intros Hx. unfold Hash.hex_digit, Hash.hex_value.
  destruct (x <? 10) eqn:H10.
  - apply N.ltb_lt in H10.
    replace (48 <=? 48 + x) with true by (symmetry; apply N.leb_le; lia).
    replace (48 + x <=? 57) with true by (symmetry; apply N.leb_le; lia).
    discriminate.
  - apply N.ltb_ge in H10.
    replace (48 <=? 87 + x) with true by (symmetry; apply N.leb_le; lia).
    replace (87 + x <=? 57) with false by (symmetry; apply N.leb_gt; lia).
    replace (97 <=? 87 + x) with true by (symmetry; apply N.leb_le; lia).
    replace (87 + x <=? 102) with true by (symmetry; apply N.leb_le; lia).
    discriminate.
Qed.

Lemma hexdigest_shape (digest : list N) :
  Forall (fun b => b < 256) digest ->
  length (Hash.hexdigest digest) = (2 * length digest)%nat
  /\ Forall (fun c => Hash.hex_value c <> None) (Hash.hexdigest digest).
Proof.
  induction 1 as [|b t Hb Ht [IHlen IHhex]]; cbn [Hash.hexdigest flat_map];
    [split; [reflexivity|constructor]|].
  fold (Hash.hexdigest t). split.
  - cbn [List.app length]. rewrite IHlen. lia.
  - cbn [List.app]. constructor; [|constructor; [|exact IHhex]].
    + apply hex_digit_value. apply N.Div0.div_lt_upper_bound. lia.
    + apply hex_digit_value. apply N.mod_lt. discriminate.
Qed.

Lemma int16_from_returns (h : str) :
  Forall (fun c => Hash.hex_value c <> None) h ->
  forall acc, exists n, Hash.int16_from acc h = Return n.
Proof.
  induction 1 as [|c t Hc Ht IH]; intros acc; cbn [Hash.int16_from]; [eauto|].
  destruct (Hash.hex_value c); [apply IH|contradiction].
Qed.

Lemma md5_prefix_parses (msg : list N) :
  exists num, Hash.int16 (firstn 10 (Hash.hexdigest (Hash.md5 msg))) = Return num.
Proof.
  destruct (md5_digest_shape msg) as [Hlen Hbytes].
  destruct (hexdigest_shape _ Hbytes) as [Hhlen Hhex].
  rewrite Hlen in Hhlen.
  assert (Hpre : Forall (fun c => Hash.hex_value c <> None)
                        (firstn 10 (Hash.hexdigest (Hash.md5 msg)))).
  { rewrite <- (List.firstn_skipn 10 (Hash.hexdigest (Hash.md5 msg))) in Hhex.
    now apply List.Forall_app in Hhex as [Hpre _]. }
  unfold Hash.int16.
  destruct (firstn 10 (Hash.hexdigest (Hash.md5 msg))) eqn:Hf.
  - apply (f_equal (@length N)) in Hf. rewrite List.length_firstn, Hhlen in Hf.
    discriminate.
  - apply int16_from_returns. exact Hpre.
Qed.

Lemma stable_slug_shape (seed : str) (n : nat) (s : str) :
  _stable_slug seed n = Return s ->
  length s = n /\ Forall (fun c => (97 <= c <= 122) \/ (48 <= c <= 57)) s.
Proof.
  unfold _stable_slug. destruct (Hash.encode_utf8 seed) as [bs|e]; [|discriminate].
  cbn [bind]. destruct (Hash.int16 _) as [num|e]; [|discriminate].
  cbn [bind]. intros H. injection H as <-. split; [apply slug_chars_length|].
  eapply List.Forall_impl; [|apply slug_chars_alphabet]. exact alphabet_chars.
Qed.

Lemma stable_slug_returns (seed : str) (n : nat) :
  Hash.is_text seed = true -> exists s, _stable_slug seed n = Return s.
Proof.
  intros Ht. destruct (encode_utf8_text seed Ht) as (bs & Hbs).
  destruct (md5_prefix_parses bs) as (num & Hnum).
  unfold _stable_slug. rewrite Hbs. cbn [bind]. rewrite Hnum. cbn [bind]. eauto.
Qed.


Lemma truthy_nonempty (s : str) : truthy s = true -> s <> [].
Proof. destruct s; [discriminate|discriminate]. Qed.



(** The record of the empty page (a failed detail fetch). *)
Example parse_book_meta_empty_page :
  exists m,
    parse_book_meta Examples.env0 [] Examples.book_url_7 [] = Return m
    /\ slug m = lit "cts2h" /\ title m = lit "cts2h" /\ id m = lit "7".
Proof. eexists. split; [vm_compute; reflexivity|]. vm_compute. repeat split. Qed.

(** C6, as the code has it.  [_stable_slug] is a function of the seed alone
    (no state, no clock, no random source enters it), so equal seeds give
    equal slugs; every slug it returns has exactly five characters, each a
    lowercase letter a-z or a digit 0-9, and it returns on every seed that is
    encodable text.  In [parse_book_meta] the seed is the site-native book id
    taken from the book URL when there is one; else the id taken from the
    page's [og:novel:read_url] when that yields one; else host + "/" + title. *)
Theorem stable_slug_shape_and_seed :
  (forall seed seed', seed = seed' -> _stable_slug seed 5 = _stable_slug seed' 5)
  /\ (forall seed s,
        _stable_slug seed 5 = Return s ->
        length s = 5%nat /\ Forall (fun c => (97 <= c <= 122) \/ (48 <= c <= 57)) s)
  /\ (forall seed, Hash.is_text seed = true -> exists s, _stable_slug seed 5 = Return s)
  /\ (forall (E : PyEnv) (html book_url hint : str) (m : BookMeta),
        parse_book_meta E html book_url hint = Return m ->
        exists seed,
          _stable_slug seed 5 = Return (slug m)
          /\ ((truthy (_extract_site_book_id book_url) = true
               /\ seed = _extract_site_book_id book_url)
              \/ (truthy (_extract_site_book_id book_url) = false
                  /\ truthy (_extract_site_book_id
                               (_first_txt (Selector_text E html)
                                  (dq "meta[property='og:novel:read_url']::attr(content)")))
                     = true
                  /\ seed = _extract_site_book_id
                              (_first_txt (Selector_text E html)
                                 (dq "meta[property='og:novel:read_url']::attr(content)")))
              \/ (truthy (_extract_site_book_id book_url) = false
                  /\ truthy (_extract_site_book_id
                               (_first_txt (Selector_text E html)
                                  (dq "meta[property='og:novel:read_url']::attr(content)")))
                     = false
                  /\ exists p, urlparse E book_url = Return p
                               /\ seed = url_netloc p ++ lit "/"
                                         ++ meta_title (Selector_text E html)))).
Proof.
  split; [|split; [|split]].
  - intros seed seed' ->. reflexivity.
  - intros seed s. apply stable_slug_shape.
  - intros seed. apply stable_slug_returns.
  - intros E html book_url hint m Hrun. unfold parse_book_meta in Hrun.
    destruct (meta_cover E (Selector_text E html) book_url) as [cover|e]; [|discriminate].
    cbn [bind] in Hrun.
    destruct (slug_seed E _ book_url _) as [seed|e] eqn:Hseed; [|discriminate].
    cbn [bind] in Hrun.
    destruct (_stable_slug seed 5) as [sl|e] eqn:Hslug; [|discriminate].
    cbn [bind] in Hrun. injection Hrun as <-. cbn [slug].
    exists seed. split; [exact Hslug|].
    unfold slug_seed, meta_site_book_id in Hseed.
    destruct (truthy (_extract_site_book_id book_url)) eqn:Hurl; cbn [negb] in Hseed.
    + rewrite Hurl in Hseed. injection Hseed as <-. left. auto.
    + set (og := _first_txt (Selector_text E html)
                   (dq "meta[property='og:novel:read_url']::attr(content)")) in *.
      destruct (truthy og) eqn:Hog.
      * destruct (truthy (_extract_site_book_id og)) eqn:Hid.
        -- injection Hseed as <-. right. left. auto.
        -- destruct (urlparse E book_url) as [p|e]; [|discriminate].
           cbn [bind] in Hseed. injection Hseed as <-. right. right. eauto.
      * rewrite Hurl in Hseed.
        destruct (urlparse E book_url) as [p|e]; [|discriminate].
        cbn [bind] in Hseed. injection Hseed as <-. right. right.
        repeat split; [|eauto].
        destruct og; [reflexivity|discriminate].
Qed.

(** C6 as stated fails on a book URL without an id whose page names the book
    through [og:novel:read_url]: the seed is the id found there, ["42"], and
    not host + "/" + title, and the two seeds give different slugs. *)
Lemma slug_seed_from_read_url :
  _extract_site_book_id Examples.plain_book_url = []
  /\ slug_seed Examples.env0
       (meta_site_book_id (Selector_text Examples.env0 Examples.read_url_page)
          Examples.plain_book_url)
       Examples.plain_book_url
       (meta_title (Selector_text Examples.env0 Examples.read_url_page))
     = Return (lit "42")
  /\ (exists p,
        urlparse Examples.env0 Examples.plain_book_url = Return p
        /\ url_netloc p ++ lit "/"
             ++ meta_title (Selector_text Examples.env0 Examples.read_url_page)
           = lit "h.example/Title")
  /\ (exists m,
        parse_book_meta Examples.env0 Examples.read_url_page Examples.plain_book_url []
        = Return m
        /\ slug m = lit "h81t6")
  /\ _stable_slug (lit "42") 5 = Return (lit "h81t6")
  /\ _stable_slug (lit "h.example/Title") 5 = Return (lit "r2ksf").
Proof.
  split; [vm_compute; reflexivity|].
  split; [vm_compute; reflexivity|].
  split; [eexists; split; vm_compute; reflexivity|].
  split; [eexists; split; vm_compute; reflexivity|].
  split; vm_compute; reflexivity.
Qed.

(** ** The content-quality gate *)

Lemma append_nonblank (ls : list str) :
  Forall (fun l => is_blank l = false) ls ->
  forall acc, fold_left append_para ls acc = acc ++ ls.
Proof.
  induction 1 as [|l t Hl Ht IH]; intros acc; cbn [fold_left].
  - now rewrite List.app_nil_r.
  - rewrite IH. unfold append_para. rewrite Hl. cbn [andb].
    now rewrite <- List.app_assoc.
Qed.

Lemma drop_blank_nonblank (ls : list str) :
  Forall (fun l => is_blank l = false) ls -> drop_blank ls = ls.
Proof. destruct 1 as [|l t Hl Ht]; cbn [drop_blank]; [reflexivity|now rewrite Hl]. Qed.

Lemma collapse_nonblank (ls : list str) :
  Forall (fun l => is_blank l = false) ls -> collapse ls = ls.
Proof.
  intros H. unfold collapse. rewrite (append_nonblank ls H []). cbn [List.app].
  rewrite (drop_blank_nonblank ls H).
  rewrite drop_blank_nonblank by (apply List.Forall_rev; exact H).
  apply List.rev_involutive.
Qed.

Lemma keep_nonblank (ls : list str) :
  Forall (fun l => is_blank l = false) (List.filter keep ls).
Proof.
  apply List.Forall_forall. intros l Hin. apply List.filter_In in Hin as [_ Hk].
  unfold keep in Hk. apply andb_prop in Hk as [Ht _]. unfold is_blank. now rewrite Ht.
Qed.

Lemma fallback_paras_filter (txt : str) :
  fallback_paras txt
  = List.filter keep (List.map strip (re_split re_sentence_break txt)).
Proof. unfold fallback_paras. apply collapse_nonblank, keep_nonblank. Qed.

Lemma longest_text_fold (sel : Selector) (cs : list str) :
  forall txt,
    (length txt <= length (fold_left (longest_step sel) cs txt))%nat
    /\ (forall v, In v (container_texts sel cs) ->
                  (length v <= length (fold_left (longest_step sel) cs txt))%nat)
    /\ (fold_left (longest_step sel) cs txt = txt
        \/ In (fold_left (longest_step sel) cs txt) (container_texts sel cs)).
Proof.
  induction cs as [|css rest IH]; intros txt.
  - cbn [fold_left container_texts flat_map]. split; [apply Nat.le_refl|].
    split; [intros v []|now left].
  - cbn [fold_left container_texts flat_map].
    destruct (IH (longest_step sel txt css)) as (Hge & Hall & Hin).
    revert Hge Hall Hin. generalize (fold_left (longest_step sel) rest (longest_step sel txt css)).
    intros r Hge Hall Hin. unfold longest_step in *.
    destruct (sel_css sel css) as [|x n] eqn:Hcss.
    + cbn [List.app]. auto.
    + remember (default [] (list_get (list_xpath (x :: n) (lit "normalize-space(string())")))) as v.
      cbn zeta in *.
      destruct (truthy v && Nat.ltb (length txt) (length v)) eqn:Hlonger.
      * apply andb_prop in Hlonger as [_ Hlt]. apply Nat.ltb_lt in Hlt.
        split; [lia|]. split.
        -- intros u [<-|Hu]; [exact Hge|now apply Hall].
        -- right. destruct Hin as [->|Hin]; [now left|now right].
      * split; [exact Hge|]. split.
        -- intros u [<-|Hu]; [|now apply Hall].
           apply andb_false_iff in Hlonger as [Hempty|Hnot].
           ++ destruct v; [cbn [length]; lia|discriminate].
           ++ apply Nat.ltb_ge in Hnot. lia.
        -- destruct Hin as [->|Hin]; [now left|right; now right].
Qed.

(** C7, as the code has it: when the paragraphs of the structured extraction
    add up to fewer than 80 characters they are discarded and the result is
    the fallback's: the whitespace-normalised text of the matching container
    with the most text (the first on a tie; the whole body when no container
    has text), split at newlines and at sentence-ending punctuation followed
    by whitespace, each chunk stripped and passed through the filter [keep]
    that the structured path applies to its lines.  The code does not compare
    the two results: nothing relates their lengths. *)
Theorem chapter_content_gate (E : PyEnv) (html : str) :
  (length (concat (structured_paras
                     (strip_markup (node_html_of (Selector_text E html) html))))
   < MIN_LEN)%nat ->
  parse_chapter_content E html
  = List.filter keep
      (List.map strip
         (re_split re_sentence_break (fallback_text (Selector_text E html))))
  /\ Forall (fun p => p <> [] /\ _noise_line p = false) (parse_chapter_content E html)
  /\ fallback_text (Selector_text E html)
     = (if truthy (longest_text (Selector_text E html) containers)
        then longest_text (Selector_text E html) containers
        else body_text (Selector_text E html))
  /\ (forall v, In v (container_texts (Selector_text E html) containers) ->
                (length v <= length (longest_text (Selector_text E html) containers))%nat)
  /\ (longest_text (Selector_text E html) containers = []
      \/ In (longest_text (Selector_text E html) containers)
            (container_texts (Selector_text E html) containers)).
Proof.
  intros Hshort.
  assert (Hres : parse_chapter_content E html
                 = List.filter keep
                     (List.map strip
                        (re_split re_sentence_break
                           (fallback_text (Selector_text E html))))).
  { unfold parse_chapter_content. apply Nat.ltb_lt in Hshort. rewrite Hshort.
    apply fallback_paras_filter. }
  split; [exact Hres|]. split; [|split; [|split]].
  - rewrite Hres. apply List.Forall_forall. intros p Hin.
    apply List.filter_In in Hin as [_ Hk]. unfold keep in Hk.
    apply andb_prop in Hk as [Ht Hn]. split.
    + destruct p; [discriminate|discriminate].
    + now apply negb_true_iff in Hn.
  - unfold fallback_text. now destruct (truthy _).
  - intros v Hv.
    destruct (longest_text_fold (Selector_text E html) containers []) as (_ & Hall & _).
    now apply Hall.
  - destruct (longest_text_fold (Selector_text E html) containers []) as (_ & _ & Hin).
    exact Hin.
Qed.

Lemma chapter_content_gate_witness :
  parse_chapter_content Examples.env0 Examples.tiny_page
  = List.filter keep
      (List.map strip
         (re_split re_sentence_break
            (fallback_text (Selector_text Examples.env0 Examples.tiny_page))))
  /\ parse_chapter_content Examples.env0 Examples.tiny_page = [lit "ok"].
Proof.
  split; [|vm_compute; reflexivity].
  apply (chapter_content_gate Examples.env0 Examples.tiny_page).
  vm_compute. lia.
Defined.

(** C7 as stated fails on a container whose lines are [hello] and a bookmark
    notice: the structured result is the one paragraph [hello] (5 characters,
    under the threshold), the fallback's text joins the two lines into one
    chunk, the filter drops it as boilerplate, and the result is empty. *)
Lemma gate_fallback_shorter :
  structured_paras
    (strip_markup
       (node_html_of (Selector_text Examples.env0 Examples.gate_page) Examples.gate_page))
  = [lit "hello"]
  /\ fallback_text (Selector_text Examples.env0 Examples.gate_page) = lit "hello加入书签"
  /\ parse_chapter_content Examples.env0 Examples.gate_page = []
  /\ (length (concat (parse_chapter_content Examples.env0 Examples.gate_page))
      < length (concat
                  (structured_paras
                     (strip_markup
                        (node_html_of (Selector_text Examples.env0 Examples.gate_page)
                           Examples.gate_page)))))%nat.
Proof.
  split; [vm_compute; reflexivity|].
  split; [vm_compute; reflexivity|].
  split; [vm_compute; reflexivity|].
  vm_compute. lia.
Qed.

(** ** Totality of the extractors *)

(** [parse_toc] passes on what [urljoin] raises for the first anchor it
    does not discard, and [parse_book_meta] what it raises for a relative
    cover: neither call is guarded. *)
Lemma extractors_propagate_urljoin (E : PyEnv) (html book_url hint : str) (e : exn) :
  (forall a rest,
      toc_anchors E html = a :: rest ->
      _is_bad_href E (anchor_href a) = false ->
      urljoin E book_url (anchor_href a) = Raise e ->
      parse_toc E html book_url = Raise e)
  /\ (cover_is_relative (meta_cover_raw (Selector_text E html)) = true ->
      urljoin E book_url (meta_cover_raw (Selector_text E html)) = Raise e ->
      parse_book_meta E html book_url hint = Raise e).
Proof.
  split.
  - intros a rest Ha Hbad Hjoin. unfold parse_toc. rewrite Ha.
    cbn [toc_prelim]. rewrite Hbad, Hjoin. reflexivity.
  - intros Hrel Hjoin. unfold parse_book_meta, meta_cover. rewrite Hrel, Hjoin.
    reflexivity.
Qed.

(** C9 at the failing inputs: a table of contents whose link is [//[], and a
    detail page whose [og:image] is [x://[].  [urljoin] raises [ValueError]
    (Invalid IPv6 URL) on both, and so do [parse_toc] and
    [parse_book_meta]. *)
Theorem extractors_raise_on_malformed_authority :
  urljoin Examples.env0 Examples.book_url_7 (lit "//[") = Raise ValueError
  /\ parse_toc Examples.env0 Examples.bad_toc_page Examples.book_url_7
     = Raise ValueError
  /\ urljoin Examples.env0 Examples.book_url_7 (lit "x://[") = Raise ValueError
  /\ parse_book_meta Examples.env0 Examples.bad_cover_page Examples.book_url_7 []
     = Raise ValueError.
Proof. repeat split; vm_compute; reflexivity. Qed.

(** ** The book pipeline *)

Lemma bind_Return {A B : Type} (m : result A) (k : A -> result B) (b : B) :
  bind m k = Return b -> exists a, m = Return a /\ k a = Return b.
Proof. destruct m as [a|e]; cbn [bind]; [eauto|discriminate]. Qed.

Lemma run_pass_length (E : PyEnv) (w : World) (p : nat) (book_url : str)
    (ua_pool : list str) (tasks : list (N * str)) :
  fair w -> length (run_pass E w p book_url ua_pool tasks) = length tasks.
Proof.
  intros Hfair. unfold run_pass. rewrite (Permutation_length (Hfair p _ _)).
  apply length_imap.
Qed.

Lemma run_pass_In (E : PyEnv) (w : World) (p : nat) (book_url : str)
    (ua_pool : list str) (tasks : list (N * str)) (r : N * option (list str) * str) :
  fair w ->
  In r (run_pass E w p book_url ua_pool tasks) ->
  exists i ch, tasks !! i = Some ch
               /\ r = fetch_one E (chapter_net w p i) book_url ua_pool ch.
Proof.
  intros Hfair Hin. unfold run_pass in Hin.
  apply (Permutation_in _ (Hfair p _ _)) in Hin.
  apply list_elem_of_In, elem_of_lookup_imap_1 in Hin as (i & ch & -> & Hi). eauto.
Qed.

Lemma fetch_one_no (E : PyEnv) (n : Net) (book_url : str) (ua_pool : list str)
    (ch : N * str) :
  fst (fst (fetch_one E n book_url ua_pool ch)) = fst ch.
Proof.
  unfold fetch_one. destruct (inert_href _); [reflexivity|].
  now destruct (bind _ _).
Qed.











(** ** Resuming a book *)

Lemma digits_of_digits (fuel : nat) :
  forall n acc,
    Forall (fun c => 48 <= c <= 57) acc ->
    Forall (fun c => 48 <= c <= 57) (digits_of fuel n acc).
Proof.
  induction fuel as [|fuel IH]; intros n acc Hacc; cbn [digits_of]; [exact Hacc|].
  assert (Hd : Forall (fun c => 48 <= c <= 57) (48 + n mod 10 :: acc)).
  { constructor; [|exact Hacc].
    assert (H : n mod 10 < 10) by (apply N.mod_lt; discriminate).
    revert H. generalize (n mod 10). intros d Hd. lia. }
  destruct (n <? 10); [exact Hd|now apply IH].
Qed.

Lemma pad4_digits (n : N) : Forall (fun c => 48 <= c <= 57) (pad4 n).
Proof.
  unfold pad4. apply List.Forall_app. split.
  - apply List.Forall_forall. intros c Hc. apply List.repeat_spec in Hc. lia.
  - apply digits_of_digits. constructor.
Qed.

Lemma before_chr_app (sep : N) (a b : str) :
  Forall (fun c => c <> sep) a -> before_chr sep (a ++ sep :: b) = a.
Proof.
  induction 1 as [|c t Hc Ht IH]; cbn [List.app before_chr].
  - now rewrite N.eqb_refl.
  - apply N.eqb_neq in Hc. rewrite Hc. now rewrite IH.
Qed.

(** The file [save_chapter_text] writes for chapter [no] carries the padded
    number as its prefix. *)
Lemma save_chapter_text_spec (chap : dir) (no : N) (paras : list str)
    (out : str) (chap' : dir) :
  save_chapter_text chap no (pad4 no) paras = Return (out, chap') ->
  before_chr 45 out = pad4 no
  /\ exists bytes, chap' = <[out := bytes]> chap.
Proof.
  unfold save_chapter_text. intros Hrun.
  apply bind_Return in Hrun as (bytes & _ & Hrun). injection Hrun as <- <-.
  split; [|eauto].
  change (lit "-") with [45]. cbn [List.app]. apply before_chr_app.
  eapply List.Forall_impl; [|apply pad4_digits]. cbn beta. intros c Hc. lia.
Qed.

Lemma existing_prefixes_spec (chap : dir) (prefix : str) :
  prefix ∈ existing_prefixes chap
  <-> exists name content,
        chap !! name = Some content
        /\ endswith (lit ".txt") name = true
        /\ (10 < length content)%nat
        /\ before_chr 45 name = prefix.
Proof.
  unfold existing_prefixes. rewrite elem_of_list_to_set, list_elem_of_In, List.in_map_iff.
  split.
  - intros ([name content] & Hpre & Hin). apply List.filter_In in Hin as [Hin Hok].
    apply andb_prop in Hok as [Htxt Hsize]. cbn [fst snd] in *.
    exists name, content. repeat split; try assumption.
    + apply elem_of_map_to_list. now apply list_elem_of_In.
    + now apply Nat.ltb_lt.
  - intros (name & content & Hlook & Htxt & Hsize & Hpre).
    exists (name, content). split; [exact Hpre|].
    apply List.filter_In. split.
    + apply list_elem_of_In. now apply elem_of_map_to_list.
    + cbn [fst snd]. rewrite Htxt. now apply Nat.ltb_lt in Hsize as ->.
Qed.

Lemma save_keeps_untouched (X : gset (list N)) (chap : dir) (cur : dir) (no : N)
    (paras : list str) (out : str) (cur' : dir) :
  pad4 no ∉ X ->
  save_chapter_text cur no (pad4 no) paras = Return (out, cur') ->
  (forall name, before_chr 45 name ∈ X -> cur !! name = chap !! name) ->
  forall name, before_chr 45 name ∈ X -> cur' !! name = chap !! name.
Proof.
  intros Hno Hsave Hcur name Hname.
  apply save_chapter_text_spec in Hsave as (Hpre & bytes & ->).
  rewrite lookup_insert_ne; [now apply Hcur|].
  intros ->. rewrite Hpre in Hname. contradiction.
Qed.

Lemma first_step_untouched (X : gset (list N)) (chap : dir) (st st' : Progress)
    (r : N * option (list str) * str) :
  pad4 (fst (fst r)) ∉ X ->
  first_step st r = Return st' ->
  untouched X chap st -> untouched X chap st'.
Proof.
  destruct r as [[no paras] h]. cbn [fst]. intros Hno Hstep [Hfiles Hfails].
  unfold first_step in Hstep.
  destruct ((no =? 0) || negb (has_paras paras)).
  - destruct (truthy h); injection Hstep as <-; [|now split].
    split; [exact Hfiles|]. cbn [fails]. intros e He.
    apply List.in_app_iff in He as [He|[<-|[]]]; [now apply Hfails|exact Hno].
  - apply bind_Return in Hstep as ([out cur'] & Hsave & Hst). injection Hst as <-.
    split; [|exact Hfails]. cbn [chap_dir snd].
    eapply save_keeps_untouched; eassumption.
Qed.

Lemma retry_step_untouched (X : gset (list N)) (chap : dir) (st st' : Progress)
    (r : N * option (list str) * str) :
  pad4 (fst (fst r)) ∉ X ->
  retry_step st r = Return st' ->
  untouched X chap st -> untouched X chap st'.
Proof.
  destruct r as [[no paras] h]. cbn [fst]. intros Hno Hstep [Hfiles Hfails].
  unfold retry_step in Hstep.
  destruct (has_paras paras).
  - apply bind_Return in Hstep as ([out cur'] & Hsave & Hst). injection Hst as <-.
    split; [|exact Hfails]. cbn [chap_dir snd].
    eapply save_keeps_untouched; eassumption.
  - injection Hstep as <-. split; [exact Hfiles|]. cbn [fails]. intros e He.
    apply List.in_app_iff in He as [He|[<-|[]]]; [now apply Hfails|exact Hno].
Qed.

Lemma foldM_untouched (X : gset (list N)) (chap : dir)
    (step : Progress -> N * option (list str) * str -> result Progress)
    (rs : list (N * option (list str) * str)) :
  (forall st st' r, pad4 (fst (fst r)) ∉ X -> step st r = Return st' ->
                    untouched X chap st -> untouched X chap st') ->
  Forall (fun r => pad4 (fst (fst r)) ∉ X) rs ->
  forall st st',
    foldM step rs st = Return st' -> untouched X chap st -> untouched X chap st'.
Proof.
  intros Hstep. induction 1 as [|r rest Hr Hrest IH]; intros st st' Hrun Hst;
    cbn [foldM] in Hrun.
  - now injection Hrun as <-.
  - apply bind_Return in Hrun as (st1 & H1 & Hrun).
    eapply IH; [exact Hrun|]. eapply Hstep; eassumption.
Qed.

Lemma run_pass_numbers (E : PyEnv) (w : World) (p : nat) (book_url : str)
    (ua_pool : list str) (tasks : list (N * str)) (X : gset (list N)) :
  fair w ->
  (forall t, In t tasks -> pad4 (fst t) ∉ X) ->
  Forall (fun r => pad4 (fst (fst r)) ∉ X) (run_pass E w p book_url ua_pool tasks).
Proof.
  intros Hfair Htasks. apply List.Forall_forall. intros r Hr.
  apply run_pass_In in Hr as (i & ch & Hi & ->); [|exact Hfair].
  rewrite fetch_one_no. apply Htasks.
  apply list_elem_of_In. eapply list_elem_of_lookup_2. exact Hi.
Qed.

Lemma retry_loop_untouched (E : PyEnv) (w : World) (args : Args) (book_url : str)
    (ua_pool : list str) (X : gset (list N)) (chap : dir) (n : nat) :
  fair w ->
  forall rd st st',
    retry_loop_rounds E w args book_url ua_pool n rd st = Return st' ->
    untouched X chap st -> untouched X chap st'.
Proof.
  intros Hfair. induction n as [|n IH]; intros rd st st' Hrun Hst;
    cbn [retry_loop_rounds] in Hrun.
  - now injection Hrun as <-.
  - destruct (fails st) as [|f0 frest] eqn:Hf; [now injection Hrun as <-|].
    apply bind_Return in Hrun as ([] & _ & Hrun).
    apply bind_Return in Hrun as (st1 & Hround & Hrun).
    eapply IH; [exact Hrun|]. unfold retry_round in Hround. cbn [fails chap_dir log] in Hround.
    destruct Hst as [Hfiles Hfails].
    eapply foldM_untouched; [apply retry_step_untouched| |exact Hround|].
    + apply run_pass_numbers; [exact Hfair|]. rewrite <- Hf. exact Hfails.
    + split; [exact Hfiles|intros e []].
Qed.

Lemma first_pass_tasks_spec (args : Args) (chap : dir) (toc : list ChapterRef) :
  overwrite args = 0%Z ->
  first_pass_tasks args chap toc
  = List.map (fun ch => (no ch, href ch))
      (List.filter (fun ch => negb (bool_decide (pad4 (no ch) ∈ existing_prefixes chap)))
                   toc).
Proof.
  intros Hov. unfold first_pass_tasks, to_fetch, scan_existing. rewrite Hov.
  reflexivity.
Qed.

(** C5, as the code has it.  Without the overwrite flag the first pass
    submits exactly the chapters whose zero-padded number is not the prefix
    (the part before the first dash) of a [.txt] file of more than 10 bytes in
    the chapters directory, and no file with such a prefix is written by the
    first pass or by a retry round.  So a second run submits no fetch and
    writes no chapter file when every chapter of the TOC has such a file;
    a chapter saved with 10 bytes or fewer is fetched again. *)
Theorem resume_skips_saved_chapters (E : PyEnv) (w : World) (args : Args)
    (book_url : str) (ua_pool : list str) (toc : list ChapterRef) (chap : dir) :
  fair w ->
  overwrite args = 0%Z ->
  (forall prefix,
      prefix ∈ existing_prefixes chap
      <-> exists name content,
            chap !! name = Some content
            /\ endswith (lit ".txt") name = true
            /\ (10 < length content)%nat
            /\ before_chr 45 name = prefix)
  /\ first_pass_tasks args chap toc
     = List.map (fun ch => (no ch, href ch))
         (List.filter
            (fun ch => negb (bool_decide (pad4 (no ch) ∈ existing_prefixes chap))) toc)
  /\ (forall st,
        fetch_chapters_of E w args book_url ua_pool toc chap = Return st ->
        forall name,
          before_chr 45 name ∈ existing_prefixes chap ->
          chap_dir st !! name = chap !! name)
  /\ (all_saved toc chap ->
      first_pass_tasks args chap toc = []
      /\ fetch_chapters_of E w args book_url ua_pool toc chap
         = Return (MkProgress chap [] [])).
Proof.
  intros Hfair Hov.
  split; [intros prefix; apply existing_prefixes_spec|].
  split; [now apply first_pass_tasks_spec|]. split.
  - intros st Hrun. unfold fetch_chapters_of in Hrun.
    apply bind_Return in Hrun as (st1 & Hfirst & Hrun).
    apply bind_Return in Hrun as (st2 & Hloop & Hrun). injection Hrun as <-.
    assert (H1 : untouched (existing_prefixes chap) chap st1).
    { eapply foldM_untouched; [apply first_step_untouched| |exact Hfirst|].
      - apply run_pass_numbers; [exact Hfair|].
        rewrite first_pass_tasks_spec by exact Hov. intros t Ht.
        apply List.in_map_iff in Ht as (ch & <- & Hch).
        apply List.filter_In in Hch as [_ Hch]. cbn [fst].
        apply negb_true_iff, bool_decide_eq_false in Hch. exact Hch.
      - split; [reflexivity|intros e []]. }
    assert (H2 : untouched (existing_prefixes chap) chap st2).
    { eapply retry_loop_untouched; eassumption. }
    destruct H2 as [Hfiles _]. unfold warn_residual.
    destruct (fails st2); exact Hfiles.
  - intros Hall.
    assert (Hnone : first_pass_tasks args chap toc = []).
    { rewrite first_pass_tasks_spec by exact Hov.
      replace (List.filter _ toc) with (@nil ChapterRef); [reflexivity|].
      symmetry. clear -Hall. unfold all_saved in Hall.
      induction toc as [|ch rest IH]; [reflexivity|]. cbn [List.filter].
      rewrite bool_decide_eq_true_2 by (apply Hall; now left). cbn [negb].
      apply IH. intros c Hc. apply Hall. now right. }
    split; [exact Hnone|].
    unfold fetch_chapters_of. rewrite Hnone.
    assert (Hrun : run_pass E w 0 book_url ua_pool [] = []).
    { apply List.length_zero_iff_nil. now rewrite run_pass_length. }
    rewrite Hrun. cbn [foldM bind].
    destruct (Z.to_nat (Z.max 0 (retry_rounds args))); reflexivity.
Qed.

Lemma resume_skips_saved_chapters_witness :
  first_pass_tasks Examples.args0 Examples.chap_full Examples.toc_7 = []
  /\ fetch_chapters_of Examples.env0
       (Examples.world_of Examples.toc_page (fun _ => Examples.net_serving Examples.full_page))
       Examples.args0 Examples.book_url_7 [] Examples.toc_7 Examples.chap_full
     = Return (MkProgress Examples.chap_full [] []).
Proof.
  apply (resume_skips_saved_chapters Examples.env0
           (Examples.world_of Examples.toc_page
              (fun _ => Examples.net_serving Examples.full_page))
           Examples.args0 Examples.book_url_7 [] Examples.toc_7 Examples.chap_full).
  - intros p A l. apply Permutation_refl.
  - reflexivity.
  - intros ch [<-|[<-|[]]]; refine (proj1 (bool_decide_eq_true _) _);
      vm_compute; reflexivity.
Defined.

(** The first run that produces [chap_full]. *)
Example first_run_saves_full_chapters :
  fetch_chapters_of Examples.env0
    (Examples.world_of Examples.toc_page (fun _ => Examples.net_serving Examples.full_page))
    Examples.args0 Examples.book_url_7 [] Examples.toc_7 ∅
  = Return (MkProgress Examples.chap_full []
              [LogSaved (lit "0001-0001.txt"); LogSaved (lit "0002-0002.txt")]).
Proof. vm_compute. reflexivity. Qed.

Example parse_toc_of_toc_page :
  parse_toc Examples.env0 Examples.toc_page Examples.book_url_7
  = Return Examples.toc_7.
Proof. vm_compute. reflexivity. Qed.

(** C5 as stated fails after a run that saved short chapters: both chapters
    of the TOC are fetched and saved (two bytes each), nothing fails, and the
    second run over the resulting directory submits both again and writes
    both files again. *)
Lemma short_chapters_are_fetched_again :
  exists chap1,
    fetch_chapters_of Examples.env0
      (Examples.world_of Examples.toc_page (fun _ => Examples.net_serving Examples.tiny_page))
      Examples.args0 Examples.book_url_7 [] Examples.toc_7 ∅
    = Return (MkProgress chap1 []
                [LogSaved (lit "0001-0001.txt"); LogSaved (lit "0002-0002.txt")])
    /\ chap1 !! lit "0001-0001.txt" = Some (lit "ok")
    /\ chap1 !! lit "0002-0002.txt" = Some (lit "ok")
    /\ first_pass_tasks Examples.args0 chap1 Examples.toc_7
       = [ (1, lit "http://h.example/book/7/1.html");
           (2, lit "http://h.example/book/7/2.html") ]
    /\ fetch_chapters_of Examples.env0
         (Examples.world_of Examples.toc_page
            (fun _ => Examples.net_serving Examples.tiny_page))
         Examples.args0 Examples.book_url_7 [] Examples.toc_7 chap1
       = Return (MkProgress chap1 []
                   [LogSaved (lit "0001-0001.txt"); LogSaved (lit "0002-0002.txt")]).
Proof.
  eexists. split; [vm_compute; reflexivity|].
  repeat split; vm_compute; reflexivity.
Qed.

(** ** The matcher and the language of a pattern *)

Lemma skipn_cons_nth {A : Type} (s : list A) (i : nat) (c : A) (rest : list A) :
  skipn i s = c :: rest -> nth_error s i = Some c /\ skipn (S i) s = rest.
Proof.
  revert i. induction s as [|a s IH]; intros [|i] H; cbn in *; try discriminate.
  - injection H as -> ->. now split.
  - now apply IH.
Qed.

Lemma nth_skipn_cons {A : Type} (s : list A) (i : nat) (c : A) :
  nth_error s i = Some c -> skipn i s = c :: skipn (S i) s.
Proof.
  revert i. induction s as [|a s IH]; intros [|i] H; cbn in *; try discriminate.
  - now injection H as ->.
  - now apply IH.
Qed.

Lemma rmatch_Rep {R : Type} (s : str) (g : bool) (lo : nat) (hi : option nat) (a : re)
    (i : nat) (rest : str) (caps : captures) (k : nat -> str -> captures -> option R) :
  rmatch s (Rep g lo hi a) i rest caps k
  = rep_loop (rmatch s a) g lo hi k (S (length rest)) O i rest caps.
Proof. reflexivity. Qed.

Lemma rep_loop_unfold {R : Type}
    (M : nat -> str -> captures -> (nat -> str -> captures -> option R) -> option R)
    (g : bool) (lo : nat) (hi : option nat) (k : nat -> str -> captures -> option R)
    (fuel n i : nat) (rest : str) (caps : captures) :
  rep_loop M g lo hi k fuel n i rest caps
  = let more :=
      match fuel with
      | O => None
      | S fuel' =>
          if below hi n then
            M i rest caps (fun i' rest' caps' =>
              if Nat.eqb i' i then None
              else rep_loop M g lo hi k fuel' (S n) i' rest' caps')
          else None
      end in
    let stop := if Nat.leb lo n then k i rest caps else None in
    if g then match more with Some x => Some x | None => stop end
    else match stop with Some x => Some x | None => more end.
Proof. destruct fuel; reflexivity. Qed.

Lemma eol_inv {X : Type} (rest : str) (a : option X) (x : X) :
  match rest with [] => a | [10] => a | _ => None end = Some x ->
  (rest = [] \/ rest = [10]) /\ a = Some x.
Proof.
  intros H. destruct rest as [|c rest]; [auto|].
  destruct c as [|p]; [destruct rest; discriminate H|].
  do 4 (destruct p; try (destruct rest; discriminate H)).
  destruct rest; [auto|discriminate H].
Qed.

Section MatcherLanguage.
Variable s : str.
Context {R : Type}.

Lemma rep_loop_sound (a : re) (g : bool) (lo : nat) (hi : option nat)
    (k : nat -> str -> captures -> option R) :
  (forall i caps (k' : nat -> str -> captures -> option R) x,
      rmatch s a i (skipn i s) caps k' = Some x ->
      exists j c', sem s a i caps j c' /\ k' j (skipn j s) c' = Some x) ->
  forall fuel n i caps x,
    rep_loop (rmatch s a) g lo hi k fuel n i (skipn i s) caps = Some x ->
    exists j c', iter (sem s a) lo hi n i caps j c' /\ k j (skipn j s) c' = Some x.
Proof.
  intros IHa. induction fuel as [|fuel IH]; intros n i caps x H;
    rewrite rep_loop_unfold in H; cbv zeta in H.
  - assert (Hstop : (if Nat.leb lo n then k i (skipn i s) caps else None) = Some x)
      by (destruct g; [exact H|destruct (if Nat.leb lo n then _ else _); congruence]).
    destruct (Nat.leb lo n) eqn:Hlo; [|discriminate].
    apply Nat.leb_le in Hlo. exists i, caps. split; [now constructor|exact Hstop].
  - assert (Hcases :
      (below hi n = true
       /\ rmatch s a i (skipn i s) caps (fun i' rest' caps' =>
            if Nat.eqb i' i then None
            else rep_loop (rmatch s a) g lo hi k fuel (S n) i' rest' caps') = Some x)
      \/ (if Nat.leb lo n then k i (skipn i s) caps else None) = Some x).
    { destruct g.
      - destruct (below hi n).
        + destruct (rmatch s a i (skipn i s) caps _) eqn:E; [left|right]; [|exact H].
          split; [reflexivity|]. now rewrite <- H.
        + now right.
      - destruct (if Nat.leb lo n then _ else _) eqn:E; [right; exact H|].
        destruct (below hi n); [|discriminate]. left. now split. }
    destruct Hcases as [[Hhi Hmore]|Hstop].
    + apply IHa in Hmore as (i' & c1 & Hsem & Hk).
      destruct (Nat.eqb i' i) eqn:Hi; [discriminate|].
      apply Nat.eqb_neq in Hi.
      apply IH in Hk as (j & c' & Hiter & Hk). exists j, c'. split; [|exact Hk].
      econstructor; eassumption.
    + destruct (Nat.leb lo n) eqn:Hlo; [|discriminate].
      apply Nat.leb_le in Hlo. exists i, caps. split; [now constructor|exact Hstop].
Qed.

Lemma rmatch_sound (r : re) :
  no_ref r = true ->
  forall i caps (k : nat -> str -> captures -> option R) x,
    rmatch s r i (skipn i s) caps k = Some x ->
    exists j c', sem s r i caps j c' /\ k j (skipn j s) c' = Some x.
Proof.
  induction r as [f| |a IHa b IHb|a IHa b IHb|g lo hi a IHa|g a IHa|ic g| | |f];
    intros Hnr i caps k x H; cbn [no_ref] in Hnr.
  - cbn [rmatch] in H. destruct (skipn i s) as [|c rest] eqn:Hs; [discriminate|].
    destruct (f c) eqn:Hf; [|discriminate].
    apply skipn_cons_nth in Hs as [Hn Hr]. subst rest.
    exists (S i), caps. split; [|exact H]. exists c. auto.
  - exists i, caps. split; [now split|exact H].
  - apply andb_prop in Hnr as [Ha Hb]. cbn [rmatch] in H.
    apply (IHa Ha) in H as (m & cm & Hsa & H).
    apply (IHb Hb) in H as (j & c' & Hsb & H).
    exists j, c'. split; [|exact H]. exists m, cm. now split.
  - apply andb_prop in Hnr as [Ha Hb]. cbn [rmatch] in H.
    destruct (rmatch s a i (skipn i s) caps k) eqn:E.
    + injection H as ->. apply (IHa Ha) in E as (j & c' & Hs & Hk).
      exists j, c'. split; [now left|exact Hk].
    + apply (IHb Hb) in H as (j & c' & Hs & Hk).
      exists j, c'. split; [now right|exact Hk].
  - rewrite rmatch_Rep in H.
    eapply rep_loop_sound in H; [|intros; now apply (IHa Hnr)].
    exact H.
  - cbn [rmatch] in H. apply (IHa Hnr) in H as (j & c' & Hs & Hk).
    exists j, ((g, (i, j)) :: c'). split; [|exact Hk]. exists c'. now split.
  - discriminate.
  - cbn [rmatch] in H. destruct (Nat.eqb i 0) eqn:Hi; [|discriminate].
    apply Nat.eqb_eq in Hi. exists i, caps. split; [now repeat split|exact H].
  - cbn [rmatch] in H. apply eol_inv in H as [Hs Hk].
    exists i, caps. split; [now repeat split|exact Hk].
  - cbn [rmatch] in H. destruct i as [|p]; [discriminate|].
    destruct (nth_error s p) as [c|] eqn:Hn; [|discriminate].
    destruct (f c) eqn:Hf; [|discriminate].
    exists (S p), caps. split; [|exact H]. exists p, c. auto.
Qed.

Lemma sem_mono (r : re) :
  forall i c j c', sem s r i c j c' ->
    (i <= j)%nat /\ ((i <= length s)%nat -> (j <= length s)%nat).
Proof.
  induction r as [f| |a IHa b IHb|a IHa b IHb|g lo hi a IHa|g a IHa|ic g| | |f];
    intros i c j c' H; cbn [sem] in H.
  - destruct H as (ch & Hn & _ & -> & _). split; [lia|]. intros _.
    apply nth_error_Some. congruence.
  - destruct H as [-> _]. split; [lia|auto].
  - destruct H as (m & cm & Ha & Hb).
    apply IHa in Ha as [? ?]. apply IHb in Hb as [? ?]. split; [lia|auto].
  - destruct H as [H|H]; [now apply IHa in H|now apply IHb in H].
  - induction H as [n i c Hlo|n i c i' c1 j c2 Hhi Hstep Hne Hrest IH].
    + split; [lia|auto].
    + apply IHa in Hstep as [? ?]. destruct IH as [? ?]. split; [lia|auto].
  - destruct H as (c0 & H & _). now apply IHa in H.
  - contradiction.
  - destruct H as (_ & -> & _). split; [lia|auto].
  - destruct H as (_ & -> & _). split; [lia|auto].
  - destruct H as (p & ch & _ & _ & _ & -> & _). split; [lia|auto].
Qed.

Lemma rep_loop_complete (a : re) (g : bool) (lo : nat) (hi : option nat)
    (k : nat -> str -> captures -> option R) :
  (forall i c j c' (k' : nat -> str -> captures -> option R) x,
      sem s a i c j c' -> k' j (skipn j s) c' = Some x ->
      (i <= length s)%nat ->
      exists y, rmatch s a i (skipn i s) c k' = Some y) ->
  forall n i c j c',
    iter (sem s a) lo hi n i c j c' ->
    forall x fuel,
      k j (skipn j s) c' = Some x ->
      (i <= length s)%nat -> (length s - i < fuel)%nat ->
      exists y, rep_loop (rmatch s a) g lo hi k fuel n i (skipn i s) c = Some y.
Proof.
  intros IHa n i c j c' Hiter.
  induction Hiter as [n i c Hlo|n i c i' c1 j c2 Hhi Hstep Hne Hrest IH];
    intros x fuel Hk Hi Hfuel; rewrite rep_loop_unfold; cbv zeta.
  - apply Nat.leb_le in Hlo. rewrite Hlo, Hk.
    destruct g; [|eauto].
    destruct (match fuel with O => None | S _ => _ end); eauto.
  - destruct fuel as [|fuel]; [lia|]. rewrite Hhi.
    pose proof (sem_mono a _ _ _ _ Hstep) as [Hle Hlen].
    destruct (IH x fuel Hk (Hlen Hi)) as (y & Hy); [lia|].
    destruct (IHa i c i' c1
                (fun i'0 rest' caps' =>
                   if Nat.eqb i'0 i then None
                   else rep_loop (rmatch s a) g lo hi k fuel (S n) i'0 rest' caps') y
                Hstep) as (y' & Hy').
    { apply Nat.eqb_neq in Hne. now rewrite Hne. }
    { exact Hi. }
    rewrite Hy'. destruct g; [eauto|].
    destruct (if Nat.leb lo n then _ else _); eauto.
Qed.

Lemma rmatch_complete (r : re) :
  forall i c j c' (k : nat -> str -> captures -> option R) x,
    sem s r i c j c' -> k j (skipn j s) c' = Some x ->
    (i <= length s)%nat ->
    exists y, rmatch s r i (skipn i s) c k = Some y.
Proof.
  induction r as [f| |a IHa b IHb|a IHa b IHb|g lo hi a IHa|g a IHa|ic g| | |f];
    intros i c j c' k x H Hk Hi; cbn [sem] in H.
  - destruct H as (ch & Hn & Hf & -> & ->). cbn [rmatch].
    rewrite (nth_skipn_cons _ _ _ Hn), Hf. eauto.
  - destruct H as [-> ->]. cbn [rmatch]. eauto.
  - destruct H as (m & cm & Ha & Hb). cbn [rmatch].
    pose proof (sem_mono a _ _ _ _ Ha) as [_ Hm].
    destruct (IHb _ _ _ _ k x Hb Hk (Hm Hi)) as (y & Hy).
    eapply IHa; [exact Ha|exact Hy|exact Hi].
  - cbn [rmatch]. destruct (rmatch s a i (skipn i s) c k) eqn:E; [eauto|].
    destruct H as [H|H].
    + destruct (IHa _ _ _ _ k x H Hk Hi) as (y & Hy). congruence.
    + eapply IHb; eassumption.
  - rewrite rmatch_Rep.
    eapply rep_loop_complete; [exact IHa|exact H|exact Hk|exact Hi|].
    rewrite length_skipn. lia.
  - destruct H as (c0 & H & ->). cbn [rmatch].
    eapply IHa; [exact H| |exact Hi]. exact Hk.
  - contradiction.
  - destruct H as (-> & -> & ->). cbn [rmatch]. eauto.
  - destruct H as ([Hs|Hs] & -> & ->); cbn [rmatch]; rewrite Hs in Hk |- *; exists x; exact Hk.
  - destruct H as (p & ch & -> & Hn & Hf & -> & ->). cbn [rmatch].
    rewrite Hn, Hf. eauto.
Qed.

End MatcherLanguage.

(** * Further properties *)

(** ** Text *)

Lemma str_eqb_eq (a b : str) : str_eqb a b = true <-> a = b.
Proof. unfold str_eqb. apply bool_decide_eq_true. Qed.

Lemma truthy_false (s : str) : truthy s = false <-> s = [].
Proof. destruct s; cbn; split; congruence. Qed.

Lemma strip_prefix_spec (p s r : str) : strip_prefix p s = Some r <-> s = p ++ r.
Proof.
  revert s. induction p as [|a p IH]; intros s; cbn [strip_prefix List.app].
  - split; congruence.
  - destruct s as [|b s]; [split; discriminate|].
    destruct (N.eqb_spec a b) as [->|Hne].
    + rewrite IH. split; [now intros ->|congruence].
    + split; [discriminate|congruence].
Qed.

Lemma startswith_spec (p s : str) : startswith p s = true <-> exists r, s = p ++ r.
Proof.
  unfold startswith. destruct (strip_prefix p s) as [r|] eqn:H.
  - apply strip_prefix_spec in H. split; eauto.
  - split; [discriminate|]. intros (r & Hr). apply strip_prefix_spec in Hr. congruence.
Qed.

Lemma endswith_spec (p s : str) : endswith p s = true <-> exists r, s = r ++ p.
Proof.
  unfold endswith. rewrite startswith_spec. split; intros (r & Hr).
  - exists (rev r). apply (f_equal (@rev N)) in Hr.
    now rewrite List.rev_involutive, List.rev_app_distr, List.rev_involutive in Hr.
  - exists (rev r). subst s. now rewrite List.rev_app_distr.
Qed.

Lemma contains_spec (p s : str) :
  contains p s = true <-> exists a b, s = a ++ p ++ b.
Proof.
  induction s as [|c s IH]; cbn [contains].
  - rewrite orb_false_r, startswith_spec. split.
    + intros (r & Hr). exists [], r. exact Hr.
    + intros (a & b & H). destruct a; [eauto|discriminate].
  - rewrite orb_true_iff, startswith_spec, IH. split.
    + intros [(r & Hr)|(a & b & H)]; [exists [], r; exact Hr|].
      exists (c :: a), b. now rewrite H.
    + intros (a & b & H). destruct a as [|a0 a]; [left; eauto|].
      right. injection H as _ H. eauto.
Qed.

Lemma lstrip_by_fixed (f : N -> bool) (s : str) :
  match s with [] => True | c :: _ => f c = false end -> lstrip_by f s = s.
Proof. destruct s as [|c t]; cbn; [reflexivity|]. now intros ->. Qed.

Lemma lstrip_by_head (f : N -> bool) (s : str) :
  match lstrip_by f s with [] => True | c :: _ => f c = false end.
Proof.
  induction s as [|c t IH]; cbn [lstrip_by]; [exact I|].
  destruct (f c) eqn:Hc; [exact IH|exact Hc].
Qed.

Lemma lstrip_by_suffix (f : N -> bool) (s : str) :
  exists a, s = a ++ lstrip_by f s /\ Forall (fun c => f c = true) a.
Proof.
  induction s as [|c t (a & Ha & Hf)]; cbn [lstrip_by]; [now exists []|].
  destruct (f c) eqn:Hc.
  - exists (c :: a). split; [now rewrite Ha at 1|now constructor].
  - now exists [].
Qed.

Lemma rstrip_by_prefix (f : N -> bool) (s : str) :
  exists b, s = rstrip_by f s ++ b /\ Forall (fun c => f c = true) b.
Proof.
  unfold rstrip_by. destruct (lstrip_by_suffix f (rev s)) as (a & Ha & Hf).
  exists (rev a). split.
  - apply (f_equal (@rev N)) in Ha.
    now rewrite List.rev_involutive, List.rev_app_distr in Ha.
  - apply List.Forall_forall. intros c Hc. apply List.in_rev in Hc.
    revert c Hc. now apply List.Forall_forall.
Qed.

Lemma rstrip_by_last (f : N -> bool) (s : str) (a : str) (c : N) :
  rstrip_by f s = a ++ [c] -> f c = false.
Proof.
  unfold rstrip_by. intros H. apply (f_equal (@rev N)) in H.
  rewrite List.rev_involutive, List.rev_app_distr in H. cbn in H.
  pose proof (lstrip_by_head f (rev s)) as Hh. now rewrite H in Hh.
Qed.

Lemma rstrip_by_fixed (f : N -> bool) (s : str) :
  (forall a c, s = a ++ [c] -> f c = false) -> rstrip_by f s = s.
Proof.
  intros H. unfold rstrip_by. rewrite lstrip_by_fixed; [apply List.rev_involutive|].
  destruct (rev s) as [|c t] eqn:Hr; [exact I|].
  apply (H (rev t) c). apply (f_equal (@rev N)) in Hr.
  now rewrite List.rev_involutive in Hr.
Qed.

(** What [strip] returns has no white space at either end, and [strip]
    leaves such a string alone. *)
Lemma strip_ends (s : str) :
  match strip s with [] => True | c :: _ => is_space c = false end
  /\ (forall a c, strip s = a ++ [c] -> is_space c = false).
Proof.
  split; [|intros a c; apply rstrip_by_last].
  unfold strip. destruct (rstrip_by_prefix is_space (lstrip_by is_space s)) as (b & Hb & _).
  pose proof (lstrip_by_head is_space s) as Hh.
  destruct (rstrip_by is_space (lstrip_by is_space s)) as [|c t]; [exact I|].
  rewrite Hb in Hh. exact Hh.
Qed.

Lemma strip_fixed (s : str) :
  match s with [] => True | c :: _ => is_space c = false end ->
  (forall a c, s = a ++ [c] -> is_space c = false) ->
  strip s = s.
Proof.
  intros Hh Hl. unfold strip. rewrite lstrip_by_fixed by exact Hh.
  now apply rstrip_by_fixed.
Qed.

Lemma strip_idempotent (s : str) : strip (strip s) = strip s.
Proof. destruct (strip_ends s) as [Hh Hl]. now apply strip_fixed. Qed.

Lemma strip_sub (s : str) : exists a b, s = a ++ strip s ++ b.
Proof.
  unfold strip. destruct (lstrip_by_suffix is_space s) as (a & Ha & _).
  destruct (rstrip_by_prefix is_space (lstrip_by is_space s)) as (b & Hb & _).
  exists a, b. now rewrite <- Hb.
Qed.

(** ** Same site *)

(** X1: same site.  [_same_site] accepts exactly: the empty netloc (a relative URL); a netloc
    whose host, the text before its first colon, is the host of the base; and
    a netloc whose host ends with a dot followed by the host of the base.  The
    port plays no part, and a host that merely ends with the base host,
    without the dot, is refused. *)
Theorem same_site_hosts (base_netloc target_netloc : str) :
  _same_site base_netloc target_netloc = true
  <-> target_netloc = []
      \/ before_chr 58 target_netloc = before_chr 58 base_netloc
      \/ exists sub,
           before_chr 58 target_netloc = sub ++ lit "." ++ before_chr 58 base_netloc.
Proof.
  unfold _same_site. destruct (truthy target_netloc) eqn:Ht; cbn [negb].
  - assert (Hne : target_netloc <> []) by (intros ->; discriminate).
    destruct (str_eqb target_netloc base_netloc) eqn:He.
    + apply str_eqb_eq in He. subst. split; auto.
    + rewrite orb_true_iff, str_eqb_eq, endswith_spec. split.
      * intros [H|(r & Hr)]; [auto|]. right. right. exists r. exact Hr.
      * intros [H|[H|(r & Hr)]]; [contradiction|auto|]. right. exists r. exact Hr.
  - apply truthy_false in Ht. split; auto.
Qed.

(** ** Chapter numbers and file names *)

Lemma decimal_value_ascii (c : N) : 48 <= c <= 57 -> decimal_value c = Some (c - 48).
Proof.
  intros Hc. unfold decimal_value.
  replace (List.find _ decimal_runs) with (Some (48, 57)).
  - cbn [fst]. f_equal. apply N.mod_small. lia.
  - unfold decimal_runs. cbn [List.find fst snd].
    now rewrite (proj2 (N.leb_le 48 c)), (proj2 (N.leb_le c 57)) by lia.
Qed.

(** The number a run of digits stands for, as [int_digits] folds it. *)
Lemma digits_of_app (fuel : nat) :
  forall n acc, digits_of fuel n acc = digits_of fuel n [] ++ acc.
Proof.
  induction fuel as [|fuel IH]; intros n acc; cbn [digits_of]; [reflexivity|].
  destruct (n <? 10); [reflexivity|].
  rewrite (IH (n / 10) (_ :: acc)), (IH (n / 10) [_]), <- List.app_assoc. reflexivity.
Qed.

Lemma digits_of_value (fuel : nat) :
  forall n,
    n < 10 ^ N.of_nat fuel ->
    fold_left (fun acc c => 10 * acc + default 0 (decimal_value c))
      (digits_of fuel n []) 0 = n.
Proof.
  induction fuel as [|fuel IH]; intros n Hn.
  - cbn in Hn. cbn. lia.
  - cbn [digits_of].
    assert (Hd : decimal_value (48 + n mod 10) = Some (n mod 10)).
    { assert (H : n mod 10 < 10) by (apply N.mod_lt; discriminate).
      rewrite decimal_value_ascii.
      - f_equal. revert H. generalize (n mod 10). intros d Hd. lia.
      - revert H. generalize (n mod 10). intros d Hd. lia. }
    destruct (N.ltb_spec n 10) as [Hlt|Hge].
    + cbn [fold_left]. rewrite Hd. cbn [from_option]; unfold Datatypes.id. rewrite N.mod_small by exact Hlt. lia.
    + rewrite digits_of_app, List.fold_left_app, IH.
      * cbn [fold_left]. rewrite Hd. cbn [from_option]; unfold Datatypes.id.
        pose proof (N.div_mod n 10) as Hdm. lia.
      * replace (N.of_nat (S fuel)) with (N.succ (N.of_nat fuel)) in Hn by lia.
        rewrite N.pow_succ_r' in Hn.
        apply N.Div0.div_lt_upper_bound. exact Hn.
Qed.

Lemma str_of_N_value (n : N) :
  fold_left (fun acc c => 10 * acc + default 0 (decimal_value c)) (str_of_N n) 0 = n.
Proof.
  unfold str_of_N. apply digits_of_value.
  destruct (N.eq_dec n 0) as [->|Hn]; [reflexivity|].
  replace (N.of_nat (S (N.to_nat (N.log2 n)))) with (N.succ (N.log2 n)) by lia.
  destruct (N.log2_spec n) as [_ Hlt]; [lia|].
  eapply N.lt_le_trans; [exact Hlt|].
  apply N.pow_le_mono_l. lia.
Qed.

(** [int(f"{n:04d}") == n]. *)
Lemma pad4_value (n : N) : int_digits (pad4 n) = Z.of_N n.
Proof.
  unfold int_digits, pad4. f_equal. rewrite List.fold_left_app.
  replace (fold_left _ (repeat 48 _) 0) with 0; [apply str_of_N_value|].
  generalize (4 - length (str_of_N n))%nat. intros k.
  induction k as [|k IH]; [reflexivity|]. cbn [repeat fold_left].
  rewrite decimal_value_ascii by lia. cbn [from_option]; unfold Datatypes.id. exact IH.
Qed.

Lemma pad4_injective (a b : N) : pad4 a = pad4 b -> a = b.
Proof.
  intros H. apply (f_equal int_digits) in H. rewrite !pad4_value in H. lia.
Qed.

Lemma pad4_no_dash (n : N) : Forall (fun c => c <> 45) (pad4 n).
Proof.
  eapply List.Forall_impl; [|apply pad4_digits]. cbn beta. intros c Hc. lia.
Qed.

(** X6: the file of a chapter.  [save_chapter_text], called as [process_book]
    calls it, writes one file: its name is the zero-padded number twice, joined
    by a dash, with the suffix [.txt]; it holds the UTF-8 bytes of the
    paragraphs joined by line feeds; every other file of the directory is left
    as it was.  The padded number reads back as the chapter number, so the
    files of two different chapters never share a name.  The call raises only
    when the text cannot be encoded. *)
Theorem chapter_file_of_number (chap : dir) (a : N) (paras : list str) :
  (forall out chap',
      save_chapter_text chap a (pad4 a) paras = Return (out, chap') ->
      out = pad4 a ++ lit "-" ++ pad4 a ++ lit ".txt"
      /\ before_chr 45 out = pad4 a
      /\ int_digits (before_chr 45 out) = Z.of_N a
      /\ (exists bytes,
            Hash.encode_utf8 (join [10] paras) = Return bytes
            /\ chap' !! out = Some bytes)
      /\ (forall name, name <> out -> chap' !! name = chap !! name))
  /\ (forall e,
        save_chapter_text chap a (pad4 a) paras = Raise e ->
        Hash.encode_utf8 (join [10] paras) = Raise e)
  /\ (forall b, pad4 a ++ lit "-" ++ pad4 a ++ lit ".txt"
                = pad4 b ++ lit "-" ++ pad4 b ++ lit ".txt" -> a = b).
Proof.
  assert (Hne : truthy (pad4 a) = true).
  { pose proof (pad4_value a) as Hv. destruct (pad4 a) eqn:Hp; [|reflexivity].
    unfold pad4 in Hp. apply List.app_eq_nil in Hp as [_ Hp].
    unfold str_of_N in Hp. cbn [digits_of] in Hp.
    destruct (a <? 10); [discriminate|].
    rewrite digits_of_app in Hp. apply List.app_eq_nil in Hp as [_ Hp]. discriminate. }
  assert (Hpre : forall n rest, before_chr 45 (pad4 n ++ lit "-" ++ rest) = pad4 n).
  { intros n rest. change (lit "-") with [45]. cbn [List.app].
    apply before_chr_app, pad4_no_dash. }
  split; [|split].
  - intros out chap' Hrun. unfold save_chapter_text in Hrun. cbv zeta in Hrun.
    replace (or_else (pad4 a) (pad4 a)) with (pad4 a) in Hrun
      by (unfold or_else; now rewrite Hne).
    destruct (Hash.encode_utf8 (join [10] paras)) as [bytes|e] eqn:Henc; [|discriminate].
    cbn [bind] in Hrun. injection Hrun as <- <-.
    split; [reflexivity|]. split; [apply Hpre|]. split; [etransitivity; [apply f_equal, Hpre|apply pad4_value]|].
    split.
    + exists bytes. split; [reflexivity|]. apply lookup_insert_eq.
    + intros name Hname. now apply lookup_insert_ne.
  - intros e Hrun. unfold save_chapter_text in Hrun.
    destruct (Hash.encode_utf8 (join [10] paras)) as [bytes|e']; [discriminate|].
    cbn [bind] in Hrun. now injection Hrun as ->.
  - intros b Hb. apply pad4_injective.
    rewrite <- (Hpre a (pad4 a ++ lit ".txt")), <- (Hpre b (pad4 b ++ lit ".txt")).
    now rewrite Hb.
Qed.

(** ** The chapter index *)

Lemma chapters_index_spec (toc : list ChapterRef) :
  forall idx acc,
    (forall ch, In ch toc -> no ch <> 0) ->
    chap_list (chapters_index idx toc acc)
    = chap_list acc
      ++ List.map (fun ch => (no ch,
                              or_else (strip (or_else (ch_title ch) (chapter_label (no ch))))
                                      (chapter_label (no ch)),
                              pad4 (no ch))) toc
    /\ (forall key,
          (forall ch, In ch toc -> pad4 (no ch) <> key) ->
          source_map (chapters_index idx toc acc) !! key = source_map acc !! key)
    /\ (NoDup (List.map no toc) ->
        forall ch, In ch toc ->
          source_map (chapters_index idx toc acc) !! pad4 (no ch)
          = if truthy (href ch) then Some (href ch, site_id ch)
            else source_map acc !! pad4 (no ch)).
Proof.
  induction toc as [|c rest IH]; intros idx acc Hno.
  - cbn [chapters_index List.map]. rewrite List.app_nil_r.
    split; [reflexivity|]. split; [reflexivity|]. intros _ ch [].
  - cbn [chapters_index].
    assert (Hc : (no c =? 0) = false) by (apply N.eqb_neq, Hno; now left).
    rewrite Hc.
    match goal with
    | |- context [chapters_index _ rest ?A] =>
        destruct (IH (idx + 1) A (fun ch H => Hno ch (or_intror H)))
          as (Hlist & Hother & Hmap)
    end.
    split; [|split].
    + rewrite Hlist. cbn [chap_list List.map]. now rewrite <- List.app_assoc.
    + intros key Hkey. rewrite Hother by (intros ch H; apply Hkey; now right).
      cbn [source_map]. destruct (truthy (href c)); [|reflexivity].
      apply lookup_insert_ne. apply Hkey. now left.
    + intros Hnd ch Hin. cbn [List.map] in Hnd. apply NoDup_cons in Hnd as [Hfresh Hnd].
      destruct Hin as [<-|Hin].
      * rewrite Hother.
        -- cbn [source_map]. destruct (truthy (href c)); [|reflexivity].
           apply lookup_insert_eq.
        -- intros ch Hch Heq. apply pad4_injective in Heq. apply Hfresh.
           rewrite <- Heq. apply list_elem_of_In, List.in_map. exact Hch.
      * rewrite (Hmap Hnd ch Hin). destruct (truthy (href ch)); [reflexivity|].
        cbn [source_map]. destruct (truthy (href c)); [|reflexivity].
        apply lookup_insert_ne. intros Heq. apply pad4_injective in Heq.
        apply Hfresh. rewrite Heq. apply list_elem_of_In, List.in_map. exact Hin.
Qed.

Lemma chapter_label_nonempty (n : N) : chapter_label n <> [].
Proof. unfold chapter_label. vm_compute (lit "第"). discriminate. Qed.

Lemma clean_text_stripped (x : str) : strip (_clean_text x) = _clean_text x.
Proof.
  unfold _clean_text. destruct (negb (truthy x)); [reflexivity|apply strip_idempotent].
Qed.

Lemma chapter_label_stripped (n : N) :
  chapter_label n <> [] /\ strip (chapter_label n) = chapter_label n.
Proof.
  unfold chapter_label. change (lit "第") with [31532]. change (lit "章") with [31456].
  split; [discriminate|]. apply strip_fixed; [reflexivity|].
  intros a c H. rewrite List.app_assoc in H.
  apply List.app_inj_tail in H as [_ <-]. reflexivity.
Qed.

Lemma number_rows_titles (prelim : list Row) :
  forall i ch,
    In ch (number_rows i prelim) ->
    exists row j, In row prelim /\ ch_title ch = or_else (row_title row) (chapter_label j).
Proof.
  induction prelim as [|r t IH]; intros i ch Hin; cbn [number_rows] in Hin; [destruct Hin|].
  destruct Hin as [<-|Hin].
  - exists r, i. split; [now left|reflexivity].
  - destruct (IH _ _ Hin) as (row & j & Hrow & Ht). exists row, j. split; [now right|exact Ht].
Qed.

(** X7: the chapter index of a parsed table of contents.  For the non-empty
    list [parse_toc] returns, [write_chapters_index] writes a [chapters.json]
    with one entry per chapter, in order: the chapter's number (1, 2, ...),
    its title as the table of contents has it (never empty), and the
    zero-padded number as slug; the source map sends the slug of every chapter
    that has an href to that href and site id, and holds nothing else.
    Nothing else of the book directory changes, and an empty table of contents
    changes nothing at all. *)
Theorem chapters_index_of_parsed_toc (E : PyEnv) (html book_url : str)
    (toc : list ChapterRef) (d : BookDir) :
  parse_toc E html book_url = Return toc ->
  write_chapters_index d [] = d
  /\ (toc <> [] ->
      exists idx,
        write_chapters_index d toc
        = MkBookDir (meta_json d) (toc_json d) (Some idx) (chapters d)
        /\ chap_list idx = List.map (fun ch => (no ch, ch_title ch, pad4 (no ch))) toc
        /\ List.map no toc = List.map N.of_nat (seq 1 (length toc))
        /\ Forall (fun ch => ch_title ch <> []) toc
        /\ (forall ch, In ch toc ->
              source_map idx !! pad4 (no ch)
              = if truthy (href ch) then Some (href ch, site_id ch) else None)
        /\ (forall key, (forall ch, In ch toc -> pad4 (no ch) <> key) ->
              source_map idx !! key = None)).
Proof.
  intros Hrun. split; [reflexivity|]. intros Hne.
  unfold parse_toc in Hrun.
  destruct (toc_prelim E book_url (toc_anchors E html)) as [prelim|e] eqn:Hp;
    [|discriminate].
  cbn [bind] in Hrun. injection Hrun as <-.
  assert (Hnos : List.map no (number_rows 1 prelim)
                 = List.map N.of_nat (seq 1 (length (number_rows 1 prelim)))).
  { rewrite number_rows_length. apply number_rows_from_one. }
  assert (Hpos : forall ch, In ch (number_rows 1 prelim) -> no ch <> 0).
  { intros ch Hch. apply (List.in_map no) in Hch. rewrite Hnos in Hch.
    apply List.in_map_iff in Hch as (k & <- & Hk). apply List.in_seq in Hk. lia. }
  assert (Hnd : NoDup (List.map no (number_rows 1 prelim))).
  { rewrite Hnos. apply NoDup_fmap_2; [intros a b; lia|]. apply NoDup_ListNoDup, List.seq_NoDup. }
  assert (Htitle : forall ch, In ch (number_rows 1 prelim) ->
            ch_title ch <> [] /\ strip (ch_title ch) = ch_title ch).
  { intros ch Hch. apply number_rows_titles in Hch as (row & j & Hrow & ->).
    apply toc_prelim_survivors in Hp.
    assert (Hclean : exists a, row_title row = anchor_text a).
    { clear -Hp Hrow. induction Hp as [|a r kept rows (_ & Ht & _) _ IH]; [destruct Hrow|].
      destruct Hrow as [<-|Hrow]; [eauto|auto]. }
    destruct Hclean as (a & Ha). unfold or_else.
    destruct (truthy (row_title row)) eqn:Ht.
    - split; [now apply truthy_nonempty|]. rewrite Ha. apply clean_text_stripped.
    - apply chapter_label_stripped. }
  destruct (chapters_index_spec (number_rows 1 prelim) 1 (MkChapterIndex [] ∅) Hpos)
    as (Hlist & Hother & Hmap).
  exists (chapters_index 1 (number_rows 1 prelim) (MkChapterIndex [] ∅)).
  split; [|split; [|split; [|split; [|split]]]].
  - unfold write_chapters_index. destruct (number_rows 1 prelim); [contradiction|reflexivity].
  - rewrite Hlist. cbn [chap_list List.app]. apply List.map_ext_in. intros ch Hch.
    destruct (Htitle ch Hch) as [Hn Hs]. f_equal. f_equal.
    unfold or_else at 2. destruct (truthy (ch_title ch)) eqn:Ht.
    + rewrite Hs. unfold or_else. now rewrite Ht.
    + apply truthy_false in Ht. contradiction.
  - exact Hnos.
  - apply List.Forall_forall. intros ch Hch. now apply Htitle.
  - intros ch Hch. rewrite (Hmap Hnd ch Hch). cbn [source_map].
    destruct (truthy (href ch)); [reflexivity|apply lookup_empty].
  - intros key Hkey. rewrite (Hother key Hkey). apply lookup_empty.
Qed.

Lemma chapters_index_of_parsed_toc_witness :
  write_chapters_index empty_book_dir [] = empty_book_dir
  /\ (Examples.toc_7 <> [] ->
      exists idx,
        write_chapters_index empty_book_dir Examples.toc_7
        = MkBookDir (meta_json empty_book_dir) (toc_json empty_book_dir) (Some idx)
            (chapters empty_book_dir)
        /\ chap_list idx
           = List.map (fun ch => (no ch, ch_title ch, pad4 (no ch))) Examples.toc_7
        /\ List.map no Examples.toc_7
           = List.map N.of_nat (seq 1 (length Examples.toc_7))
        /\ Forall (fun ch => ch_title ch <> []) Examples.toc_7
        /\ (forall ch, In ch Examples.toc_7 ->
              source_map idx !! pad4 (no ch)
              = if truthy (href ch) then Some (href ch, site_id ch) else None)
        /\ (forall key, (forall ch, In ch Examples.toc_7 -> pad4 (no ch) <> key) ->
              source_map idx !! key = None)).
Proof.
  apply (chapters_index_of_parsed_toc Examples.env0 Examples.toc_page
           Examples.book_url_7 Examples.toc_7 empty_book_dir).
  vm_compute. reflexivity.
Defined.

(** ** The status of a book *)

Lemma or_chain_In (xs : list str) :
  or_chain xs = [] \/ In (or_chain xs) xs.
Proof.
  induction xs as [|x t IH]; cbn [or_chain]; [now left|].
  destruct (truthy x); [right; now left|]. destruct IH; [now left|right; now right].
Qed.

Lemma norm_status_cases (s : str) :
  _norm_status s = []
  \/ _norm_status s = lit "已完结"
  \/ _norm_status s = lit "连载中"
  \/ (_norm_status s = strip s
      /\ truthy (strip s) = true
      /\ contains (lit "完") (strip s) = false
      /\ contains (lit "连载") (strip s) = false).
Proof.
  unfold _norm_status. destruct (truthy (strip s)); cbn [negb]; [|now left].
  destruct (contains (lit "完") (strip s)); [right; now left|].
  destruct (contains (lit "连载") (strip s)); [right; right; now left|].
  right. right. right. auto.
Qed.

(** X8: the status of a book record is the empty string, one of the two
    canonical labels, or the page's own text with the white space at its ends
    removed, and then a text that holds neither marker.  A text that holds
    the completion marker gets the label of a finished book even when it also
    holds the marker of a running one.  Normalising a status again changes
    nothing. *)
Theorem status_is_normalised (sel : Selector) (s : str) :
  (_norm_status s = []
   \/ _norm_status s = lit "已完结"
   \/ _norm_status s = lit "连载中"
   \/ (_norm_status s = strip s
       /\ contains (lit "完") (strip s) = false
       /\ contains (lit "连载") (strip s) = false))
  /\ (contains (lit "完") s = true -> _norm_status s = lit "已完结")
  /\ _norm_status (_norm_status s) = _norm_status s
  /\ _norm_status (meta_status sel) = meta_status sel.
Proof.
  assert (Hidem : forall t, _norm_status (_norm_status t) = _norm_status t).
  { intros t. destruct (norm_status_cases t) as [H|[H|[H|(H & Ht & H1 & H2)]]];
      rewrite H; [vm_compute; reflexivity..|].
    unfold _norm_status. rewrite strip_idempotent, Ht, H1, H2. reflexivity. }
  split; [|split; [|split]].
  - destruct (norm_status_cases s) as [H|[H|[H|(H & _ & H1 & H2)]]]; auto.
    right. right. right. auto.
  - intros H. apply contains_spec in H as (a & b & ->).
    unfold _norm_status.
    assert (Hin : contains (lit "完") (strip (a ++ lit "完" ++ b)) = true).
    { change (lit "完") with [23436]. cbn [List.app].
      destruct (strip_sub (a ++ 23436 :: b)) as (l & r & Hs).
      destruct (lstrip_by_suffix is_space (a ++ 23436 :: b)) as (l' & Hl & Hsp).
      destruct (rstrip_by_prefix is_space (lstrip_by is_space (a ++ 23436 :: b)))
        as (r' & Hr & Hsp').
      fold (strip (a ++ 23436 :: b)) in Hr.
      rewrite Hr in Hl.
      (* the marker is no white space, so it lies in the middle part *)
      assert (Hmid : In 23436 (strip (a ++ 23436 :: b))).
      { assert (Hall : In 23436 (l' ++ strip (a ++ 23436 :: b) ++ r')).
        { rewrite <- Hl. apply List.in_or_app. right. now left. }
        apply List.in_app_or in Hall as [H|H].
        - exfalso. eapply List.Forall_forall in Hsp; [|exact H]. discriminate Hsp.
        - apply List.in_app_or in H as [H|H]; [exact H|].
          exfalso. eapply List.Forall_forall in Hsp'; [|exact H]. discriminate Hsp'. }
      apply List.in_split in Hmid as (x & y & Hxy). rewrite Hxy.
      apply contains_spec. exists x, y. reflexivity. }
    rewrite Hin.
    destruct (truthy (strip (a ++ lit "完" ++ b))) eqn:Ht; [reflexivity|].
    apply truthy_false in Ht. rewrite Ht in Hin. discriminate Hin.
  - apply Hidem.
  - unfold meta_status.
    match goal with |- context [or_chain ?l] => destruct (or_chain_In l) as [H|H] end.
    + rewrite H. reflexivity.
    + cbn [In] in H. destruct H as [H|[H|[H|[]]]]; rewrite <- H; apply Hidem.
Qed.

(** ** One book, one directory *)




(** ** Searching *)

Lemma match_at_sound (r : re) (s : str) (ma : bool) (st : nat) (m : rematch) :
  no_ref r = true ->
  match_at r s ma st = Some m ->
  m_start m = st
  /\ sem s r st [] (m_end m) (m_caps m)
  /\ (ma = true -> m_end m <> st).
Proof.
  unfold match_at. intros Hnr H.
  apply rmatch_sound in H as (j & c' & Hs & Hk); [|exact Hnr].
  destruct (ma && Nat.eqb j st) eqn:E; [discriminate|]. injection Hk as <-.
  cbn [m_start m_end m_caps]. split; [reflexivity|]. split; [exact Hs|].
  intros ->. cbn [andb] in E. now apply Nat.eqb_neq in E.
Qed.

Lemma match_at_complete (r : re) (s : str) (ma : bool) (st j : nat) (c : captures) :
  sem s r st [] j c ->
  (st <= length s)%nat ->
  (ma = true -> j <> st) ->
  exists m, match_at r s ma st = Some m.
Proof.
  intros Hs Hst Hma. unfold match_at.
  eapply (rmatch_complete s r st [] j c _ (MkMatch st j c) Hs); [|exact Hst].
  destruct ma; [|reflexivity]. cbn [andb].
  specialize (Hma eq_refl). apply Nat.eqb_neq in Hma. now rewrite Hma.
Qed.

Lemma search_from_spec (r : re) (s : str) :
  forall fuel ma st,
    match search_from r s fuel ma st with
    | Some m =>
        exists p, (st <= p <= st + fuel)%nat
                  /\ match_at r s (ma && Nat.eqb p st) p = Some m
                  /\ forall q, (st <= q < p)%nat ->
                               match_at r s (ma && Nat.eqb q st) q = None
    | None =>
        forall q, (st <= q <= st + fuel)%nat ->
                  match_at r s (ma && Nat.eqb q st) q = None
    end.
Proof.
  induction fuel as [|fuel IH]; intros ma st; cbn [search_from];
    destruct (match_at r s ma st) as [m|] eqn:Hm.
  - exists st. rewrite Nat.eqb_refl, andb_true_r. split; [lia|]. split; [exact Hm|].
    intros q Hq. lia.
  - intros q Hq. replace q with st by lia. now rewrite Nat.eqb_refl, andb_true_r.
  - exists st. rewrite Nat.eqb_refl, andb_true_r. split; [lia|]. split; [exact Hm|].
    intros q Hq. lia.
  - specialize (IH false (S st)).
    assert (Hoff : forall q, (S st <= q)%nat -> ma && Nat.eqb q st = false).
    { intros q Hq. replace (Nat.eqb q st) with false; [apply andb_false_r|].
      symmetry. apply Nat.eqb_neq. lia. }
    destruct (search_from r s fuel false (S st)) as [m|].
    + destruct IH as (p & Hp & Hat & Hbefore). exists p. split; [lia|].
      rewrite Hoff by lia. split; [exact Hat|].
      intros q Hq. destruct (Nat.eq_dec q st) as [->|Hne].
      * now rewrite Nat.eqb_refl, andb_true_r.
      * rewrite Hoff by lia. apply (Hbefore q). lia.
    + intros q Hq. destruct (Nat.eq_dec q st) as [->|Hne].
      * now rewrite Nat.eqb_refl, andb_true_r.
      * rewrite Hoff by lia. apply (IH q). lia.
Qed.

(** [re.search] finds a match exactly when the pattern has one somewhere in
    the subject, and the one it returns starts at the leftmost such place. *)
Lemma re_search_Some (r : re) (s : str) (m : rematch) :
  no_ref r = true ->
  re_search r s = Some m ->
  (m_start m <= length s)%nat
  /\ sem s r (m_start m) [] (m_end m) (m_caps m)
  /\ forall q j c, (q < m_start m)%nat -> ~ sem s r q [] j c.
Proof.
  intros Hnr H. unfold re_search in H.
  pose proof (search_from_spec r s (length s) false O) as Hspec. rewrite H in Hspec.
  destruct Hspec as (p & Hp & Hat & Hbefore). cbn [andb] in Hat, Hbefore.
  apply match_at_sound in Hat as (Hst & Hsem & _); [|exact Hnr].
  rewrite Hst. split; [lia|]. split; [exact Hsem|].
  intros q j c Hq Hs.
  destruct (match_at_complete r s false q j c Hs) as (m' & Hm'); [lia|discriminate|].
  rewrite Hbefore in Hm' by lia. discriminate.
Qed.

Lemma re_search_None (r : re) (s : str) :
  re_search r s = None ->
  forall q j c, (q <= length s)%nat -> ~ sem s r q [] j c.
Proof.
  intros H q j c Hq Hs. unfold re_search in H.
  pose proof (search_from_spec r s (length s) false O) as Hspec. rewrite H in Hspec.
  destruct (match_at_complete r s false q j c Hs Hq) as (m' & Hm'); [discriminate|].
  cbn [andb] in Hspec. rewrite Hspec in Hm' by lia. discriminate.
Qed.

Lemma re_search_matches (r : re) (s : str) :
  no_ref r = true ->
  is_match (re_search r s) = true
  <-> exists q j c, (q <= length s)%nat /\ sem s r q [] j c.
Proof.
  intros Hnr. split.
  - destruct (re_search r s) as [m|] eqn:H; [|discriminate]. intros _.
    apply re_search_Some in H as (Hle & Hs & _); [|exact Hnr]. eauto.
  - intros (q & j & c & Hq & Hs).
    destruct (re_search r s) as [m|] eqn:H; [reflexivity|].
    exfalso. exact (re_search_None r s H q j c Hq Hs).
Qed.

(** ** The language of the combinators *)

Lemma nth_error_lt {A : Type} (s : list A) (i : nat) (c : A) :
  nth_error s i = Some c -> (S i <= length s)%nat.
Proof. intros H. apply List.nth_error_Some. congruence. Qed.

Lemma occurs_at_nil (s : str) (i : nat) : occurs_at [] s i <-> (i <= length s)%nat.
Proof.
  unfold occurs_at. split.
  - intros (pre & post & -> & <-). rewrite List.length_app. lia.
  - intros Hi. exists (firstn i s), (skipn i s). cbn [List.app].
    split; [now rewrite List.firstn_skipn|rewrite List.length_firstn; lia].
Qed.

Lemma occurs_at_cons (c : N) (t s : str) (i : nat) :
  occurs_at (c :: t) s i <-> nth_error s i = Some c /\ occurs_at t s (S i).
Proof.
  unfold occurs_at. split.
  - intros (pre & post & -> & <-). split.
    + rewrite List.nth_error_app2 by lia. now rewrite Nat.sub_diag.
    + exists (pre ++ [c]), post. rewrite <- List.app_assoc, List.length_app. cbn. split; [reflexivity|lia].
  - intros (Hn & pre & post & -> & Hlen).
    destruct (List.exists_last (l := pre)) as (pre' & x & ->);
      [intros ->; discriminate Hlen|].
    rewrite List.length_app in Hlen. cbn [length] in Hlen.
    assert (Hi : length pre' = i) by lia.
    rewrite <- !List.app_assoc in Hn. cbn [List.app] in Hn.
    rewrite List.nth_error_app2, Hi, Nat.sub_diag in Hn by lia.
    injection Hn as ->. exists pre', post. rewrite <- !List.app_assoc. now split.
Qed.

Lemma occurs_at_bound (t s : str) (i : nat) :
  occurs_at t s i -> (i + length t <= length s)%nat.
Proof. intros (pre & post & -> & <-). rewrite !List.length_app. lia. Qed.

Lemma sem_chars (s : str) (f : N -> N -> bool) (p : str) :
  forall i c j c',
    (i <= length s)%nat ->
    sem s (chars f p) i c j c'
    <-> c' = c
        /\ exists t, occurs_at t s i
                     /\ Forall2 (fun a b => f a b = true) p t
                     /\ j = (i + length t)%nat.
Proof.
  assert (Hone : forall a i c j c',
            sem s (Chr (f a)) i c j c'
            <-> c' = c /\ exists t, occurs_at t s i
                                    /\ Forall2 (fun a b => f a b = true) [a] t
                                    /\ j = (i + length t)%nat).
  { intros a i c j c'. cbn [sem]. split.
    - intros (ch & Hn & Hf & -> & ->). split; [reflexivity|]. exists [ch].
      split; [|split; [repeat constructor; exact Hf|cbn; lia]].
      apply occurs_at_cons. split; [exact Hn|]. apply occurs_at_nil.
      eapply nth_error_lt; eassumption.
    - intros (-> & t & Hocc & Hall & ->).
      inversion Hall as [|a' ch l' t' Hf Hrest]; subst. inversion Hrest; subst.
      apply occurs_at_cons in Hocc as [Hn _]. exists ch. cbn. repeat split; auto. lia. }
  induction p as [|a p IH]; intros i c j c' Hi.
  - cbn [chars sem]. split.
    + intros [-> ->]. split; [reflexivity|]. exists []. split; [now apply occurs_at_nil|].
      split; [constructor|cbn; lia].
    + intros (-> & t & _ & Hall & ->). inversion Hall. cbn. split; [lia|reflexivity].
  - destruct p as [|b p]; [apply Hone|].
    change (chars f (a :: b :: p)) with (Seq (Chr (f a)) (chars f (b :: p))).
    cbn [sem]. split.
    + intros (m & cm & (ch & Hn & Hf & -> & ->) & Hrest).
      apply IH in Hrest as (-> & t & Hocc & Hall & ->);
        [|eapply nth_error_lt; eassumption].
      split; [reflexivity|]. exists (ch :: t).
      split; [now apply occurs_at_cons|]. split; [now constructor|cbn; lia].
    + intros (-> & t & Hocc & Hall & ->).
      inversion Hall as [|a' ch l' t' Hf Hrest]; subst.
      apply occurs_at_cons in Hocc as [Hn Hocc].
      exists (S i), c. split; [exists ch; auto|].
      apply IH; [eapply nth_error_lt; eassumption|].
      split; [reflexivity|]. exists t'. split; [exact Hocc|]. split; [exact Hrest|cbn; lia].
Qed.

Lemma sem_alts (s : str) (rs : list re) :
  rs <> [] ->
  forall i c j c',
    sem s (alts rs) i c j c' <-> exists r, In r rs /\ sem s r i c j c'.
Proof.
  induction rs as [|a rs IH]; intros Hne i c j c'; [contradiction|].
  destruct rs as [|b rs].
  - cbn [alts]. split; [intros H; exists a; split; [now left|exact H]|].
    intros (r & [<-|[]] & H). exact H.
  - change (alts (a :: b :: rs)) with (Alt a (alts (b :: rs))). cbn [sem].
    rewrite IH by discriminate. split.
    + intros [H|(r & Hr & H)]; [exists a; split; [now left|exact H]|].
      exists r. split; [now right|exact H].
    + intros (r & [<-|Hr] & H); [now left|right; eauto].
Qed.

(** The runs a repeat of one class matches. *)
Lemma iter_chr (s : str) (f : N -> bool) (lo : nat) (hi : option nat) :
  forall n i c j c',
    (i <= length s)%nat ->
    iter (sem s (Chr f)) lo hi n i c j c'
    <-> c' = c
        /\ exists t, occurs_at t s i
                     /\ Forall (fun x => f x = true) t
                     /\ j = (i + length t)%nat
                     /\ (lo <= n + length t)%nat
                     /\ (t = [] \/ match hi with
                                   | Some h => (n + length t <= h)%nat
                                   | None => True
                                   end).
Proof.
  intros n i c j c' Hi. split.
  - intros H. induction H as [n i c Hlo|n i c i' c1 j c2 Hhi Hstep Hne Hrest IH].
    + split; [reflexivity|]. exists []. split; [now apply occurs_at_nil|].
      split; [constructor|]. cbn. repeat split; try lia. now left.
    + cbn [sem] in Hstep. destruct Hstep as (ch & Hn & Hf & -> & ->).
      destruct IH as (-> & t & Hocc & Hall & -> & Hlo & Hhi');
        [eapply nth_error_lt; eassumption|].
      split; [reflexivity|]. exists (ch :: t).
      split; [now apply occurs_at_cons|]. split; [now constructor|].
      cbn [length]. split; [lia|]. split; [lia|]. right.
      destruct hi as [h|]; [|exact I]. cbn [below] in Hhi. apply Nat.ltb_lt in Hhi.
      destruct Hhi' as [->|Hh]; cbn [length] in *; lia.
  - intros (-> & t & Hocc & Hall & -> & Hlo & Hhi).
    revert n i Hi Hocc Hlo Hhi.
    induction Hall as [|ch t Hf Hall IH]; intros n i Hi Hocc Hlo Hhi.
    + cbn [length] in *. rewrite Nat.add_0_r in *. now constructor.
    + apply occurs_at_cons in Hocc as [Hn Hocc].
      apply (iter_step _ _ _ n i c (S i) c).
      * destruct hi as [h|]; [|reflexivity]. cbn [below]. apply Nat.ltb_lt.
        destruct Hhi as [Hnil|Hh]; [discriminate|]. cbn [length] in Hh. lia.
      * exists ch. auto.
      * lia.
      * replace (i + length (ch :: t))%nat with (S i + length t)%nat by (cbn; lia).
        apply IH; [eapply nth_error_lt; eassumption|exact Hocc|cbn [length] in Hlo; lia|].
        destruct Hhi as [Hnil|Hh]; [discriminate|]. right.
        destruct hi as [h|]; [|exact I]. cbn [length] in Hh. lia.
Qed.

(** ** Error pages *)

Lemma ci_refl (a : N) : ci a a = true.
Proof. unfold ci. now rewrite N.eqb_refl. Qed.

Lemma Forall2_ci_refl (p : str) : Forall2 (fun a b => ci a b = true) p p.
Proof. induction p; constructor; [apply ci_refl|assumption]. Qed.

(** X5: the error-page test.  A page is classified as an error or anti-bot
    page exactly when it is empty or holds one of the ten marker phrases
    somewhere, the letters of a phrase in either case.  So a page that holds a
    marker, whatever else it holds, is never accepted by the fetch loop: a
    chapter whose own text contains one of these words is retried and, in the
    end, handed on like any other last attempt. *)
Theorem error_page_markers (html : str) :
  (_looks_like_error_page html = true
   <-> html = []
       \/ exists m pre t post,
            In m error_markers
            /\ html = pre ++ t ++ post
            /\ Forall2 (fun a b => ci a b = true) (lit m) t)
  /\ (forall m pre post,
        In m error_markers ->
        html = pre ++ lit m ++ post ->
        _looks_like_error_page html = true /\ accepted (Body html) = false).
Proof.
  assert (Hmain : _looks_like_error_page html = true
    <-> html = []
        \/ exists m pre t post,
             In m error_markers
             /\ html = pre ++ t ++ post
             /\ Forall2 (fun a b => ci a b = true) (lit m) t).
  { unfold _looks_like_error_page.
    destruct (truthy html) eqn:Ht; cbn [negb].
    - change (match re_search re_error_page html with Some _ => true | None => false end)
        with (is_match (re_search re_error_page html)).
      rewrite re_search_matches by reflexivity.
      assert (Hne : html <> []) by (intros ->; discriminate).
      assert (Hmarkers : List.map ilits error_markers <> []) by discriminate.
      split.
      + intros (q & j & c & Hq & Hs). right.
        unfold re_error_page in Hs. cbn [sem] in Hs. destruct Hs as (c0 & Hs & _).
        apply (sem_alts html _ Hmarkers) in Hs as (r & Hr & Hs).
        apply List.in_map_iff in Hr as (m & <- & Hm).
        unfold ilits in Hs. apply sem_chars in Hs as (_ & t & (pre & post & Hocc & _) & Hall & _);
          [|exact Hq].
        exists m, pre, t, post. auto.
      + intros [H|(m & pre & t & post & Hm & Heq & Hall)]; [contradiction|].
        exists (length pre), (length pre + length t)%nat, [(1%nat, (length pre, (length pre + length t)%nat))].
        assert (Hq : (length pre <= length html)%nat)
          by (rewrite Heq, List.length_app; lia).
        split; [exact Hq|].
        unfold re_error_page. cbn [sem]. exists []. split; [|reflexivity].
        apply (sem_alts html _ Hmarkers). exists (ilits m).
        split; [now apply List.in_map|].
        unfold ilits. apply sem_chars; [exact Hq|]. split; [reflexivity|].
        exists t. split; [exists pre, post; now split|]. now split.
    - apply truthy_false in Ht. split; auto. }
  split; [exact Hmain|].
  intros m pre post Hm Heq.
  assert (Herr : _looks_like_error_page html = true).
  { apply Hmain. right. exists m, pre, (lit m), post.
    split; [exact Hm|]. split; [exact Heq|apply Forall2_ci_refl]. }
  split; [exact Herr|]. cbn [accepted]. rewrite Herr. apply andb_false_r.
Qed.

(** ** Book URLs *)

Lemma skipn_app_length {A : Type} (a l : list A) (k : nat) :
  skipn (length a + k) (a ++ l) = skipn k l.
Proof. induction a as [|x a IH]; cbn; auto. Qed.

Lemma occurs_at_skipn (t s : str) (i : nat) :
  occurs_at t s i -> skipn i s = t ++ skipn (i + length t) s.
Proof.
  intros (pre & post & -> & <-).
  rewrite (skipn_app_length pre (t ++ post) (length t)).
  rewrite <- (Nat.add_0_r (length pre)) at 1.
  rewrite (skipn_app_length pre (t ++ post) 0).
  rewrite <- (Nat.add_0_r (length t)), (skipn_app_length t post 0). reflexivity.
Qed.

(** X2: book URLs.  [_looks_like_book] accepts exactly the URLs that
    [urlparse] parses, whose netloc [_same_site] accepts, and whose path is
    [/book/], a non-empty run of decimal digits, and one of [/],
    [/index.html] and [.html], with letters in either case, the whole path or
    all of it but one final line feed.  The query and the fragment play no
    part; a chapter URL ([/book/1/2.html]) is no book; a URL that [urlparse]
    rejects is no book either, the exception being swallowed. *)
Theorem looks_like_book_shape (E : PyEnv) (u base_netloc : str) :
  (_looks_like_book E u base_netloc = true
   <-> exists p,
         urlparse E u = Return p
         /\ _same_site base_netloc (url_netloc p) = true
         /\ exists b d suf nl,
              url_path p = b ++ d ++ suf ++ nl
              /\ Forall2 (fun a c => ci a c = true) (lit "/book/") b
              /\ d <> []
              /\ Forall (fun c => is_decimal c = true) d
              /\ (Forall2 (fun a c => ci a c = true) (lit "/") suf
                  \/ Forall2 (fun a c => ci a c = true) (lit "/index.html") suf
                  \/ Forall2 (fun a c => ci a c = true) (lit ".html") suf)
              /\ (nl = [] \/ nl = [10]))
  /\ (forall e, urlparse E u = Raise e -> _looks_like_book E u base_netloc = false).
Proof.
  split; [|intros e He; unfold _looks_like_book; now rewrite He].
  unfold _looks_like_book.
  destruct (urlparse E u) as [p|e]; [|split; [discriminate|intros (p & H & _); discriminate]].
  destruct (_same_site base_netloc (url_netloc p)) eqn:Hsite; cbn [negb].
  2:{ split; [discriminate|]. intros (p' & Hp & Hs & _). injection Hp as <-. congruence. }
  rewrite re_search_matches by reflexivity.
  set (s := url_path p).
  assert (Hsuf : List.map ilits ["/"; "/index.html"; ".html"]%string <> []) by discriminate.
  split.
  - intros (q & j & c & Hq & Hs). exists p. split; [reflexivity|]. split; [exact Hsite|].
    unfold re_book_path in Hs. cbn [seqs sem] in Hs.
    destruct Hs as (m1 & c1 & (-> & -> & ->) & m2 & c2 & Hbook & m3 & c3 & Hdig
                    & m4 & c4 & Halt & Hend & -> & ->).
    unfold ilits in Hbook. apply sem_chars in Hbook as (-> & b & Hb & Hbci & ->); [|lia].
    pose proof (occurs_at_bound _ _ _ Hb) as Hbb.
    unfold plus in Hdig. cbn [sem] in Hdig.
    apply iter_chr in Hdig as (-> & d & Hd & Hdd & -> & Hdn & _); [|lia].
    pose proof (occurs_at_bound _ _ _ Hd) as Hdb.
    change (alts [ilits "/"; ilits "/index.html"; ilits ".html"])
      with (alts (List.map ilits ["/"; "/index.html"; ".html"]%string)) in Halt.
    apply (sem_alts s _ Hsuf) in Halt as (r & Hr & Halt).
    apply List.in_map_iff in Hr as (suffix & <- & Hsuffix).
    unfold ilits in Halt. apply sem_chars in Halt as (-> & suf & Hsf & Hsci & ->); [|lia].
    exists b, d, suf, (skipn (0 + length b + length d + length suf) s).
    split; [|split; [exact Hbci|split; [|split; [exact Hdd|split; [|exact Hend]]]]].
    + rewrite <- (occurs_at_skipn _ _ _ Hsf), <- (occurs_at_skipn _ _ _ Hd).
      now rewrite <- (occurs_at_skipn _ _ _ Hb).
    + intros ->. cbn in Hdn. lia.
    + cbn [In] in Hsuffix. destruct Hsuffix as [<-|[<-|[<-|[]]]]; auto.
  - intros (p' & Hp & _ & b & d & suf & nl & Hpath & Hbci & Hdne & Hdd & Hsci & Hnl).
    injection Hp as <-. fold s in Hpath.
    exists O, (length b + length d + length suf)%nat, [].
    split; [lia|].
    assert (Hlen : length s = (length b + length d + length suf + length nl)%nat)
      by (rewrite Hpath, !List.length_app; lia).
    unfold re_book_path. cbn [seqs sem].
    exists O, []. split; [auto|].
    exists (length b), []. split.
    { unfold ilits. apply sem_chars; [lia|]. split; [reflexivity|]. exists b.
      split; [exists [], (d ++ suf ++ nl); now split|]. now split. }
    exists (length b + length d)%nat, []. split.
    { unfold plus. cbn [sem]. apply iter_chr; [lia|]. split; [reflexivity|].
      exists d. split; [exists b, (suf ++ nl); now split|].
      split; [exact Hdd|]. split; [reflexivity|].
      split; [destruct d; [contradiction|cbn; lia]|now right]. }
    exists (length b + length d + length suf)%nat, []. split.
    { change (alts [ilits "/"; ilits "/index.html"; ilits ".html"])
        with (alts (List.map ilits ["/"; "/index.html"; ".html"]%string)).
      apply (sem_alts s _ Hsuf).
      assert (Hocc : occurs_at suf s (length b + length d)).
      { exists (b ++ d), nl. rewrite <- List.app_assoc, List.length_app. now split. }
      destruct Hsci as [H|[H|H]];
        [exists (ilits "/")|exists (ilits "/index.html")|exists (ilits ".html")];
        (split; [cbn [List.map In]; auto|]);
        (unfold ilits; apply sem_chars; [lia|]; split; [reflexivity|];
         exists suf; split; [exact Hocc|]; now split). }
    split; [|auto].
    replace (skipn (length b + length d + length suf) s) with nl; [exact Hnl|].
    rewrite Hpath, !List.app_assoc, List.skipn_app, List.skipn_all2
      by (rewrite !List.length_app; lia).
    rewrite !List.length_app.
    replace (_ - _)%nat with O by lia. reflexivity.
Qed.

(** ** Listing the books of a category page *)

Lemma collect_books_inv (E : PyEnv) (base_url base_netloc : str) (hrefs : list str) :
  forall out seen books,
    collect_books E base_url base_netloc hrefs out seen = Return books ->
    (forall u, u ∈ seen <-> In u out) ->
    List.NoDup out ->
    exists urls more,
      Forall2 (fun h u => urljoin E base_url h = Return u) hrefs urls
      /\ books = out ++ more
      /\ List.NoDup books
      /\ (forall u, In u more
                    <-> ~ In u out /\ In u urls
                        /\ _looks_like_book E u base_netloc = true)
      /\ sublist more urls.
Proof.
  induction hrefs as [|h rest IH]; intros out seen books Hrun Hseen Hnd;
    cbn [collect_books] in Hrun.
  - injection Hrun as <-. exists [], []. rewrite List.app_nil_r.
    split; [constructor|]. split; [reflexivity|]. split; [exact Hnd|].
    split; [|constructor]. intros u. split; [intros []|intros (_ & [] & _)].
  - destruct (urljoin E base_url h) as [u|e] eqn:Hu; [|discriminate]. cbn [bind] in Hrun.
    destruct (_looks_like_book E u base_netloc && negb (bool_decide (u ∈ seen))) eqn:Hk.
    + apply andb_prop in Hk as [Hbook Hnew].
      apply negb_true_iff, bool_decide_eq_false in Hnew.
      assert (Hfresh : ~ In u out) by (intros H; apply Hnew, Hseen, H).
      apply IH in Hrun as (urls & more & Hall & -> & Hnd' & Hmore & Hsub).
      * exists (u :: urls), (u :: more). split; [now constructor|].
        split; [now rewrite <- List.app_assoc|]. split; [exact Hnd'|].
        split; [|now constructor].
        intros x. cbn [In]. rewrite Hmore, List.in_app_iff. cbn [In]. split.
        -- intros [<-|(Hx & Hin & Hb)]; [auto|]. split; [tauto|]. auto.
        -- intros (Hx & [<-|Hin] & Hb); [now left|].
           destruct (decide (u = x)) as [->|Hne]; [now left|].
           right. split; [|auto]. intros [H|[H|[]]]; [contradiction|congruence].
      * intros x. rewrite elem_of_union, elem_of_singleton, Hseen, List.in_app_iff.
        cbn [In]. split; intros [H|H]; auto. destruct H as [H|[]]; auto.
      * apply List.NoDup_app; [exact Hnd|repeat constructor; intros []|].
        intros x Hx [<-|[]]. contradiction.
    + apply IH in Hrun as (urls & more & Hall & -> & Hnd' & Hmore & Hsub);
        [|exact Hseen|exact Hnd].
      exists (u :: urls), more. split; [now constructor|]. split; [reflexivity|].
      split; [exact Hnd'|]. split; [|now constructor].
      intros x. rewrite Hmore. cbn [In]. split; [intros (Hx & Hin & Hb); auto|].
      intros (Hx & [<-|Hin] & Hb); [|auto]. exfalso.
      rewrite Hb in Hk. cbn [andb] in Hk.
      apply negb_false_iff, bool_decide_eq_true in Hk. apply Hx, Hseen, Hk.
Qed.



(** ** Paged categories *)

Lemma firstn_In {A : Type} (n : nat) (l : list A) (x : A) : In x (firstn n l) -> In x l.
Proof.
  revert n. induction l as [|a l IH]; intros [|n] H; cbn in *; try contradiction.
  destruct H as [H|H]; [now left|right; eauto].
Qed.

Lemma firstn_NoDup {A : Type} (n : nat) (l : list A) :
  List.NoDup l -> List.NoDup (firstn n l).
Proof.
  intros H. revert n. induction H as [|a l Hin Hnd IH]; intros [|n]; cbn; try constructor.
  - intros Hx. apply Hin. eapply firstn_In. exact Hx.
  - apply IH.
Qed.

Lemma list_books_are_books (E : PyEnv) (html base_url : str) (books : list str) :
  list_books_in_category E html base_url = Return books ->
  List.NoDup books
  /\ exists p, urlparse E base_url = Return p
               /\ forall u, In u books -> _looks_like_book E u (url_netloc p) = true.
Proof.
  unfold list_books_in_category. intros Hrun.
  destruct (urlparse E base_url) as [p|e]; [|discriminate]. cbn [bind] in Hrun.
  apply collect_books_inv in Hrun as (urls & more & _ & -> & Hnd & Hmore & _).
  - split; [exact Hnd|]. exists p. split; [reflexivity|].
    intros u Hu. cbn [List.app] in Hu. now apply Hmore in Hu.
  - intros u. rewrite elem_of_empty. cbn [In]. tauto.
  - constructor.
Qed.

Section Paging.
Variables (E : PyEnv) (P : Pager) (cat_url : str) (max_books : Z).

Lemma take_items_inv (items : list str) :
  forall st,
    paging_inv E cat_url max_books st ->
    (forall u, In u items -> category_book E cat_url u) ->
    match take_items max_books items st with
    | inl r => paged_result E cat_url max_books r
    | inr st' =>
        paging_inv E cat_url max_books st'
        /\ (length (pg_found st) + (pg_hit st' - pg_hit st) <= length (pg_found st'))%nat
        /\ (pg_hit st <= pg_hit st')%nat
        /\ pg_fetched st' = pg_fetched st
    end.
Proof.
  induction items as [|it rest IH]; intros st Hinv Hgood; cbn [take_items].
  - split; [exact Hinv|]. repeat split; lia.
  - destruct (bool_decide (it ∈ pg_seen st)) eqn:Hseen.
    + apply IH; [exact Hinv|]. intros u Hu. apply Hgood. now right.
    + apply bool_decide_eq_false in Hseen.
      destruct Hinv as (Hset & Hnd & Hall & Hpos & Hneg).
      assert (Hfresh : ~ In it (pg_found st)) by (intros H; apply Hseen, Hset, H).
      assert (Hnd' : List.NoDup (pg_found st ++ [it])).
      { apply List.NoDup_app; [exact Hnd|repeat constructor; intros []|].
        intros x Hx [<-|[]]. contradiction. }
      assert (Hall' : forall u, In u (pg_found st ++ [it]) -> category_book E cat_url u).
      { intros u Hu. apply List.in_app_or in Hu as [Hu|[<-|[]]]; [auto|].
        apply Hgood. now left. }
      cbn [pg_found pg_seen pg_hit pg_fetched].
      destruct (negb (max_books =? 0)%Z
                && (max_books <=? Z.of_nat (length (pg_found st ++ [it])))%Z) eqn:Hfull.
      * apply andb_prop in Hfull as [Hnz Hle].
        apply negb_true_iff, Z.eqb_neq in Hnz. apply Z.leb_le in Hle.
        rewrite List.length_app in Hle. cbn [length] in Hle.
        unfold paged_result, slice_to. destruct (Z.leb_spec 0 max_books) as [Hp|Hn].
        -- split; [now apply firstn_NoDup|]. split; [intros u Hu; eapply Hall', firstn_In, Hu|].
           split; [|lia]. intros _. rewrite List.length_firstn. lia.
        -- rewrite (Hneg Hn). cbn [List.app length].
           replace (1 - Z.to_nat (- max_books))%nat with O by lia. cbn [firstn].
           repeat split; try constructor; try lia; intros u [].
      * match goal with
        | |- match take_items _ _ ?S with _ => _ end =>
            specialize (IH S); cbn [pg_found pg_seen pg_hit pg_fetched] in IH
        end.
        apply andb_false_iff in Hfull.
        assert (Hinv' : paging_inv E cat_url max_books (MkPaging (pg_found st ++ [it]) ({[it]} ∪ pg_seen st)
                               (S (pg_hit st)) (pg_fetched st))).
        { unfold paging_inv. cbn [pg_found pg_seen].
          split; [|split; [exact Hnd'|split; [exact Hall'|split]]].
          - intros u. rewrite elem_of_union, elem_of_singleton, Hset, List.in_app_iff.
            cbn [In]. split; intros [H|H]; auto. destruct H as [H|[]]; auto.
          - intros Hp. destruct Hfull as [Hz|Hlt].
            + apply negb_false_iff, Z.eqb_eq in Hz. lia.
            + apply Z.leb_gt in Hlt. exact Hlt.
          - intros Hn. exfalso. destruct Hfull as [Hz|Hlt].
            + apply negb_false_iff, Z.eqb_eq in Hz. lia.
            + apply Z.leb_gt in Hlt. lia. }
        specialize (IH Hinv' (fun u Hu => Hgood u (or_intror Hu))).
        destruct (take_items max_books rest _) as [r|st']; [exact IH|].
        destruct IH as (Hi & Hlen & Hhit & Hf). split; [exact Hi|].
        rewrite List.length_app in Hlen. cbn [length] in Hlen.
        repeat split; try lia. exact Hf.
Qed.

Lemma try_templates_inv (root : str) (n : N) (ts : list (str * str)) :
  forall st,
    paging_inv E cat_url max_books st ->
    match try_templates E P cat_url root max_books n ts st with
    | Raise _ => True
    | Return (inl (r, f)) =>
        paged_result E cat_url max_books r
        /\ (existsb (one_of (lit "{}")) root = false ->
            exists k, (k <= length ts)%nat
                      /\ f = pg_fetched st ++ List.map (page_url root n) (firstn k ts))
    | Return (inr st') =>
        paging_inv E cat_url max_books st'
        /\ (length (pg_found st) + (pg_hit st' - pg_hit st) <= length (pg_found st'))%nat
        /\ (pg_hit st <= pg_hit st')%nat
        /\ (existsb (one_of (lit "{}")) root = false ->
            pg_fetched st' = pg_fetched st ++ List.map (page_url root n) ts)
    end.
Proof.
  induction ts as [|t rest IH]; intros st Hinv; cbn [try_templates].
  - split; [exact Hinv|]. repeat split; try lia. intros _. cbn. now rewrite List.app_nil_r.
  - destruct (format_n P root t n) as [url|e] eqn:Hfmt; [|exact I]. cbn [bind].
    assert (Hurl : existsb (one_of (lit "{}")) root = false -> url = page_url root n t).
    { intros Hb. unfold format_n in Hfmt. rewrite Hb in Hfmt. now injection Hfmt as <-. }
    set (st1 := MkPaging (pg_found st) (pg_seen st) (pg_hit st) (pg_fetched st ++ [url])).
    assert (Hinv1 : paging_inv E cat_url max_books st1) by exact Hinv.
    assert (Hstep : forall st2,
              paging_inv E cat_url max_books st2 ->
              (length (pg_found st) + (pg_hit st2 - pg_hit st) <= length (pg_found st2))%nat ->
              (pg_hit st <= pg_hit st2)%nat ->
              pg_fetched st2 = pg_fetched st ++ [url] ->
              match try_templates E P cat_url root max_books n rest st2 with
              | Raise _ => True
              | Return (inl (r, f)) =>
                  paged_result E cat_url max_books r
                  /\ (existsb (one_of (lit "{}")) root = false ->
                      exists k, (k <= length (t :: rest))%nat
                                /\ f = pg_fetched st
                                       ++ List.map (page_url root n) (firstn k (t :: rest)))
              | Return (inr st') =>
                  paging_inv E cat_url max_books st'
                  /\ (length (pg_found st) + (pg_hit st' - pg_hit st)
                      <= length (pg_found st'))%nat
                  /\ (pg_hit st <= pg_hit st')%nat
                  /\ (existsb (one_of (lit "{}")) root = false ->
                      pg_fetched st' = pg_fetched st
                                       ++ List.map (page_url root n) (t :: rest))
              end).
    { intros st2 Hinv2 Hlen2 Hhit2 Hf2. specialize (IH st2 Hinv2).
      destruct (try_templates E P cat_url root max_books n rest st2) as [[[r f]|st']|e];
        [| |exact I].
      - destruct IH as (Hfin & Hfetch). split; [exact Hfin|]. intros Hb.
        destruct (Hfetch Hb) as (k & Hk & ->). exists (S k). split; [cbn; lia|].
        rewrite Hf2, (Hurl Hb), <- List.app_assoc. reflexivity.
      - destruct IH as (Hi & Hlen & Hhit & Hfetch). split; [exact Hi|].
        split; [lia|]. split; [lia|]. intros Hb.
        rewrite (Hfetch Hb), Hf2, (Hurl Hb), <- List.app_assoc. reflexivity. }
    destruct (page_fetch P (length (pg_fetched st)) url) as [body|].
    + destruct (list_books_in_category E body cat_url) as [items|e] eqn:Hitems; [|exact I].
      cbn [bind]. apply list_books_are_books in Hitems as (_ & p & Hp & Hbooks).
      pose proof (take_items_inv items st1 Hinv1) as Htake.
      fold st1.
      destruct (take_items max_books items st1) as [r|st2].
      * split; [apply Htake; intros u Hu; exists p; auto|].
        intros Hb. exists 1%nat. split; [cbn; lia|]. cbn [pg_fetched st1].
        now rewrite (Hurl Hb).
      * destruct Htake as (Hi & Hlen & Hhit & Hf); [intros u Hu; exists p; auto|].
        apply Hstep; auto.
    + apply (Hstep st1); auto; cbn; lia.
Qed.

Lemma paged_loop_inv (root : str) (rounds : nat) :
  forall (done : nat) found seen fetched books urls,
    paging_inv E cat_url max_books (MkPaging found seen O fetched) ->
    (existsb (one_of (lit "{}")) root = false ->
     fetched = page_requests root done) ->
    paged_loop E P cat_url root max_books rounds (N.of_nat (S done)) found seen fetched
    = Some (Return (books, urls)) ->
    paged_result E cat_url max_books books
    /\ (existsb (one_of (lit "{}")) root = false ->
        exists k pages,
          urls = firstn k (page_requests root pages)).
Proof.
  induction rounds as [|rounds IH]; intros done found seen fetched books urls Hinv Hreq Hrun;
    cbn [paged_loop] in Hrun; [discriminate|].
  replace (N.of_nat (S done) + 1) with (N.of_nat (2 + done)) in Hrun by lia.
  pose proof (try_templates_inv root (N.of_nat (2 + done)) page_templates _ Hinv) as Hround.
  assert (Hnext : existsb (one_of (lit "{}")) root = false ->
            fetched ++ List.map (page_url root (N.of_nat (2 + done))) page_templates
            = page_requests root (S done)).
  { intros Hb. unfold page_requests. rewrite List.seq_S, List.map_app.
    rewrite List.flat_map_app. cbn [List.map flat_map Nat.add].
    rewrite List.app_nil_r. now rewrite (Hreq Hb). }
  destruct (try_templates E P cat_url root max_books (N.of_nat (2 + done)) page_templates _)
    as [[[r f]|st']|e]; [| |discriminate].
  - injection Hrun as <- <-. destruct Hround as (Hfin & Hfetch). split; [exact Hfin|].
    intros Hb. destruct (Hfetch Hb) as (k & Hk & ->). cbn [pg_fetched].
    exists (length fetched + k)%nat, (S done). rewrite <- (Hnext Hb).
    rewrite List.firstn_app, (List.firstn_all2 (n := length fetched + k) fetched) by lia.
    replace (length fetched + k - length fetched)%nat with k by lia.
    now rewrite List.firstn_map.
  - destruct Hround as (Hi & Hlen & Hhit & Hfetch). cbn [pg_found pg_hit pg_fetched] in *.
    destruct (pg_hit st') as [|h] eqn:Hh.
    + injection Hrun as <- <-. split.
      * destruct Hi as (_ & Hnd & Hall & Hpos & Hneg). unfold paged_result.
        split; [exact Hnd|]. split; [exact Hall|]. split; [|exact Hneg].
        intros Hp. specialize (Hpos Hp). lia.
      * intros Hb. exists (length (pg_fetched st')), (S done).
        rewrite (Hfetch Hb), (Hnext Hb). now rewrite List.firstn_all.
    + apply (IH (S done)) in Hrun; [exact Hrun| |].
      * destruct Hi as (Hset & Hnd & Hall & Hpos & Hneg). unfold paging_inv.
        cbn [pg_found pg_seen]. auto.
      * intros Hb. rewrite (Hfetch Hb). now apply Hnext.
Qed.

Lemma paged_loop_ends (root : str) (rounds : nat) :
  forall n found seen fetched,
    paging_inv E cat_url max_books (MkPaging found seen O fetched) ->
    (0 < max_books)%Z ->
    (max_books <= Z.of_nat (length found) + Z.of_nat rounds)%Z ->
    paged_loop E P cat_url root max_books rounds n found seen fetched <> None.
Proof.
  induction rounds as [|rounds IH]; intros n found seen fetched Hinv Hpos Hfuel.
  - destruct Hinv as (_ & _ & _ & Hlt & _). specialize (Hlt Hpos).
    cbn [pg_found] in Hlt. lia.
  - cbn [paged_loop].
    pose proof (try_templates_inv root (n + 1) page_templates _ Hinv) as Hround.
    destruct (try_templates E P cat_url root max_books (n + 1) page_templates _)
      as [[[r f]|st']|e]; try discriminate.
    destruct Hround as (Hi & Hlen & Hhit & _). cbn [pg_found pg_hit] in *.
    destruct (pg_hit st') as [|h] eqn:Hh; [discriminate|].
    apply IH; [|exact Hpos|lia].
    destruct Hi as (Hset & Hnd & Hall & Hp & Hneg). unfold paging_inv. cbn [pg_found pg_seen]. auto.
Qed.

End Paging.

(** X4: the template crawl of a category.  When [try_paged_category] returns a
    list, the list has no duplicates and holds only URLs that
    [_looks_like_book] accepts for the site of the category URL; under a
    positive [max_books] it is no longer than that, and under a negative one
    it is empty.  Over a root without braces the requests are a prefix of the
    fixed sequence that asks for pages 2, 3, ... with the four templates in
    turn: page 1 is never asked for again.  With a positive [max_books] the
    loop returns or raises within that many rounds. *)
Theorem paged_category_result (E : PyEnv) (P : Pager) (rounds : nat) (cat_url : str)
    (max_books : Z) :
  (forall books urls,
      try_paged_category E P rounds cat_url max_books = Some (Return (books, urls)) ->
      List.NoDup books
      /\ (forall u, In u books -> category_book E cat_url u)
      /\ ((0 < max_books)%Z -> (Z.of_nat (length books) <= max_books)%Z)
      /\ ((max_books < 0)%Z -> books = [])
      /\ (existsb (one_of (lit "{}")) (_category_root cat_url) = false ->
          exists k pages,
            urls = firstn k (page_requests (_category_root cat_url) pages)))
  /\ ((0 < max_books)%Z ->
      (Z.to_nat max_books <= rounds)%nat ->
      try_paged_category E P rounds cat_url max_books <> None).
Proof.
  assert (Hstart : paging_inv E cat_url max_books (MkPaging [] ∅ O [])).
  { unfold paging_inv. cbn [pg_found pg_seen].
    split; [intros u; rewrite elem_of_empty; cbn [In]; tauto|].
    split; [constructor|]. split; [intros u []|]. split; [cbn; lia|reflexivity]. }
  unfold try_paged_category. split.
  - intros books urls Hrun.
    change 1 with (N.of_nat 1) in Hrun.
    apply (paged_loop_inv E P cat_url max_books (_category_root cat_url) rounds O)
      in Hrun as ((Hnd & Hall & Hpos & Hneg) & Hreq); [|exact Hstart|reflexivity].
    auto.
  - intros Hpos Hfuel. apply paged_loop_ends; [exact Hstart|exact Hpos|cbn [length]; lia].
Qed.

Lemma paged_category_result_witness :
  exists books urls,
    try_paged_category Examples.env0 Examples.pager_once 5 Examples.category_url 0
    = Some (Return (books, urls))
    /\ books = [lit "http://h.example/book/1/"; lit "http://h.example/book/2.html"]
    /\ List.NoDup books
    /\ length urls = 8%nat.
Proof.
  eexists. eexists. split; [vm_compute; reflexivity|].
  split; [reflexivity|]. split; [|reflexivity].
  destruct (paged_category_result Examples.env0 Examples.pager_once 5
              Examples.category_url 0) as [H _].
  refine (proj1 (H _ _ _)). vm_compute. reflexivity.
Defined.

(** ** Greedy repeats of one class *)

Lemma take_by_lstrip (f : N -> bool) (s : str) : s = take_by f s ++ lstrip_by f s.
Proof.
  induction s as [|c t IH]; cbn [take_by lstrip_by]; [reflexivity|].
  destruct (f c); [cbn [List.app]; now rewrite <- IH|reflexivity].
Qed.

Lemma take_by_all (f : N -> bool) (s : str) : Forall (fun c => f c = true) (take_by f s).
Proof.
  induction s as [|c t IH]; cbn [take_by]; [constructor|].
  destruct (f c) eqn:Hc; [now constructor|constructor].
Qed.

Lemma skipn_take_by (f : N -> bool) (s : str) :
  skipn (length (take_by f s)) s = lstrip_by f s.
Proof.
  induction s as [|c t IH]; cbn [take_by lstrip_by]; [reflexivity|].
  destruct (f c); [exact IH|reflexivity].
Qed.

Lemma take_by_app (f : N -> bool) (t rest : str) :
  Forall (fun c => f c = true) t -> take_by f (t ++ rest) = t ++ take_by f rest.
Proof.
  induction 1 as [|c t Hc _ IH]; [reflexivity|]. cbn [List.app take_by].
  now rewrite Hc, IH.
Qed.

Lemma rmatch_Chr {R : Type} (s : str) (f : N -> bool) (i : nat) (rest : str)
    (caps : captures) (k : nat -> str -> captures -> option R) :
  rmatch s (Chr f) i rest caps k
  = match rest with
    | c :: rest' => if f c then k (S i) rest' caps else None
    | [] => None
    end.
Proof. reflexivity. Qed.

(** A greedy repeat of one class hands the longest run to what follows
    before it tries any shorter one. *)
Lemma rep_chr_greedy {R : Type} (s : str) (f : N -> bool) (lo : nat)
    (k : nat -> str -> captures -> option R) (caps : captures) (x : R) :
  forall rest fuel n i,
    (length rest < fuel)%nat ->
    (lo <= n + length (take_by f rest))%nat ->
    k (i + length (take_by f rest))%nat (lstrip_by f rest) caps = Some x ->
    rep_loop (rmatch s (Chr f)) true lo None k fuel n i rest caps = Some x.
Proof.
  induction rest as [|c t IH]; intros fuel n i Hfuel Hlo Hk;
    rewrite rep_loop_unfold; cbv zeta; (destruct fuel as [|fuel]; [cbn in Hfuel; lia|]);
    cbn [below]; rewrite rmatch_Chr.
  - cbn [take_by lstrip_by length] in *. rewrite Nat.add_0_r in *.
    apply Nat.leb_le in Hlo. now rewrite Hlo.
  - cbn [take_by lstrip_by] in *. destruct (f c) eqn:Hc.
    + replace (Nat.eqb (S i) i) with false by (symmetry; apply Nat.eqb_neq; lia).
      rewrite (IH fuel (S n) (S i)); [reflexivity|cbn in Hfuel; lia| |].
      * cbn [length] in Hlo. lia.
      * cbn [length] in Hk. now replace (S i + length (take_by f t))%nat
          with (i + S (length (take_by f t)))%nat by lia.
    + cbn [length] in *. rewrite Nat.add_0_r in *.
      apply Nat.leb_le in Hlo. now rewrite Hlo.
Qed.



(** ** Splitting and substituting *)

Lemma In_slice (s : str) (a b : nat) (x : N) :
  In x (slice a b s) -> exists q, (a <= q < b)%nat /\ nth_error s q = Some x.
Proof.
  unfold slice. intros H. apply List.In_nth_error in H as (i & Hi).
  assert (Hlt : (i < b - a)%nat).
  { apply nth_error_lt in Hi.
    rewrite List.length_firstn in Hi. lia. }
  rewrite List.nth_error_firstn in Hi.
  destruct (Nat.ltb_spec i (b - a)) as [_|Hge]; [|lia].
  rewrite List.nth_error_skipn in Hi. exists (a + i)%nat. split; [lia|exact Hi].
Qed.

Lemma In_skipn (s : str) (a : nat) (x : N) :
  In x (skipn a s) -> exists q, (a <= q)%nat /\ nth_error s q = Some x.
Proof.
  intros H. apply List.In_nth_error in H as (i & Hi).
  rewrite List.nth_error_skipn in Hi. exists (a + i)%nat. split; [lia|exact Hi].
Qed.

Lemma split_loop_nonempty (r : re) (s : str) (fuel last pos : nat) (ma : bool) :
  split_loop r s fuel last pos ma <> [].
Proof. destruct fuel; cbn [split_loop]; [discriminate|]. destruct (search_from _ _ _ _ _); discriminate. Qed.

Lemma join_cons (sep p : str) (ps : list str) :
  ps <> [] -> join sep (p :: ps) = p ++ sep ++ join sep ps.
Proof. destruct ps; [contradiction|reflexivity]. Qed.

Lemma sub_loop_join (r : re) (repl s : str) :
  forall fuel pos ma,
    sub_loop r repl s fuel pos ma = join repl (split_loop r s fuel pos pos ma).
Proof.
  induction fuel as [|fuel IH]; intros pos ma; cbn [sub_loop split_loop]; [reflexivity|].
  destruct (search_from r s (length s - pos) ma pos) as [m|]; [|reflexivity].
  rewrite join_cons by apply split_loop_nonempty. now rewrite IH.
Qed.

(** [re.sub(r, repl, s)] is [repl.join(re.split(r, s))]. *)
Lemma re_sub_join (r : re) (repl s : str) :
  re_sub r repl s = join repl (re_split r s).
Proof. apply sub_loop_join. Qed.

Section Splitting.
Variables (r : re) (s : str).
Hypothesis no_backreference : no_ref r = true.
Hypothesis never_empty : forall i c j c', sem s r i c j c' -> j <> i.

(** The pieces between the matches hold no place where a match starts. *)
Lemma split_loop_pieces (P : N -> Prop) :
  (forall q ch, nth_error s q = Some ch -> P ch \/ exists j c', sem s r q [] j c') ->
  forall fuel pos,
    (pos <= length s)%nat ->
    (length s - pos < fuel)%nat ->
    Forall (Forall P) (split_loop r s fuel pos pos false).
Proof.
  intros Hbad.
  assert (Hfree : forall q ch,
            (q <= length s)%nat -> match_at r s false q = None ->
            nth_error s q = Some ch -> P ch).
  { intros q ch Hq Hnone Hch. destruct (Hbad q ch Hch) as [H|(j & c' & Hs)]; [exact H|].
    destruct (match_at_complete r s false q j c' Hs Hq) as (m & Hm); [discriminate|].
    congruence. }
  induction fuel as [|fuel IH]; intros pos Hpos Hfuel; [lia|]. cbn [split_loop].
  pose proof (search_from_spec r s (length s - pos) false pos) as Hspec.
  destruct (search_from r s (length s - pos) false pos) as [m|].
  - destruct Hspec as (p & Hp & Hat & Hbefore). cbn [andb] in Hat, Hbefore.
    apply match_at_sound in Hat as (Hst & Hsem & _); [|exact no_backreference].
    pose proof (never_empty _ _ _ _ Hsem) as Hne.
    pose proof (sem_mono s r _ _ _ _ Hsem) as [Hle Hlen].
    rewrite Hst in *. constructor.
    + apply List.Forall_forall. intros x Hx. apply In_slice in Hx as (q & Hq & Hch).
      apply (Hfree q x); [lia|apply Hbefore; lia|exact Hch].
    + replace (Nat.eqb (m_end m) p) with false by (symmetry; now apply Nat.eqb_neq).
      apply IH; [apply Hlen; lia|lia].
  - constructor; [|constructor]. cbn [andb] in Hspec.
    apply List.Forall_forall. intros x Hx. apply In_skipn in Hx as (q & Hq & Hch).
    pose proof (nth_error_lt _ _ _ Hch).
    apply (Hfree q x); [lia|apply Hspec; lia|exact Hch].
Qed.

Lemma re_split_pieces (P : N -> Prop) :
  (forall q ch, nth_error s q = Some ch -> P ch \/ exists j c', sem s r q [] j c') ->
  Forall (Forall P) (re_split r s).
Proof. intros H. unfold re_split. apply split_loop_pieces; [exact H|lia|lia]. Qed.

End Splitting.

(** Every character of a piece, and of a substitution's result, comes from
    the subject (or from the replacement). *)
Lemma split_loop_chars (r : re) (s : str) :
  forall fuel last pos ma piece x,
    In piece (split_loop r s fuel last pos ma) -> In x piece -> In x s.
Proof.
  induction fuel as [|fuel IH]; intros last pos ma piece x Hin Hx; cbn [split_loop] in Hin.
  - destruct Hin as [<-|[]]. apply In_skipn in Hx as (q & _ & Hq).
    eapply List.nth_error_In, Hq.
  - destruct (search_from r s (length s - pos) ma pos) as [m|].
    + destruct Hin as [<-|Hin]; [|eapply IH; eassumption].
      apply In_slice in Hx as (q & _ & Hq). eapply List.nth_error_In, Hq.
    + destruct Hin as [<-|[]]. apply In_skipn in Hx as (q & _ & Hq).
      eapply List.nth_error_In, Hq.
Qed.

Lemma In_join (sep : str) (ps : list str) (x : N) :
  In x (join sep ps) -> In x sep \/ exists p, In p ps /\ In x p.
Proof.
  induction ps as [|p ps IH]; cbn [join]; [intros []|].
  destruct ps as [|q ps]; [intros H; right; exists p; split; [now left|exact H]|].
  intros H. apply List.in_app_or in H as [H|H]; [right; exists p; split; [now left|exact H]|].
  apply List.in_app_or in H as [H|H]; [now left|].
  destruct (IH H) as [Hs|(p' & Hp' & Hx)]; [now left|].
  right. exists p'. split; [now right|exact Hx].
Qed.

Lemma re_sub_chars (r : re) (repl s : str) (x : N) :
  In x (re_sub r repl s) -> In x repl \/ In x s.
Proof.
  rewrite re_sub_join. intros H. apply In_join in H as [H|(p & Hp & Hx)]; [now left|].
  right. unfold re_split in Hp. eapply split_loop_chars; eassumption.
Qed.

(** ** Runs of one class as separators *)

Lemma iter_mono (s : str) (a : re) (lo : nat) (hi : option nat) (n i : nat)
    (c : captures) (j : nat) (c' : captures) :
  iter (sem s a) lo hi n i c j c' -> (i <= j)%nat.
Proof.
  induction 1 as [n i c Hlo|n i c i' c1 j c2 Hhi Hstep Hne Hrest IH]; [lia|].
  apply sem_mono in Hstep as [Hle _]. lia.
Qed.

Lemma plus_chr_never_empty (s : str) (f : N -> bool) (i : nat) (c : captures) (j : nat)
    (c' : captures) :
  sem s (plus (Chr f)) i c j c' -> j <> i.
Proof.
  unfold plus. cbn [sem]. intros H.
  inversion H as [n i0 c0 Hlo|n i0 c0 i' c1 j0 c2 Hhi Hstep Hne Hrest]; subst; [lia|].
  apply (sem_mono s (Chr f)) in Hstep as [Hle _].
  apply (iter_mono s (Chr f)) in Hrest. lia.
Qed.

Lemma plus_chr_at (s : str) (f : N -> bool) (q : nat) (ch : N) :
  nth_error s q = Some ch -> f ch = true ->
  exists j c', sem s (plus (Chr f)) q [] j c'.
Proof.
  intros Hq Hf. exists (S q), []. unfold plus. cbn [sem].
  apply (iter_step _ _ _ O q [] (S q) []); [reflexivity|exists ch; auto|lia|].
  constructor. lia.
Qed.

(** The pieces [re.split] cuts at the runs of a class hold no character of
    the class. *)
Lemma re_split_class (f : N -> bool) (s : str) :
  Forall (Forall (fun c => f c = false)) (re_split (plus (Chr f)) s).
Proof.
  apply re_split_pieces; [reflexivity|intros i c j c'; apply plus_chr_never_empty|].
  intros q ch Hq. destruct (f ch) eqn:Hf; [right|now left].
  eapply plus_chr_at; eassumption.
Qed.








(** ** Tags *)

Lemma strip_spacefree (s : str) :
  Forall (fun c => is_space c = false) s -> strip s = s.
Proof.
  intros H. apply strip_fixed.
  - destruct H; [exact I|assumption].
  - intros a c ->. apply List.Forall_app in H as [_ H]. now inversion H.
Qed.

(** X13: the tags of a book record are the non-empty pieces of the keywords
    between the runs of separators: no tag is empty, and no tag holds a comma
    (ASCII or full-width), a slash or a white-space character. *)
Theorem tags_hold_no_separator (E : PyEnv) (html : str) :
  let kw := _first_txt (Selector_text E html) (dq "meta[name='keywords']::attr(content)") in
  meta_tags E html
  = (if truthy kw then List.filter truthy (re_split re_tag_sep kw) else [])
  /\ Forall (fun t => t <> []
                      /\ Forall (fun c => one_of (lit "，,/") c = false
                                          /\ is_space c = false) t)
       (meta_tags E html).
Proof.
  intros kw. unfold meta_tags. fold kw.
  destruct (truthy kw); [|split; [reflexivity|constructor]].
  pose proof (re_split_class (fun c => one_of (lit "，,/") c || is_space c) kw) as Hp.
  fold re_tag_sep in Hp. change (re_split (plus (Chr _)) kw) with (re_split re_tag_sep kw) in Hp.
  assert (Hfree : forall p, In p (re_split re_tag_sep kw) ->
            strip p = p
            /\ Forall (fun c => one_of (lit "，,/") c = false /\ is_space c = false) p).
  { intros p Hin. eapply List.Forall_forall in Hp; [|exact Hin].
    assert (Hboth : Forall (fun c => one_of (lit "，,/") c = false /\ is_space c = false) p).
    { eapply List.Forall_impl; [|exact Hp]. cbn beta. intros c Hc.
      now apply orb_false_elim in Hc. }
    split; [|exact Hboth]. apply strip_spacefree.
    eapply List.Forall_impl; [|exact Hboth]. cbn beta. tauto. }
  assert (Heq : List.map strip (List.filter (fun t => truthy (strip t)) (re_split re_tag_sep kw))
                = List.filter truthy (re_split re_tag_sep kw)).
  { revert Hfree. generalize (re_split re_tag_sep kw). intros ps Hfree.
    induction ps as [|p ps IH]; [reflexivity|]. cbn [List.filter].
    destruct (Hfree p (or_introl eq_refl)) as [Hs _]. rewrite Hs.
    specialize (IH (fun q Hq => Hfree q (or_intror Hq))).
    destruct (truthy p); cbn [List.map]; [now rewrite Hs, IH|exact IH]. }
  rewrite Heq. split; [reflexivity|].
  apply List.Forall_forall. intros t Ht. apply List.filter_In in Ht as [Hin Hne].
  split; [now apply truthy_nonempty|now apply Hfree].
Qed.

(** ** Cleaned text *)




Lemma strip_In (s : str) (x : N) : In x (strip s) -> In x s.
Proof.
  destruct (strip_sub s) as (a & b & H). intros Hx. rewrite H.
  apply List.in_or_app. right. apply List.in_or_app. now left.
Qed.


(** ** Paragraphs *)

Lemma re_sub_nonempty (r : re) (repl s : str) :
  s <> [] -> repl <> [] -> re_sub r repl s <> [].
Proof.
  intros Hs Hrepl. rewrite re_sub_join. unfold re_split.
  destruct (2 * length s + 2)%nat as [|fuel] eqn:Hf; [lia|]. cbn [split_loop].
  destruct (search_from r s (length s - 0) false 0) as [m|].
  - rewrite join_cons by apply split_loop_nonempty. intros H.
    apply List.app_eq_nil in H as [_ H]. apply List.app_eq_nil in H as [H _]. contradiction.
  - cbn [join List.skipn]. exact Hs.
Qed.

Lemma split_chr_none (sep : N) (s : str) :
  ~ In sep s -> split_chr sep s = [s].
Proof.
  induction s as [|c t IH]; intros Hs; cbn [split_chr]; [reflexivity|].
  destruct (N.eqb_spec c sep) as [->|Hne]; [exfalso; apply Hs; now left|].
  rewrite IH; [reflexivity|]. intros H. apply Hs. now right.
Qed.

Lemma split_chr_app (sep : N) (p t : str) :
  ~ In sep p -> split_chr sep (p ++ sep :: t) = p :: split_chr sep t.
Proof.
  induction p as [|c p IH]; intros Hp; cbn [List.app split_chr].
  - now rewrite N.eqb_refl.
  - destruct (N.eqb_spec c sep) as [->|Hne]; [exfalso; apply Hp; now left|].
    rewrite IH; [reflexivity|]. intros H. apply Hp. now right.
Qed.

(** Text written one item per line reads back line by line. *)
Lemma split_chr_join (sep : N) (ps : list str) :
  ps <> [] ->
  Forall (fun p => ~ In sep p) ps ->
  split_chr sep (join [sep] ps) = ps.
Proof.
  intros Hne Hall. induction Hall as [|p ps Hp Hall IH]; [contradiction|].
  destruct ps as [|q ps]; [cbn [join]; now apply split_chr_none|].
  rewrite join_cons by discriminate. cbn [List.app].
  rewrite split_chr_app by exact Hp. f_equal. apply IH. discriminate.
Qed.

Lemma newline_pieces (s : str) :
  Forall (Forall (fun c => c <> 10)) (re_split re_newline s).
Proof.
  apply re_split_pieces; [reflexivity| |].
  - intros i c j c' H. unfold re_newline in H. cbn [seqs sem] in H.
    destruct H as (m & cm & Hopt & ch & _ & _ & -> & _).
    apply sem_mono in Hopt as [Hle _]. lia.
  - intros q ch Hq. destruct (N.eq_dec ch 10) as [->|Hne]; [right|now left].
    exists (S q), []. unfold re_newline. cbn [seqs sem]. exists q, []. split.
    + unfold opt. cbn [sem]. constructor. lia.
    + exists 10. repeat split; auto.
Qed.

Lemma sentence_pieces (s : str) :
  Forall (Forall (fun c => c <> 10)) (re_split re_sentence_break s).
Proof.
  apply re_split_pieces; [reflexivity| |].
  - intros i c j c' H. unfold re_sentence_break in H. cbn [sem] in H.
    destruct H as [H|(m & cm & Hb & H)].
    + now apply plus_chr_never_empty in H.
    + cbn [sem] in Hb. destruct Hb as (p & ch & _ & _ & _ & -> & ->).
      now apply plus_chr_never_empty in H.
  - intros q ch Hq. destruct (N.eq_dec ch 10) as [->|Hne]; [right|now left].
    destruct (plus_chr_at s (one_of [10; 13]) q 10 Hq eq_refl) as (j & c' & H).
    exists j, c'. unfold re_sentence_break. cbn [sem]. now left.
Qed.

Lemma structured_paras_lines (node_html : str) :
  structured_paras node_html
  = List.map (re_sub re_blank_run (lit " "))
      (List.filter keep
         (List.map (fun ln => re_sub re_nbsp_run (lit " ") (strip ln))
            (re_split re_newline node_html))).
Proof.
  unfold structured_paras. apply collapse_nonblank.
  apply List.Forall_forall. intros p Hp. apply List.in_map_iff in Hp as (l & <- & Hl).
  apply List.filter_In in Hl as [_ Hk]. unfold keep in Hk. apply andb_prop in Hk as [Ht _].
  unfold is_blank.
  destruct (re_sub re_blank_run (lit " ") l) eqn:Hr; [|reflexivity].
  exfalso. revert Hr. apply re_sub_nonempty; [now apply truthy_nonempty|discriminate].
Qed.

(** X14: paragraphs are lines.  No paragraph that [parse_chapter_content]
    returns is empty, and none holds a line feed; so the text that
    [save_chapter_text] writes, the paragraphs joined by line feeds, has one
    paragraph on each line and no empty line, and splitting it at the line
    feeds gives the paragraphs back.  In the structured extraction the loops
    that drop repeated and outer blank lines never drop anything: blank lines
    are gone before they run. *)
Theorem chapter_paragraphs_are_lines (E : PyEnv) (html : str) :
  Forall (fun p => p <> [] /\ ~ In 10 p) (parse_chapter_content E html)
  /\ (parse_chapter_content E html <> [] ->
      split_chr 10 (join [10] (parse_chapter_content E html))
      = parse_chapter_content E html)
  /\ (forall node_html,
        structured_paras node_html
        = List.map (re_sub re_blank_run (lit " "))
            (List.filter keep
               (List.map (fun ln => re_sub re_nbsp_run (lit " ") (strip ln))
                  (re_split re_newline node_html)))).
Proof.
  assert (Hall : Forall (fun p => p <> [] /\ ~ In 10 p) (parse_chapter_content E html)).
  { unfold parse_chapter_content.
    destruct (Nat.ltb _ MIN_LEN).
    - rewrite fallback_paras_filter. apply List.Forall_forall. intros p Hp.
      apply List.filter_In in Hp as [Hin Hk]. unfold keep in Hk.
      apply andb_prop in Hk as [Ht _]. split; [now apply truthy_nonempty|].
      apply List.in_map_iff in Hin as (piece & <- & Hpiece). intros H10.
      apply strip_In in H10.
      pose proof (sentence_pieces (fallback_text (Selector_text E html))) as Hs.
      eapply List.Forall_forall in Hs; [|exact Hpiece].
      eapply List.Forall_forall in Hs; [|exact H10]. apply Hs. reflexivity.
    - rewrite structured_paras_lines. apply List.Forall_forall. intros p Hp.
      apply List.in_map_iff in Hp as (l & <- & Hl).
      apply List.filter_In in Hl as [Hin Hk]. unfold keep in Hk.
      apply andb_prop in Hk as [Ht _]. split.
      + apply re_sub_nonempty; [exact (truthy_nonempty l Ht)|].
        change (lit " ") with [32]. discriminate.
      + apply List.in_map_iff in Hin as (piece & <- & Hpiece). intros H10.
        apply re_sub_chars in H10 as [[H|[]]|H10]; [discriminate H|].
        apply re_sub_chars in H10 as [[H|[]]|H10]; [discriminate H|].
        apply strip_In in H10.
        match type of Hpiece with
        | In _ (re_split re_newline ?n) => pose proof (newline_pieces n) as Hs
        end.
        eapply List.Forall_forall in Hs; [|exact Hpiece].
        eapply List.Forall_forall in Hs; [|exact H10]. apply Hs. reflexivity. }
  split; [exact Hall|]. split; [|exact structured_paras_lines].
  intros Hne. apply split_chr_join; [exact Hne|].
  eapply List.Forall_impl; [|exact Hall]. cbn beta. tauto.
Qed.

(** ** Numbers and book ids *)

Lemma firstn_take_by (f : N -> bool) (s : str) :
  firstn (length (take_by f s)) s = take_by f s.
Proof.
  induction s as [|c t IH]; cbn [take_by]; [reflexivity|].
  destruct (f c); cbn [length firstn]; [now rewrite IH|reflexivity].
Qed.

Lemma match_at_number (s : str) (q : nat) :
  match_at re_number s false q
  = match skipn q s with
    | c :: r1 =>
        if is_decimal c then
          let e := (S q + length (take_by (fun c => is_decimal c || one_of (lit ",.") c) r1))%nat in
          Some (MkMatch q e [(1%nat, (q, e))])
        else None
    | [] => None
    end.
Proof.
  unfold match_at, re_number. cbn [rmatch]. change digit with (Chr is_decimal).
  rewrite rmatch_Chr.
  destruct (skipn q s) as [|c r1]; [reflexivity|].
  destruct (is_decimal c); [|reflexivity].
  unfold star. rewrite rmatch_Rep. cbv zeta.
  apply rep_chr_greedy; [lia|lia|]. cbn [andb]. reflexivity.
Qed.

Lemma group_one (s : str) (q e : nat) :
  group s (MkMatch q e [(1%nat, (q, e))]) 1 = slice q e s.
Proof. reflexivity. Qed.

Lemma search_number (s : str) {A : Type} (F : str -> A) (d : A) :
  forall fuel q,
    (q + fuel = length s)%nat ->
    match search_from re_number s fuel false q with
    | Some m => F (group s m 1)
    | None => d
    end
    = match lstrip_by (fun c => negb (is_decimal c)) (skipn q s) with
      | [] => d
      | c :: r1 =>
          F (c :: take_by (fun c => is_decimal c || one_of (lit ",.") c) r1)
      end.
Proof.
  induction fuel as [|fuel IH]; intros q Hq; cbn [search_from]; rewrite match_at_number.
  - rewrite List.skipn_all2 by lia. reflexivity.
  - destruct (skipn q s) as [|c r1] eqn:Hs.
    + apply (f_equal (@length N)) in Hs. rewrite List.length_skipn in Hs. cbn in Hs. lia.
    + apply skipn_cons_nth in Hs as [Hn Hr]. cbn [lstrip_by].
      destruct (is_decimal c); cbn [negb].
      * cbv zeta. rewrite group_one. unfold slice.
        rewrite (nth_skipn_cons _ _ _ Hn), Hr.
        replace (S q + _ - q)%nat
          with (S (length (take_by (fun c => is_decimal c || one_of (lit ",.") c) r1)))
          by lia.
        cbn [firstn]. now rewrite firstn_take_by.
      * rewrite IH by lia. now rewrite Hr.
Qed.

(** X11: reading a number.  [_find_number] looks at one place only: the first
    decimal digit of the text, with the longest run of decimal digits, commas
    and dots after it.  That run without its commas goes to [float] and
    [int]; when the text has no digit, or the conversion raises, the value is
    the default.  So a text whose first such run is no number ([1.2.3]) gives
    the default even when a number follows. *)
Theorem find_number_scan (E : PyEnv) (text : str) (d : Z) :
  _find_number E text d
  = match lstrip_by (fun c => negb (is_decimal c)) text with
    | [] => d
    | c :: rest =>
        match int_of_float E
                (replace_chr 44 []
                   (c :: take_by (fun c => is_decimal c || one_of (lit ",.") c) rest)) with
        | Some v => v
        | None => d
        end
    end.
Proof.
  unfold _find_number. destruct text as [|c0 t0] eqn:Ht; [reflexivity|]. cbn [truthy negb].
  rewrite <- Ht. unfold re_search.
  pose proof (search_number text
                (fun g => match int_of_float E (replace_chr 44 [] g) with
                          | Some v => v
                          | None => d
                          end) d (length text) O eq_refl) as H.
  cbn [List.skipn] in H. exact H.
Qed.

(** A literal matches the text it spells. *)
Lemma strip_prefix_by_is_chr (p s : str) :
  strip_prefix_by is_chr p s = strip_prefix p s.
Proof.
  revert s. induction p as [|a p IH]; intros [|b s]; cbn [strip_prefix_by strip_prefix];
    try reflexivity.
  unfold is_chr at 1. rewrite (N.eqb_sym b a). now rewrite IH.
Qed.

Lemma rmatch_chars {R : Type} (s : str) (f : N -> N -> bool) (p : str) :
  forall i rest caps (k : nat -> str -> captures -> option R),
    rmatch s (chars f p) i rest caps k
    = match strip_prefix_by f p rest with
      | Some rest' => k (i + length p)%nat rest' caps
      | None => None
      end.
Proof.
  induction p as [|a p IH]; intros i rest caps k.
  - cbn [chars rmatch strip_prefix_by length]. now rewrite Nat.add_0_r.
  - destruct p as [|b p].
    + cbn [chars]. rewrite rmatch_Chr. cbn [strip_prefix_by length].
      destruct rest as [|c rest]; [reflexivity|]. destruct (f a c); [|reflexivity].
      destruct rest; cbn [strip_prefix_by]; now replace (i + 1)%nat with (S i) by lia.
    + change (chars f (a :: b :: p)) with (Seq (Chr (f a)) (chars f (b :: p))).
      cbn [rmatch].
      destruct rest as [|c rest]; [reflexivity|].
      change (strip_prefix_by f (a :: b :: p) (c :: rest))
        with (if f a c then strip_prefix_by f (b :: p) rest else None).
      destruct (f a c); [|reflexivity]. rewrite IH.
      destruct (strip_prefix_by f (b :: p) rest); [|reflexivity].
      now replace (S i + length (b :: p))%nat with (i + length (a :: b :: p))%nat
        by (cbn [length]; lia).
Qed.

Lemma sem_no_grp (s : str) (r : re) :
  no_grp r = true -> forall i c j c', sem s r i c j c' -> c' = c.
Proof.
  induction r as [f| |a IHa b IHb|a IHa b IHb|g lo hi a IHa|g a IHa|ic g| | |f];
    intros Hng i c j c' H; cbn [no_grp] in Hng; cbn [sem] in H.
  - now destruct H as (ch & _ & _ & _ & ->).
  - now destruct H as [_ ->].
  - apply andb_prop in Hng as [Ha Hb]. destruct H as (m & cm & H1 & H2).
    apply (IHa Ha) in H1. apply (IHb Hb) in H2. congruence.
  - apply andb_prop in Hng as [Ha Hb]. destruct H as [H|H]; [now apply (IHa Ha) in H|].
    now apply (IHb Hb) in H.
  - induction H as [n i c Hlo|n i c i' c1 j c2 Hhi Hstep Hne Hrest IH]; [reflexivity|].
    apply (IHa Hng) in Hstep. congruence.
  - discriminate.
  - contradiction.
  - now destruct H as (_ & _ & ->).
  - now destruct H as (_ & _ & ->).
  - now destruct H as (p & ch & _ & _ & _ & _ & ->).
Qed.

Lemma rep_chr_short {R : Type} (s : str) (f : N -> bool) (lo : nat)
    (k : nat -> str -> captures -> option R) (caps : captures) :
  forall rest fuel n i,
    (n + length (take_by f rest) < lo)%nat ->
    rep_loop (rmatch s (Chr f)) true lo None k fuel n i rest caps = None.
Proof.
  induction rest as [|c t IH]; intros fuel n i Hlo; rewrite rep_loop_unfold; cbv zeta;
    cbn [take_by length] in Hlo.
  - replace (Nat.leb lo n) with false by (symmetry; apply Nat.leb_gt; lia).
    destruct fuel; [reflexivity|]. cbn [below]. now rewrite rmatch_Chr.
  - destruct (f c) eqn:Hc; cbn [length] in Hlo;
      (replace (Nat.leb lo n) with false by (symmetry; apply Nat.leb_gt; lia));
      (destruct fuel as [|fuel]; [reflexivity|]); cbn [below]; rewrite rmatch_Chr, Hc;
      [|reflexivity].
    replace (Nat.eqb (S i) i) with false by (symmetry; apply Nat.eqb_neq; lia).
    rewrite IH by lia. reflexivity.
Qed.

Lemma lstrip_by_skipn (f : N -> bool) (s : str) (i : nat) :
  lstrip_by f (skipn i s) = skipn (i + length (take_by f (skipn i s))) s.
Proof. rewrite <- skipn_take_by, List.skipn_skipn. f_equal. lia. Qed.

Lemma rmatch_Seq {R : Type} (s : str) (a b : re) (i : nat) (rest : str)
    (caps : captures) (k : nat -> str -> captures -> option R) :
  rmatch s (Seq a b) i rest caps k
  = rmatch s a i rest caps (fun i' rest' caps' => rmatch s b i' rest' caps' k).
Proof. reflexivity. Qed.

Lemma rmatch_lits {R : Type} (s : str) (p : string) (i : nat) (rest : str)
    (caps : captures) (k : nat -> str -> captures -> option R) :
  rmatch s (lits p) i rest caps k
  = match strip_prefix (lit p) rest with
    | Some rest' => k (i + length (lit p))%nat rest' caps
    | None => None
    end.
Proof. unfold lits. now rewrite rmatch_chars, strip_prefix_by_is_chr. Qed.

(** One attempt of the book-id pattern: [/book/] here, and the longest run
    of decimal digits after it as the group. *)
Lemma match_at_book_id (s : str) (q : nat) :
  match strip_prefix (lit "/book/") (skipn q s) with
  | Some rest =>
      match take_by is_decimal rest with
      | [] => match_at re_book_id s false q = None
      | d => exists j,
               match_at re_book_id s false q
               = Some (MkMatch q j [(1%nat, (q + 6, q + 6 + length d))%nat])
      end
  | None => match_at re_book_id s false q = None
  end.
Proof.
  set (kf := fun (j : nat) (_ : str) (c : captures) =>
               if false && Nat.eqb j q then None else Some (MkMatch q j c)).
  assert (Heq : match_at re_book_id s false q
                = match strip_prefix (lit "/book/") (skipn q s) with
                  | Some rest =>
                      rep_loop (rmatch s (Chr is_decimal)) true 1 None
                        (fun i' rest' caps' =>
                           rmatch s (opt (Alt (lits "/") (lits ".html"))) i' rest'
                             ((1%nat, ((q + 6)%nat, i')) :: caps') kf)
                        (S (length rest)) O (q + 6)%nat rest []
                  | None => None
                  end).
  { unfold match_at, re_book_id. cbn [seqs]. rewrite rmatch_Seq, rmatch_lits.
    destruct (strip_prefix (lit "/book/") (skipn q s)) as [rest|]; reflexivity. }
  rewrite Heq. clear Heq.
  destruct (strip_prefix (lit "/book/") (skipn q s)) as [rest|] eqn:Hpre; [|reflexivity].
  apply strip_prefix_spec in Hpre.
  assert (Hrest : rest = skipn (q + 6) s).
  { rewrite Nat.add_comm, <- List.skipn_skipn, Hpre. reflexivity. }
  destruct (take_by is_decimal rest) as [|d0 d] eqn:Hd.
  - apply rep_chr_short. rewrite Hd. cbn. lia.
  - rewrite <- Hd.
    assert (Hlen : (q + 6 + length (take_by is_decimal rest) <= length s)%nat).
    { pose proof (take_by_lstrip is_decimal rest) as Hsplit.
      apply (f_equal (@length N)) in Hsplit. rewrite List.length_app in Hsplit.
      rewrite Hrest in Hsplit at 1. rewrite List.length_skipn in Hsplit.
      assert (0 < length (take_by is_decimal rest))%nat by (rewrite Hd; cbn; lia). lia. }
    set (e := (q + 6 + length (take_by is_decimal rest))%nat).
    set (caps := [(1%nat, (q + 6, e))%nat]).
    assert (Hopt : exists j,
              rmatch s (opt (Alt (lits "/") (lits ".html"))) e (skipn e s) caps kf
              = Some (MkMatch q j caps)).
    { destruct (rmatch_complete s (opt (Alt (lits "/") (lits ".html"))) e caps e caps kf
                  (MkMatch q e caps)) as (y & Hy).
      - unfold opt. cbn [sem]. constructor. lia.
      - reflexivity.
      - exact Hlen.
      - pose proof Hy as Hy'. apply rmatch_sound in Hy' as (j & c' & Hs & Hk); [|reflexivity].
        apply sem_no_grp in Hs; [|reflexivity]. subst c'.
        exists j. rewrite Hy. unfold kf in Hk. cbn [andb] in Hk. congruence. }
    destruct Hopt as (j & Hopt). exists j.
    apply rep_chr_greedy; [lia|rewrite Hd; cbn; lia|].
    rewrite Hrest at 2. rewrite lstrip_by_skipn. rewrite <- Hrest. exact Hopt.
Qed.

Lemma search_book_id (s : str) :
  forall fuel q,
    (q + fuel = length s)%nat ->
    match search_from re_book_id s fuel false q with
    | Some m => group s m 1
    | None => []
    end = first_book_id (skipn q s).
Proof.
  induction fuel as [|fuel IH]; intros q Hq; cbn [search_from];
    pose proof (match_at_book_id s q) as Hat.
  - rewrite List.skipn_all2 in * by lia.
    change (strip_prefix (lit "/book/") []) with (@None str) in Hat.
    rewrite Hat. reflexivity.
  - assert (Hnext : first_book_id (skipn (S q) s)
                    = match skipn q s with [] => [] | _ :: t => first_book_id t end).
    { destruct (skipn q s) as [|c t] eqn:Hs.
      - apply (f_equal (@length N)) in Hs. rewrite List.length_skipn in Hs. cbn in Hs. lia.
      - apply skipn_cons_nth in Hs as [_ ->]. reflexivity. }
    assert (Hfirst : first_book_id (skipn q s)
                     = match (match strip_prefix (lit "/book/") (skipn q s) with
                              | Some rest => take_by is_decimal rest
                              | None => []
                              end) with
                       | [] => first_book_id (skipn (S q) s)
                       | d => d
                       end).
    { rewrite Hnext. destruct (skipn q s) as [|c t]; [reflexivity|].
      cbn [first_book_id].
      change (utf8_dec [47; 98; 111; 111; 107; 47]) with (lit "/book/").
      destruct (strip_prefix (lit "/book/") (c :: t)) as [rest|]; [|reflexivity].
      destruct (take_by is_decimal rest); reflexivity. }
    rewrite Hfirst.
    destruct (strip_prefix (lit "/book/") (skipn q s)) as [rest|] eqn:Hpre.
    + destruct (take_by is_decimal rest) as [|d0 d] eqn:Hd.
      * rewrite Hat. apply IH. lia.
      * destruct Hat as (j & ->). unfold group. cbn [m_caps group_span Nat.eqb].
        unfold slice. apply strip_prefix_spec in Hpre.
        replace (skipn (q + 6) s) with rest.
        -- replace (q + 6 + length (d0 :: d) - (q + 6))%nat with (length (d0 :: d)) by lia.
           rewrite <- Hd. apply firstn_take_by.
        -- rewrite Nat.add_comm, <- List.skipn_skipn, Hpre. reflexivity.
    + rewrite Hat. apply IH. lia.
Qed.

Lemma first_book_id_cons (c : N) (t : str) :
  first_book_id (c :: t)
  = match (match strip_prefix (lit "/book/") (c :: t) with
           | Some rest => take_by is_decimal rest
           | None => []
           end) with
    | [] => first_book_id t
    | d => d
    end.
Proof.
  cbn [first_book_id].
  change (utf8_dec [47; 98; 111; 111; 107; 47]) with (lit "/book/").
  destruct (strip_prefix (lit "/book/") (c :: t)) as [rest|]; [|reflexivity].
  destruct (take_by is_decimal rest); reflexivity.
Qed.

Lemma take_by_cons_inv (f : N -> bool) (r d : str) (d0 : N) :
  take_by f r = d0 :: d -> exists r', r = d0 :: r' /\ f d0 = true.
Proof.
  destruct r as [|c r']; cbn [take_by]; [discriminate|].
  destruct (f c) eqn:Hc; [|discriminate]. intros H. injection H as -> _. eauto.
Qed.

Lemma take_by_run (f : N -> bool) (d post : str) :
  Forall (fun c => f c = true) d ->
  match post with [] => True | c :: _ => f c = false end ->
  take_by f (d ++ post) = d.
Proof.
  intros Hd Hp. rewrite take_by_app by exact Hd.
  destruct post as [|c post]; cbn [take_by]; [|rewrite Hp]; apply List.app_nil_r.
Qed.

Lemma first_book_id_digits (s : str) :
  Forall (fun c => is_decimal c = true) (first_book_id s).
Proof.
  induction s as [|c t IH]; [constructor|]. rewrite first_book_id_cons.
  destruct (strip_prefix (lit "/book/") (c :: t)) as [rest|]; [|exact IH].
  destruct (take_by is_decimal rest) as [|d0 d] eqn:Hd; [exact IH|].
  rewrite <- Hd. apply take_by_all.
Qed.

Lemma first_book_id_none (s : str) :
  first_book_id s = []
  <-> forall pre c post, s = pre ++ lit "/book/" ++ c :: post -> is_decimal c = false.
Proof.
  induction s as [|c0 t IH].
  - split; [|reflexivity]. intros _ pre c post H.
    destruct pre; [vm_compute in H|]; discriminate H.
  - rewrite first_book_id_cons.
    assert (Htail : (forall pre c post,
                       c0 :: t = pre ++ lit "/book/" ++ c :: post -> is_decimal c = false)
                    -> forall pre c post,
                       t = pre ++ lit "/book/" ++ c :: post -> is_decimal c = false).
    { intros H pre c post Ht. apply (H (c0 :: pre) c post). now rewrite Ht. }
    destruct (strip_prefix (lit "/book/") (c0 :: t)) as [rest|] eqn:Hpre.
    + apply strip_prefix_spec in Hpre.
      destruct (take_by is_decimal rest) as [|d0 d] eqn:Hd.
      * rewrite IH. split; [|exact Htail]. intros Ht [|p0 pre] c post H.
        -- rewrite Hpre in H. cbn [List.app] in H. apply List.app_inv_head in H.
           subst rest.
           cbn [take_by] in Hd. destruct (is_decimal c); [discriminate|reflexivity].
        -- injection H as _ H. exact (Ht pre c post H).
      * split; [discriminate|]. intros H. exfalso.
        apply take_by_cons_inv in Hd as (r' & -> & Hd0).
        specialize (H [] d0 r' Hpre). congruence.
    + rewrite IH. split; [|exact Htail]. intros Ht [|p0 pre] c post H.
      * cbn [List.app] in H. apply strip_prefix_spec in H. congruence.
      * injection H as _ H. exact (Ht pre c post H).
Qed.

Lemma first_book_id_leftmost (pre d post : str) :
  forall s,
    s = pre ++ lit "/book/" ++ d ++ post ->
    d <> [] ->
    Forall (fun c => is_decimal c = true) d ->
    match post with [] => True | c :: _ => is_decimal c = false end ->
    (forall pre' c post', s = pre' ++ lit "/book/" ++ c :: post' ->
                          is_decimal c = true -> (length pre <= length pre')%nat) ->
    first_book_id s = d.
Proof.
  induction pre as [|p0 pre IH]; intros s Hs Hne Hd Hp Hleft.
  - cbn [List.app] in Hs. destruct s as [|c t]; [discriminate Hs|].
    rewrite first_book_id_cons.
    apply strip_prefix_spec in Hs. rewrite Hs, (take_by_run _ _ _ Hd Hp).
    destruct d; [contradiction|reflexivity].
  - destruct s as [|c t]; [discriminate Hs|]. injection Hs as -> Ht.
    rewrite first_book_id_cons.
    assert (Hhere : match strip_prefix (lit "/book/") (p0 :: t) with
                    | Some rest => take_by is_decimal rest
                    | None => []
                    end = []).
    { destruct (strip_prefix (lit "/book/") (p0 :: t)) as [rest|] eqn:Hpre; [|reflexivity].
      destruct (take_by is_decimal rest) as [|d0 d'] eqn:Hd'; [reflexivity|].
      apply take_by_cons_inv in Hd' as (r' & -> & Hd0).
      apply strip_prefix_spec in Hpre.
      specialize (Hleft [] d0 r' Hpre Hd0). cbn in Hleft. lia. }
    rewrite Hhere. apply IH; auto.
    intros pre' c post' H Hc.
    specialize (Hleft (p0 :: pre') c post'). cbn [List.app length] in Hleft.
    rewrite H in Hleft. specialize (Hleft eq_refl Hc). lia.
Qed.

(** X12: the site's book id.  [_extract_site_book_id] returns the run of
    decimal digits that follows the leftmost [/book/] with a decimal digit
    right after it, the whole run, and the empty string exactly when the URL
    has no such place: a [/book/] that no digit follows is passed over, and
    what comes after the digits plays no part.  The id consists of decimal
    digits only. *)
Theorem site_book_id_scan (book_url : str) :
  _extract_site_book_id book_url = first_book_id book_url
  /\ Forall (fun c => is_decimal c = true) (_extract_site_book_id book_url)
  /\ (_extract_site_book_id book_url = []
      <-> forall pre c post,
            book_url = pre ++ lit "/book/" ++ c :: post -> is_decimal c = false)
  /\ (forall pre d post,
        book_url = pre ++ lit "/book/" ++ d ++ post ->
        d <> [] ->
        Forall (fun c => is_decimal c = true) d ->
        match post with [] => True | c :: _ => is_decimal c = false end ->
        (forall pre' c post',
           book_url = pre' ++ lit "/book/" ++ c :: post' ->
           is_decimal c = true -> (length pre <= length pre')%nat) ->
        _extract_site_book_id book_url = d).
Proof.
  assert (Heq : _extract_site_book_id book_url = first_book_id book_url).
  { unfold _extract_site_book_id, re_search.
    now rewrite (search_book_id book_url (length book_url) 0). }
  rewrite Heq. split; [reflexivity|]. split; [apply first_book_id_digits|].
  split; [apply first_book_id_none|].
  intros pre d post Hs Hne Hd Hp Hleft.
  now apply (first_book_id_leftmost pre d post).
Qed.

(** ** Noise lines *)

(** The pieces [re.split] returns are parts of the string; the first one is
    where the string starts; a single piece is the whole string. *)
Lemma split_loop_parts (r : re) (s : str) :
  forall fuel last pos ma,
    Forall (fun p => exists a b, s = a ++ p ++ b) (split_loop r s fuel last pos ma)
    /\ (exists p rest b, split_loop r s fuel last pos ma = p :: rest
                         /\ skipn last s = p ++ b)
    /\ (forall p, split_loop r s fuel last pos ma = [p] -> p = skipn last s).
Proof.
  assert (Hend : forall last,
             Forall (fun p => exists a b, s = a ++ p ++ b) [skipn last s]
             /\ (exists p rest b, [skipn last s] = p :: rest /\ skipn last s = p ++ b)
             /\ (forall p, [skipn last s] = [p] -> p = skipn last s)).
  { intros last. split; [|split].
    - constructor; [|constructor]. exists (firstn last s), [].
      now rewrite List.app_nil_r, List.firstn_skipn.
    - exists (skipn last s), [], []. now rewrite List.app_nil_r.
    - intros p H. now injection H as <-. }
  induction fuel as [|fuel IH]; intros last pos ma; cbn [split_loop]; [apply Hend|].
  destruct (search_from r s (length s - pos) ma pos) as [m|]; [|apply Hend].
  destruct (IH (m_end m) (m_end m) (Nat.eqb (m_end m) (m_start m))) as (Hall & _ & _).
  split; [|split].
  - constructor; [|exact Hall].
    exists (firstn last s), (skipn (m_start m - last) (skipn last s)).
    unfold slice. now rewrite !List.firstn_skipn.
  - exists (slice last (m_start m) s),
      (split_loop r s fuel (m_end m) (m_end m) (Nat.eqb (m_end m) (m_start m))),
      (skipn (m_start m - last) (skipn last s)).
    split; [reflexivity|]. unfold slice. now rewrite List.firstn_skipn.
  - intros p H. injection H as _ H. now apply split_loop_nonempty in H.
Qed.

Lemma not_In_b (c : N) (m : str) :
  forallb (fun x => negb (N.eqb x c)) m = true -> ~ In c m.
Proof.
  intros H Hin. rewrite List.forallb_forall in H. specialize (H c Hin).
  now rewrite N.eqb_refl in H.
Qed.

(** A text without the separator that starts a joined string starts its
    first piece, and one that occurs in a joined string occurs in a piece. *)
Lemma prefix_no_sep (c : N) (m : str) :
  forall r p x, m ++ r = p ++ c :: x -> ~ In c m -> exists r', p = m ++ r'.
Proof.
  induction m as [|a m IH]; intros r p x H Hc; [now exists p|].
  destruct p as [|b p]; cbn [List.app] in H.
  - injection H as -> _. exfalso. apply Hc. now left.
  - injection H as -> H. destruct (IH r p x H) as (r' & ->).
    + intros Hin. apply Hc. now right.
    + now exists r'.
Qed.

Lemma contains_no_sep (c : N) (m : str) :
  ~ In c m ->
  forall p x, contains m (p ++ c :: x) = true ->
              contains m p = true \/ contains m x = true.
Proof.
  intros Hc p x H. apply contains_spec in H as (a & b & H). revert a H.
  induction p as [|d p IH]; intros a H; cbn [List.app] in H.
  - destruct a as [|a0 a]; cbn [List.app] in H.
    + destruct m as [|m0 m]; [left; reflexivity|]. injection H as -> _.
      exfalso. apply Hc. now left.
    + injection H as _ ->. right. apply contains_spec. eauto.
  - destruct a as [|a0 a]; cbn [List.app] in H.
    + left. symmetry in H. change (d :: p ++ c :: x) with ((d :: p) ++ c :: x) in H.
      apply prefix_no_sep in H as (r' & Hr); [|exact Hc].
      apply contains_spec. exists [], r'. exact Hr.
    + injection H as _ H. destruct (IH a H) as [Hp|Hx]; [left|now right].
      apply contains_spec in Hp as (a' & b' & ->). apply contains_spec.
      now exists (d :: a'), b'.
Qed.

Lemma contains_join (c : N) (m : str) (ps : list str) :
  ~ In c m -> ps <> [] -> contains m (join [c] ps) = true ->
  exists p, In p ps /\ contains m p = true.
Proof.
  intros Hc. induction ps as [|p ps IH]; intros Hne H; [contradiction|].
  destruct ps as [|q ps]; [exists p; split; [now left|exact H]|].
  rewrite join_cons in H by discriminate. cbn [List.app] in H.
  apply contains_no_sep in H as [H|H]; [| |exact Hc].
  - exists p. split; [now left|exact H].
  - destruct (IH ltac:(discriminate) H) as (p' & Hp' & Hm).
    exists p'. split; [now right|exact Hm].
Qed.

(** Putting single spaces where a pattern matches makes no text without a
    space appear that was not there. *)
Lemma re_sub_space_atoms (r : re) (ln m : str) :
  ~ In 32 m ->
  (re_sub r (lit " ") ln = m -> ln = m)
  /\ (startswith m (re_sub r (lit " ") ln) = true -> startswith m ln = true)
  /\ (contains m (re_sub r (lit " ") ln) = true -> contains m ln = true).
Proof.
  intros Hc. rewrite re_sub_join. unfold re_split. change (lit " ") with [32].
  destruct (split_loop_parts r ln (2 * length ln + 2) 0 0 false)
    as (Hall & (p & rest & b & Hps & Hp) & Hone).
  change (skipn 0 ln) with ln in Hp, Hone. rewrite Hps in *.
  split; [|split].
  - destruct rest as [|q rest]; [intros <-; symmetry; now apply Hone|].
    rewrite join_cons by discriminate. intros H. exfalso. apply Hc. rewrite <- H.
    apply List.in_or_app. right. now left.
  - destruct rest as [|q rest].
    + rewrite (Hone p eq_refl). exact (fun H => H).
    + rewrite join_cons by discriminate. cbn [List.app]. rewrite !startswith_spec.
      intros (r0 & Hr). symmetry in Hr. apply prefix_no_sep in Hr as (r' & ->); [|exact Hc].
      exists (r' ++ b). now rewrite Hp, <- List.app_assoc.
  - intros H. apply contains_join in H as (p' & Hin & Hm); [|exact Hc|discriminate].
    rewrite List.Forall_forall in Hall. destruct (Hall p' Hin) as (a' & b' & Hs).
    apply contains_spec in Hm as (x & y & ->). apply contains_spec.
    exists (a' ++ x), (y ++ b'). rewrite Hs. now rewrite <- !List.app_assoc.
Qed.

Lemma if_true_or (b x : bool) :
  (if b then true else x) = true <-> b = true \/ x = true.
Proof. destruct b, x; intuition discriminate. Qed.

Lemma noise_line_cases (ln : str) :
  _noise_line ln = true
  <-> (ln = lit "上一章" \/ ln = lit "下一章" \/ ln = lit "目录")
      \/ startswith (lit "新书推荐") ln = true
      \/ contains (lit "加入书签") ln = true
      \/ contains (lit "点此报错") ln = true
      \/ (contains (lit "请收藏本站") ln = true
          /\ (contains (lit "www.") ln = true \/ contains (lit "https://") ln = true
              \/ contains (lit "http://") ln = true))
      \/ (contains (lit "手机版：") ln = true
          /\ (contains (lit "https://") ln = true \/ contains (lit "http://") ln = true)).
Proof.
  unfold _noise_line. cbn [existsb].
  rewrite !if_true_or, !andb_true_iff, !orb_true_iff, !str_eqb_eq.
  intuition discriminate.
Qed.

Lemma noise_survives (r : re) (ln : str) :
  _noise_line (re_sub r (lit " ") ln) = true -> _noise_line ln = true.
Proof.
  assert (Hat : forall m, forallb (fun x => negb (N.eqb x 32)) m = true ->
                  (re_sub r (lit " ") ln = m -> ln = m)
                  /\ (startswith m (re_sub r (lit " ") ln) = true -> startswith m ln = true)
                  /\ (contains m (re_sub r (lit " ") ln) = true -> contains m ln = true)).
  { intros m Hm. apply re_sub_space_atoms, not_In_b, Hm. }
  pose proof (Hat (lit "上一章") eq_refl) as (E1 & _ & _).
  pose proof (Hat (lit "下一章") eq_refl) as (E2 & _ & _).
  pose proof (Hat (lit "目录") eq_refl) as (E3 & _ & _).
  pose proof (Hat (lit "新书推荐") eq_refl) as (_ & S1 & _).
  pose proof (Hat (lit "加入书签") eq_refl) as (_ & _ & C1).
  pose proof (Hat (lit "点此报错") eq_refl) as (_ & _ & C2).
  pose proof (Hat (lit "请收藏本站") eq_refl) as (_ & _ & C3).
  pose proof (Hat (lit "www.") eq_refl) as (_ & _ & C4).
  pose proof (Hat (lit "https://") eq_refl) as (_ & _ & C5).
  pose proof (Hat (lit "http://") eq_refl) as (_ & _ & C6).
  pose proof (Hat (lit "手机版：") eq_refl) as (_ & _ & C7).
  clear Hat. rewrite !noise_line_cases.
  intros [[H|[H|H]]|[H|[H|[H|[[H1 H2]|[H1 H2]]]]]].
  - left. left. exact (E1 H).
  - left. right. left. exact (E2 H).
  - left. right. right. exact (E3 H).
  - right. left. exact (S1 H).
  - right. right. left. exact (C1 H).
  - right. right. right. left. exact (C2 H).
  - right. right. right. right. left. split; [exact (C3 H1)|].
    destruct H2 as [H2|[H2|H2]]; [left; exact (C4 H2)|right; left; exact (C5 H2)|].
    right. right. exact (C6 H2).
  - right. right. right. right. right. split; [exact (C7 H1)|].
    destruct H2 as [H2|H2]; [left; exact (C5 H2)|right; exact (C6 H2)].
Qed.

(** X15: no noise line is saved.  No paragraph that [parse_chapter_content]
    returns is a noise line: not a bare navigation label, not a line that
    starts with the recommendation banner, holds the bookmark or report
    prompt, or advertises the site next to a link.  This holds for the
    structured extraction too, where a line is tested before its runs of
    spaces and tabs are collapsed: collapsing a line that is no noise line
    never gives one. *)
Theorem chapter_paragraphs_hold_no_noise (E : PyEnv) (html : str) :
  Forall (fun p => _noise_line p = false) (parse_chapter_content E html)
  /\ (forall ln, _noise_line ln = false ->
                 _noise_line (re_sub re_blank_run (lit " ") ln) = false).
Proof.
  assert (Hsub : forall ln, _noise_line ln = false ->
                   _noise_line (re_sub re_blank_run (lit " ") ln) = false).
  { intros ln Hln. destruct (_noise_line (re_sub re_blank_run (lit " ") ln)) eqn:Hp;
      [|reflexivity]. apply noise_survives in Hp. congruence. }
  split; [|exact Hsub].
  assert (Hkeep : forall l, keep l = true -> _noise_line l = false).
  { intros l Hk. unfold keep in Hk. apply andb_prop in Hk as [_ Hk].
    now destruct (_noise_line l). }
  unfold parse_chapter_content. cbv zeta.
  destruct (Nat.ltb _ _).
  - rewrite fallback_paras_filter. apply List.Forall_forall. intros p Hp.
    apply List.filter_In in Hp as [_ Hk]. now apply Hkeep.
  - rewrite structured_paras_lines. apply List.Forall_forall. intros p Hp.
    apply List.in_map_iff in Hp as (l & <- & Hl).
    apply List.filter_In in Hl as [_ Hk]. now apply Hsub, Hkeep.
Qed.

(** ** The books [main] collects *)










(** ** Lists from a file or from the command line *)

Lemma stripped_items_shape (xs : list str) :
  Forall (fun x => x <> [] /\ strip x = x
                   /\ exists y, In y xs /\ x = strip y) (stripped_items xs).
Proof.
  unfold stripped_items. apply List.Forall_forall. intros x Hx.
  apply List.in_map_iff in Hx as (y & <- & Hy). apply List.filter_In in Hy as [Hy Ht].
  split; [intros H; rewrite H in Ht; discriminate|]. split; [apply strip_idempotent|].
  now exists y.
Qed.

Lemma stripped_items_fixed (l : list str) :
  Forall (fun x => x <> [] /\ strip x = x) l -> stripped_items l = l.
Proof.
  unfold stripped_items. induction 1 as [|x l [Hne Hx] _ IH]; [reflexivity|].
  cbn [List.filter]. rewrite Hx. destruct x as [|c x]; [contradiction|].
  cbn [truthy List.map]. now rewrite Hx, IH.
Qed.

Lemma split_chr_free (sep : N) (s : str) :
  Forall (fun p => ~ In sep p) (split_chr sep s).
Proof.
  induction s as [|c t IH]; cbn [split_chr]; [constructor; [intros []|constructor]|].
  destruct (N.eqb_spec c sep) as [->|Hne]; [constructor; [intros []|exact IH]|].
  destruct (split_chr sep t) as [|w ws]; [constructor; [|constructor]|].
  - intros [H|[]]. congruence.
  - inversion IH as [|? ? Hw Hws]; subst. constructor; [|exact Hws].
    intros [H|H]; [congruence|contradiction].
Qed.

Lemma splitlines_from_free (s : str) :
  forall cur after_cr,
    Forall (fun c => is_line_end c = false) cur ->
    Forall (Forall (fun c => is_line_end c = false)) (splitlines_from s cur after_cr).
Proof.
  induction s as [|c t IH]; intros cur after_cr Hcur; cbn [splitlines_from].
  - destruct cur; constructor; [exact Hcur|constructor].
  - destruct (after_cr && (c =? 10)); [now apply IH|].
    destruct (is_line_end c) eqn:Hc.
    + constructor; [exact Hcur|]. apply IH. constructor.
    + apply IH. apply List.Forall_app. split; [exact Hcur|]. now constructor.
Qed.

Lemma splitlines_from_run (p : str) :
  Forall (fun c => is_line_end c = false) p ->
  forall rest cur,
    splitlines_from (p ++ rest) cur false = splitlines_from rest (cur ++ p) false.
Proof.
  induction 1 as [|c p Hc _ IH]; intros rest cur; [now rewrite List.app_nil_r|].
  cbn [List.app splitlines_from andb]. rewrite Hc, IH, <- List.app_assoc. reflexivity.
Qed.

Lemma splitlines_join (l : list str) :
  Forall (fun x => x <> [] /\ Forall (fun c => is_line_end c = false) x) l ->
  splitlines (join [10] l) = l.
Proof.
  unfold splitlines. induction 1 as [|p l [Hne Hp] Hl IH]; [reflexivity|].
  destruct l as [|q l].
  - cbn [join]. rewrite <- (List.app_nil_r p) at 1.
    rewrite splitlines_from_run by exact Hp. cbn [List.app splitlines_from].
    destruct p; [contradiction|reflexivity].
  - rewrite join_cons by discriminate. rewrite splitlines_from_run by exact Hp.
    cbn [List.app]. change (splitlines_from (10 :: join [10] (q :: l)) p false)
      with (p :: splitlines_from (join [10] (q :: l)) [] false).
    now rewrite IH.
Qed.

(** X17: lists from a file or from the command line.  Every entry that
    [_load_lines_or_csv] returns is non-empty and has no white space at
    either end; an entry read from the value itself holds no comma, and one
    read from a file holds no line boundary.  Entries that are written down
    come back: trimmed, non-empty entries without commas, joined by commas,
    are read as they are when no file has that name, and such entries without
    line boundaries, one on each line of a file, are read as they are.  The
    call raises only when the test for the file raises or the file cannot be
    read. *)
Theorem load_lines_entries (F : Files) (val : str) :
  (forall l, _load_lines_or_csv F val = Return l ->
     Forall (fun x => x <> [] /\ strip x = x) l
     /\ (path_exists F val = Return false -> Forall (fun x => ~ In 44 x) l)
     /\ (path_exists F val = Return true ->
         Forall (Forall (fun c => is_line_end c = false)) l))
  /\ (forall l, Forall (fun x => x <> [] /\ strip x = x) l ->
        (path_exists F val = Return false ->
         Forall (fun x => ~ In 44 x) l ->
         val = join (lit ",") l ->
         _load_lines_or_csv F val = Return l)
        /\ (path_exists F val = Return true ->
            Forall (Forall (fun c => is_line_end c = false)) l ->
            read_text F val = Return (join [10] l) ->
            _load_lines_or_csv F val = Return l))
  /\ (forall e, _load_lines_or_csv F val = Raise e ->
        path_exists F val = Raise e
        \/ (path_exists F val = Return true /\ read_text F val = Raise e)).
Proof.
  assert (Hsub : forall (Q : N -> Prop) xs,
             Forall (Forall Q) xs -> Forall (Forall Q) (stripped_items xs)).
  { intros Q xs Hxs. apply List.Forall_forall. intros x Hx.
    pose proof (stripped_items_shape xs) as Hshape.
    rewrite List.Forall_forall in Hshape, Hxs.
    destruct (Hshape x Hx) as (_ & _ & y & Hy & ->).
    apply List.Forall_forall. intros c Hc. apply strip_In in Hc.
    specialize (Hxs y Hy). rewrite List.Forall_forall in Hxs. now apply Hxs. }
  unfold _load_lines_or_csv. split; [|split].
  - intros l Hrun. destruct (path_exists F val) as [[|]|e]; cbn [bind] in Hrun;
      [|injection Hrun as <-|discriminate].
    + destruct (read_text F val) as [txt|e]; cbn [bind] in Hrun; [|discriminate].
      injection Hrun as <-. split; [|split; [discriminate|]].
      * eapply List.Forall_impl; [|apply stripped_items_shape]. cbn. tauto.
      * intros _. apply Hsub, splitlines_from_free. constructor.
    + split; [|split; [|discriminate]].
      * eapply List.Forall_impl; [|apply stripped_items_shape]. cbn. tauto.
      * intros _. pose proof (Hsub (fun c => c <> 44) (split_chr 44 val)) as H.
        eapply List.Forall_impl; [|apply H].
        -- intros x Hx Hin. rewrite List.Forall_forall in Hx. now apply (Hx 44).
        -- eapply List.Forall_impl; [|apply (split_chr_free 44)].
           intros p Hp. apply List.Forall_forall. intros c Hc ->. contradiction.
  - intros l Hl. split.
    + intros -> Hfree ->. cbn [bind]. change (lit ",") with [44].
      destruct l as [|x l]; [reflexivity|].
      rewrite split_chr_join by (exact Hfree || discriminate).
      now rewrite stripped_items_fixed.
    + intros -> Hfree ->. cbn [bind]. rewrite splitlines_join.
      * now rewrite stripped_items_fixed.
      * apply List.Forall_forall. intros x Hx. rewrite List.Forall_forall in Hl, Hfree.
        split; [apply (Hl x Hx)|apply (Hfree x Hx)].
  - intros e Hrun. destruct (path_exists F val) as [[|]|e']; cbn [bind] in Hrun.
    + destruct (read_text F val) as [txt|e'']; cbn [bind] in Hrun; [discriminate|].
      injection Hrun as ->. right. auto.
    + discriminate.
    + injection Hrun as ->. now left.
Qed.
